(** * fetch_latest_server_files.js: a shallow embedding and its properties

    The script resolves the newest server pack of a modpack, downloads and
    unpacks it, and rewrites [launch.sh] and [Dockerfile].  The development
    has four parts:

    - the pieces of the JavaScript platform the script calls (strings and
      their methods, [Array.prototype.sort], regular expressions and
      [String.prototype.replace], the file system, streams, and the
      outcomes of asynchronous functions);
    - the script's own functions, one definition per source function, under
      the source's names;
    - the vocabulary of the properties: what a candidate, a server program,
      a match or a line is, and sample data;
    - the properties of the script's functions, C1 to C10, with the lemmas
      they rest on. *)

From Stdlib Require Import ZArith NArith List Ascii String Bool Lia Sorted Permutation.
From stdpp Require Import gmap strings list.
Import ListNotations.

Open Scope N_scope.

(** ** JavaScript strings

    A JavaScript string is a sequence of 16-bit code units; a code unit is
    held in an [N].  Text files are read and written as ['utf-8'], so file
    contents are strings as well. *)

Abbreviation jsstring := (list N).

(** A string literal of the source (ASCII only). *)
Definition lit (s : string) : jsstring :=
  List.map N_of_ascii (list_ascii_of_string s).

Module Str.

(** [s.startsWith(x)] *)
Fixpoint startsWith (s x : jsstring) : bool :=
  match x, s with
  | [], _ => true
  | c :: x', d :: s' => (c =? d) && startsWith s' x'
  | _ :: _, [] => false
  end.

(** [s.endsWith(x)]: compares the last [x.length] code units of [s]. *)
Definition endsWith (s x : jsstring) : bool :=
  if (length x <=? length s)%nat
  then bool_decide (drop (length s - length x) s = x)
  else false.

(** [s.includes(x)]: some index of [s] starts an occurrence of [x]. *)
Fixpoint includes (s x : jsstring) : bool :=
  startsWith s x ||
  match s with
  | [] => false
  | _ :: s' => includes s' x
  end.

(** Truthiness of a string value: only the empty string is falsy. *)
Definition truthy (s : jsstring) : bool :=
  match s with [] => false | _ :: _ => true end.

End Str.

(** ** Regular expressions

    The three regular expressions of the script use literals, character
    classes under [*] and [+], the assertions [^] and [$], and capturing
    groups of literal alternatives.  [item] is that fragment; the matcher is
    the backtracking matcher of the language specification, written with
    continuations: a quantifier first tries to take one more code unit and
    falls back to its continuation (greedy), a group tries its alternatives
    from left to right. *)

Module RegExp.

(** LineTerminator: LF, CR, U+2028, U+2029. *)
Definition LineTerminator (c : N) : bool :=
  (c =? 10) || (c =? 13) || (c =? 8232) || (c =? 8233).

(** WhiteSpace: TAB, VT, FF, U+FEFF and the space separators. *)
Definition WhiteSpace (c : N) : bool :=
  (c =? 9) || (c =? 11) || (c =? 12) || (c =? 32) || (c =? 160) ||
  (c =? 5760) || ((8192 <=? c) && (c <=? 8202)) || (c =? 8239) ||
  (c =? 8287) || (c =? 12288) || (c =? 65279).

(** [\s], [\S], [.] (no [s] flag) and [[^ ]]. *)
Definition class_s (c : N) : bool := WhiteSpace c || LineTerminator c.
Definition class_S (c : N) : bool := negb (class_s c).
Definition class_dot (c : N) : bool := negb (LineTerminator c).
Definition class_not_space (c : N) : bool := negb (c =? 32).

Inductive item :=
| Lit (s : jsstring)          (* a run of literal characters *)
| Star (p : N -> bool)        (* [p*], greedy *)
| Plus (p : N -> bool)        (* [p+], greedy *)
| Bol                         (* [^] *)
| Eol                         (* [$] *)
| Grp (alts : list jsstring). (* [(a|b|...)], capturing *)

Record regexp := RE { multiline : bool; items : list item }.

(** A matcher state: the input to the left of the current position
    (nearest code unit first), the input to the right, and the captures
    made so far, in the order of the groups. *)
Record mstate := MState {
  before : jsstring;
  rest : jsstring;
  captures : list jsstring
}.

Definition cont := mstate -> option mstate.

Definition at_line_start (ml : bool) (st : mstate) : bool :=
  match before st with
  | [] => true
  | c :: _ => ml && LineTerminator c
  end.

Definition at_line_end (ml : bool) (st : mstate) : bool :=
  match rest st with
  | [] => true
  | c :: _ => ml && LineTerminator c
  end.

Definition m_lit (s : jsstring) (k : cont) (st : mstate) : option mstate :=
  if Str.startsWith (rest st) s
  then k (MState (rev s ++ before st) (drop (length s) (rest st)) (captures st))
  else None.

Fixpoint m_star (p : N -> bool) (k : cont) (b r : jsstring)
    (cs : list jsstring) : option mstate :=
  match r with
  | c :: r' =>
      if p c then
        match m_star p k (c :: b) r' cs with
        | Some e => Some e
        | None => k (MState b r cs)
        end
      else k (MState b r cs)
  | [] => k (MState b r cs)
  end.

Definition m_plus (p : N -> bool) (k : cont) (st : mstate) : option mstate :=
  match rest st with
  | c :: r' => if p c then m_star p k (c :: before st) r' (captures st) else None
  | [] => None
  end.

Fixpoint m_alts (alts : list jsstring) (k : cont) (st : mstate) : option mstate :=
  match alts with
  | [] => None
  | a :: alts' =>
      match m_lit a (fun st' => k (MState (before st') (rest st') (captures st ++ [a]))) st with
      | Some e => Some e
      | None => m_alts alts' k st
      end
  end.

Definition m_item (ml : bool) (it : item) (k : cont) (st : mstate) : option mstate :=
  match it with
  | Lit s => m_lit s k st
  | Star p => m_star p k (before st) (rest st) (captures st)
  | Plus p => m_plus p k st
  | Bol => if at_line_start ml st then k st else None
  | Eol => if at_line_end ml st then k st else None
  | Grp alts => m_alts alts k st
  end.

Fixpoint m_items (ml : bool) (its : list item) (k : cont) : cont :=
  match its with
  | [] => k
  | it :: its' => m_item ml it (m_items ml its' k)
  end.

(** One attempt of the pattern at the current position. *)
Definition match_at (re : regexp) (b r : jsstring) : option mstate :=
  m_items (multiline re) (items re) Some (MState b r []).

(** [RegExpBuiltinExec] without the [g] and [y] flags: the pattern is
    tried at index 0, 1, ... up to the length of the input; the first
    index with a match wins.  The result is the state where the match
    starts, with the state where it ends. *)
Fixpoint search (re : regexp) (b r : jsstring) : option (mstate * mstate) :=
  match match_at re b r with
  | Some e => Some (MState b r [], e)
  | None =>
      match r with
      | [] => None
      | c :: r' => search re (c :: b) r'
      end
  end.

Definition exec (re : regexp) (s : jsstring) : option (mstate * mstate) :=
  search re [] s.

Definition is_digit (c : N) : bool := (48 <=? c) && (c <=? 57).
Definition digit (c : N) : nat := N.to_nat (c - 48).

(** [$n] with capture list [caps]: the capture when [1 <= n <= m],
    otherwise the reference itself, left as it is. *)
Definition capture_ref (caps : list jsstring) (n : nat) (ref : jsstring) : jsstring :=
  if ((1 <=? n)%nat && (n <=? length caps)%nat)%bool
  then nth (n - 1) caps []
  else ref.

(** [GetSubstitution]: expands the replacement template.  [$$] is a
    dollar, [$&] the matched text, [$`] and [$'] the text before and after
    the match, [$n] and [$nn] a capture; a two-digit reference beyond the
    last group is a one-digit reference followed by a digit.  There are
    no named groups, so [$<] stands for itself, like any other [$]. *)
Fixpoint GetSubstitution (matched str : jsstring) (position : nat)
    (caps : list jsstring) (template : jsstring) : jsstring :=
  let go := GetSubstitution matched str position caps in
  match template with
  | [] => []
  | c :: t1 =>
      if negb (c =? 36) then c :: go t1 else
      match t1 with
      | [] => [36]
      | d :: t2 =>
          if d =? 36 then 36 :: go t2
          else if d =? 38 then matched ++ go t2
          else if d =? 96 then take position str ++ go t2
          else if d =? 39 then drop (position + length matched) str ++ go t2
          else if is_digit d then
            match t2 with
            | e :: t3 =>
                if (is_digit e && negb (length caps <? 10 * digit d + digit e)%nat)%bool
                then capture_ref caps (10 * digit d + digit e) [36; d; e] ++ go t3
                else capture_ref caps (digit d) [36; d] ++ go t2
            | [] => capture_ref caps (digit d) [36; d]
            end
          else 36 :: go t1
      end
  end.

(** [s.replace(re, replacement)] with a string replacement and no [g]
    flag: the first match is replaced by the expanded template; without a
    match the string is returned as it is. *)
Definition replace (re : regexp) (s replacement : jsstring) : jsstring :=
  match exec re s with
  | None => s
  | Some (st0, st1) =>
      let matched := take (length (rest st0) - length (rest st1)) (rest st0) in
      rev (before st0)
        ++ GetSubstitution matched s (length (before st0)) (captures st1) replacement
        ++ rest st1
  end.

End RegExp.

(** The regular expressions of the script. *)

(** [/^SERVER_VERSION=.*$/m] *)
Definition SERVER_VERSION_RE : RegExp.regexp :=
  RegExp.RE true
    [RegExp.Bol; RegExp.Lit (lit "SERVER_VERSION="); RegExp.Star RegExp.class_dot; RegExp.Eol].

(** [/^(COPY|ADD)\s+[^ ]+\.(jar|sh)\s+.*$/m] *)
Definition COPY_RE : RegExp.regexp :=
  RegExp.RE true
    [RegExp.Bol; RegExp.Grp [lit "COPY"; lit "ADD"]; RegExp.Plus RegExp.class_s;
     RegExp.Plus RegExp.class_not_space; RegExp.Lit (lit ".");
     RegExp.Grp [lit "jar"; lit "sh"]; RegExp.Plus RegExp.class_s;
     RegExp.Star RegExp.class_dot; RegExp.Eol].

(** [/\.zip$/] *)
Definition ZIP_RE : RegExp.regexp :=
  RegExp.RE false [RegExp.Lit (lit ".zip"); RegExp.Eol].

(** ** Arrays

    [Array.prototype.sort(comparefn)] is stable, and with a consistent
    comparator every stable sort returns the same array; the model is the
    stable insertion sort.  Only the sign of [comparefn(a, b)] matters. *)

Module Arr.

Section Sort.
Context {A : Type} (comparefn : A -> A -> Z).

Fixpoint insert (x : A) (l : list A) : list A :=
  match l with
  | [] => [x]
  | y :: l' => if (0 <? comparefn x y)%Z then y :: insert x l' else x :: l
  end.

Definition sort (l : list A) : list A := foldr insert [] l.
End Sort.

(** [l[0]]: [undefined] on an empty array. *)
Definition first {A : Type} (l : list A) : option A := head l.

End Arr.

(** ** The catalog API

    A file record of the listing, with the fields the script reads.
    [fileDate] is the time value of [new Date(file.fileDate)], in
    milliseconds.  [gameVersion] is [None] when the property is missing, an
    array of version tags otherwise; [includes] on an array of strings is
    membership.  [serverPackFileId] is [None] when the property is missing
    or null. *)

Record file := FileRecord {
  displayName : jsstring;
  fileName : jsstring;
  fileDate : Z;
  gameVersion : option (list jsstring);
  serverPackFileId : option Z
}.

(** The [data] property of the listing response: an array of file records,
    or any other value, of which the script reads only [typeof]. *)
Inductive data :=
| DataArray (files : list file)
| DataOther (typeof : jsstring).

(** Truthiness of [file.serverPackFileId]: a number other than 0. *)
Definition truthy_id (id : option Z) : bool :=
  match id with
  | Some n => negb (n =? 0)%Z
  | None => false
  end.

(** [tags.includes(v)] on an array of strings. *)
Definition array_includes (tags : list jsstring) (v : jsstring) : bool :=
  bool_decide (v ∈ tags).

(** ** Outcomes, the world and the environment *)

(** The values the script throws, and the rejections of the calls it
    awaits.  The script throws plain [Error]s; the constructors name the
    throwing statement. *)
Inductive error :=
| UpstreamResponseError (received_type : jsstring) (* [data] is not an array *)
| NoMatchingReleaseError                           (* no file passed the filter *)
| DownloadError (statusText : jsstring)            (* [response.ok] is false *)
| Rejected (reason : jsstring).                    (* an awaited call rejected *)

(** How a piece of the script ends: it returns, it throws, or the process
    ends with a status.  The process ends at [process.exit], and at an
    exception that nothing catches; no statement runs after either, neither
    the rest of the block nor a [finally]. *)
Inductive outcome (A : Type) :=
| Normal (a : A)
| Throw (e : error)
| Exit (code : Z).
Arguments Normal {A} a.
Arguments Throw {A} e.
Arguments Exit {A} code.

(** A settled promise of an external call. *)
Inductive settled (A : Type) :=
| Resolved (a : A)
| Rejects (reason : jsstring).
Arguments Resolved {A} a.
Arguments Rejects {A} reason.

(** The file system, by path: a regular file with its text, or a directory
    with the names [readdir] reports, in the order it reports them.  The
    order is that of [strcmp] on the names, in which the platform's
    directory scan sorts them; new names are entered in their place. *)
Inductive node :=
| File (content : jsstring)
| Dir (entries : list jsstring).

(** A write stream holds its file descriptor open from the moment the file
    is opened.  It has finished once [end()] was called and its data is
    flushed, which is when ['finish'] is emitted; the descriptor is still
    open then.  After ['finish'] the stream closes the descriptor by itself
    and emits ['close']. *)
Inductive stream_state := Open | Finished | Closed.

(** The events of a write stream a promise can be resolved on. *)
Inductive stream_event := OnFinish | OnClose.

Inductive request :=
| GetModFiles (modId : Z)
| GetFile (modId : Z) (fileId : option Z)
| Fetch (url : jsstring).

(** One constructor per [console] call of the script. *)
Inductive console_event :=
| ErrorNoApiKey
| LogSearching
| LogFound (name : jsstring) (id : option Z)
| LogDownloading (url : jsstring)
| LogDownloadComplete (path : jsstring)
| LogExtracting
| LogExtractionComplete
| WarnNoServerJar
| LogUpdatingLaunch (version : jsstring)
| LogUpdatingDockerfile (jar : jsstring)
| WarnNoDockerfile
| ErrorReadingTempDir (e : error)
| ErrorUpdateProcess (e : error)
| LogCleaningUp.

Record world := World {
  fs : gmap (list N) node;
  streams : gmap (list N) stream_state;
  console : list console_event;
  requests : list request
}.

(** The body of an HTTP response: the chunks it delivers, then ['end'], or
    ['error'] with a reason. *)
Record body_stream := Body {
  chunks : list jsstring;
  failure : option jsstring
}.

Record response := Response {
  ok : bool;
  statusText : jsstring;
  body : body_stream
}.

(** What the outside answers: the environment variable, the catalog, the
    HTTP server and the archive reader (the files an archive with the given
    content expands to, by name). *)
Record env := Env {
  CURSEFORGE_API_KEY : option jsstring;
  getModFiles : Z -> settled data;
  getFile : Z -> option Z -> settled jsstring;
  fetch : jsstring -> settled response;
  unzip : jsstring -> settled (list (jsstring * jsstring))
}.

(** The monad of the script: state passing over the world, with the three
    outcomes. *)
Definition M (A : Type) : Type := world -> outcome A * world.

Definition ret {A : Type} (a : A) : M A := fun w => (Normal a, w).

Definition bind {A B : Type} (c : M A) (k : A -> M B) : M B :=
  fun w =>
    match c w with
    | (Normal a, w') => k a w'
    | (Throw e, w') => (Throw e, w')
    | (Exit code, w') => (Exit code, w')
    end.

Notation "x <- c ;; k" := (bind c (fun x => k))
  (at level 100, c at next level, right associativity).
Notation "c ;;; k" := (bind c (fun _ => k))
  (at level 100, right associativity).

Definition throw {A : Type} (e : error) : M A := fun w => (Throw e, w).

(** [process.exit(code)] *)
Definition process_exit {A : Type} (code : Z) : M A := fun w => (Exit code, w).

(** [await p] for an external promise. *)
Definition await {A : Type} (p : settled A) : M A :=
  match p with
  | Resolved a => ret a
  | Rejects reason => throw (Rejected reason)
  end.

(** [try { body } catch (error) { handler } finally { final }].  [final]
    runs after [body] and after [handler], however they end, unless the
    process has exited; when [final] itself does not return, its outcome
    replaces the pending one. *)
Definition try_catch_finally {A : Type}
    (body : M A) (handler : error -> M A) (final : M unit) : M A :=
  fun w =>
    let after (r : outcome A * world) : outcome A * world :=
      match r with
      | (Exit code, w') => (Exit code, w')
      | (o, w') =>
          match final w' with
          | (Normal _, w'') => (o, w'')
          | (Throw e, w'') => (Throw e, w'')
          | (Exit code, w'') => (Exit code, w'')
          end
      end in
    match body w with
    | (Throw e, w') => after (handler e w')
    | r => after r
    end.

(** [try { body } catch (error) { handler }] *)
Definition try_catch {A : Type} (body : M A) (handler : error -> M A) : M A :=
  fun w =>
    match body w with
    | (Throw e, w') => handler e w'
    | r => r
    end.

Definition console_emit (ev : console_event) : M unit :=
  fun w => (Normal tt, World (fs w) (streams w) (console w ++ [ev]) (requests w)).

Definition request_emit (rq : request) : M unit :=
  fun w => (Normal tt, World (fs w) (streams w) (console w) (requests w ++ [rq])).

(** ** The file system calls of the script

    Paths are resolved against the working directory; [path.join]
    normalises its result.  Of the normalisation only the removal of a
    leading [./] matters for the paths of the script.  A call fails when
    the file system is not in the state it needs: there is nothing to read,
    a directory stands where a file is to be written, there is no directory
    to open a file in.  Failures of the medium (a full disk, a missing
    permission) are not modelled, for any call. *)

Definition path_normalize (p : jsstring) : jsstring :=
  if Str.startsWith p (lit "./") then drop 2 p else p.

Definition path_join (a b : jsstring) : jsstring :=
  path_normalize (a ++ lit "/" ++ b).

(** [("a/b", "c")] for ["a/b/c"]; [None] without a slash. *)
Fixpoint split_last_slash (p : jsstring) : option (jsstring * jsstring) :=
  match p with
  | [] => None
  | c :: p' =>
      match split_last_slash p' with
      | Some (d, b) => Some (c :: d, b)
      | None => if c =? 47 then Some ([], p') else None
      end
  end.

(** Code units ranked as the code points they encode, which is the order
    of the bytes of UTF-8: the surrogates, which encode the code points from
    U+10000 on, come after the rest of the Basic Multilingual Plane. *)
Definition code_point_rank (c : N) : N :=
  if c <? 55296 then c
  else if c <? 57344 then c + 8192
  else c - 2048.

(** [strcmp(a, b) <= 0] on the UTF-8 forms of two names. *)
Fixpoint name_leb (a b : jsstring) : bool :=
  match a, b with
  | [], _ => true
  | _ :: _, [] => false
  | x :: a', y :: b' =>
      if x =? y then name_leb a' b' else code_point_rank x <? code_point_rank y
  end.

(** A name entered in its place in a listing. *)
Fixpoint enter (b : jsstring) (es : list jsstring) : list jsstring :=
  match es with
  | [] => [b]
  | e :: es' => if name_leb b e then b :: es else e :: enter b es'
  end.

(** A new file shows up in the listing of its directory. *)
Definition link (p : jsstring) (m : gmap (list N) node) : gmap (list N) node :=
  match split_last_slash p with
  | Some (d, b) =>
      match m !! d with
      | Some (Dir es) => if bool_decide (b ∈ es) then m else <[d := Dir (enter b es)]> m
      | _ => m
      end
  | None => m
  end.

(** [k] is [p] or lies below it. *)
Definition inside (p k : jsstring) : bool :=
  bool_decide (k = p) || Str.startsWith k (p ++ lit "/").

Definition with_fs (f : gmap (list N) node -> gmap (list N) node) (w : world) : world :=
  World (f (fs w)) (streams w) (console w) (requests w).

Definition with_streams (f : gmap (list N) stream_state -> gmap (list N) stream_state)
    (w : world) : world :=
  World (fs w) (f (streams w)) (console w) (requests w).

(** [existsSync(p)] *)
Definition existsSync (p : jsstring) : M bool :=
  fun w => (Normal (bool_decide (is_Some (fs w !! path_normalize p))), w).

(** [fs.mkdir(p, { recursive: true })] *)
Definition mkdir (p : jsstring) : M unit :=
  fun w =>
    match fs w !! path_normalize p with
    | None => (Normal tt, with_fs (insert (path_normalize p) (Dir [])) w)
    | Some (Dir _) => (Normal tt, w)
    | Some (File _) => (Throw (Rejected (lit "EEXIST")), w)
    end.

(** [fs.readFile(p, 'utf-8')] *)
Definition readFile (p : jsstring) : M jsstring :=
  fun w =>
    match fs w !! path_normalize p with
    | Some (File content) => (Normal content, w)
    | Some (Dir _) => (Throw (Rejected (lit "EISDIR")), w)
    | None => (Throw (Rejected (lit "ENOENT")), w)
    end.

(** [fs.writeFile(p, content)] *)
Definition writeFile (p content : jsstring) : M unit :=
  fun w =>
    match fs w !! path_normalize p with
    | Some (Dir _) => (Throw (Rejected (lit "EISDIR")), w)
    | _ => (Normal tt,
            with_fs (fun m => link (path_normalize p) (<[path_normalize p := File content]> m)) w)
    end.

(** [fs.readdir(p)] *)
Definition readdir (p : jsstring) : M (list jsstring) :=
  fun w =>
    match fs w !! path_normalize p with
    | Some (Dir entries) => (Normal entries, w)
    | Some (File _) => (Throw (Rejected (lit "ENOTDIR")), w)
    | None => (Throw (Rejected (lit "ENOENT")), w)
    end.

(** [fs.rm(p, { recursive: true, force: true })] *)
Definition rm (p : jsstring) : M unit :=
  fun w =>
    (Normal tt,
     with_fs (filter (fun kv : list N * node => inside (path_normalize p) kv.1 = false)) w).

(** What stops [open(p, 'w')]: a directory at [p], or no directory for [p]
    to lie in. *)
Definition open_error (p : jsstring) (m : gmap (list N) node) : option jsstring :=
  match m !! p with
  | Some (Dir _) => Some (lit "EISDIR")
  | _ =>
      match split_last_slash p with
      | Some (d, _) =>
          match m !! d with
          | Some (Dir _) => None
          | Some (File _) => Some (lit "ENOTDIR")
          | None => Some (lit "ENOENT")
          end
      | None => None
      end
  end.

(** An ['error'] event of a stream that has no listener for it: [emit]
    throws the error, from a callback of the event loop and so outside every
    [try] of the script.  The exception is uncaught: the process ends with
    status 1, and no [catch] or [finally] block runs. *)
Definition unhandled_error_event {A : Type} (reason : jsstring) : M A :=
  fun w => (Exit 1, w).

(** [createWriteStream(p)] returns the stream and opens the file behind the
    scenes.  When the file is opened, it is created or truncated, and the
    stream holds its descriptor.  When it cannot be opened, the stream
    emits ['error']; the script gives its file stream a listener for
    ['finish'] and none for ['error'].  The script does nothing that can be
    observed between the call and the end of the attempt to open, so the
    model has the attempt at the call; an ['error'] of the response body
    within that time is not modelled. *)
Definition createWriteStream (p : jsstring) : M unit :=
  fun w =>
    match open_error (path_normalize p) (fs w) with
    | Some reason => unhandled_error_event reason w
    | None =>
        (Normal tt,
         with_streams (insert (path_normalize p) Open)
           (with_fs (fun m => link (path_normalize p) (<[path_normalize p := File []]> m)) w))
    end.

(** A chunk written to the stream is appended to the file. *)
Definition stream_write (p chunk : jsstring) : M unit :=
  fun w =>
    (Normal tt,
     with_fs (fun m =>
                match m !! path_normalize p with
                | Some (File content) => <[path_normalize p := File (content ++ chunk)]> m
                | _ => m
                end) w).

(** [end()] on the stream: the data is flushed, ['finish'] is emitted. *)
Definition stream_end (p : jsstring) : M unit :=
  fun w => (Normal tt, with_streams (insert (path_normalize p) Finished) w).

(** What the stream does by itself after ['finish']: it closes the
    descriptor and emits ['close']. *)
Definition stream_close (p : jsstring) : M unit :=
  fun w => (Normal tt, with_streams (insert (path_normalize p) Closed) w).

(** The ['data'] events of a piped source: each chunk is written to [dest]. *)
Definition write_chunks (dest : jsstring) (cs : list jsstring) : M unit :=
  foldr (fun chunk k => stream_write dest chunk ;;; k) (ret tt) cs.

(** The promise [new Promise((resolve, reject) => { source.pipe(dest);
    source.on("error", reject); dest.on(event, resolve); })], up to the
    moment it is settled.  Every chunk of the source is written to [dest].
    When the source ends, [pipe] calls [dest.end()]; ['finish'] follows, and
    ['close'] after it, and the promise is resolved at the one of the two
    that is [event].  When the source emits ['error'], the promise is
    rejected; [pipe] does not end or close [dest] then, and the script has
    no other call that would. *)
Definition pipe_until_settled (source : body_stream) (dest : jsstring)
    (event : stream_event) : M unit :=
  write_chunks dest (chunks source) ;;;
  match failure source with
  | None =>
      stream_end dest ;;;
      match event with
      | OnFinish => ret tt
      | OnClose => stream_close dest
      end
  | Some reason => throw (Rejected reason)
  end.

(** ** The script *)

Definition MODPACK_ID : Z := 925200.
Definition MINECRAFT_VERSION : jsstring := lit "1.21".
Definition TEMP_DIR : jsstring := lit "./temp_server_files".
Definition SERVER_FILE_NAME : jsstring := lit "server-files.zip".
Definition LAUNCH_SH_PATH : jsstring := lit "launch.sh".
Definition DOCKERFILE_PATH : jsstring := lit "Dockerfile".

(** The object [findLatestServerFile] returns. *)
Record server_file_info := ServerFileInfo {
  downloadUrl : jsstring;
  modpackVersion : jsstring;
  info_fileName : jsstring;
  info_displayName : jsstring
}.

(** The callback of [files.filter]. *)
Definition is_candidate (file : file) : bool :=
  match gameVersion file with
  | None => false
  | Some tags => truthy_id (serverPackFileId file) && array_includes tags MINECRAFT_VERSION
  end.

(** The callback of [sort]: [new Date(b.fileDate) - new Date(a.fileDate)]. *)
Definition by_date_desc (a b : file) : Z := (fileDate b - fileDate a)%Z.

(** [files.filter(...).sort(...)[0]] *)
Definition select_server_file (files : list file) : option file :=
  Arr.first (Arr.sort by_date_desc (List.filter is_candidate files)).

Definition findLatestServerFile (e : env) : M server_file_info :=
  console_emit LogSearching ;;;
  request_emit (GetModFiles MODPACK_ID) ;;;
  response <- await (getModFiles e MODPACK_ID) ;;
  match response with
  | DataOther typeof => throw (UpstreamResponseError typeof)
  | DataArray files =>
      match select_server_file files with
      | None => throw NoMatchingReleaseError
      | Some serverFile =>
          request_emit (GetFile MODPACK_ID (serverPackFileId serverFile)) ;;;
          serverPackFile <- await (getFile e MODPACK_ID (serverPackFileId serverFile)) ;;
          console_emit (LogFound (displayName serverFile) (serverPackFileId serverFile)) ;;;
          ret (ServerFileInfo serverPackFile
                 (RegExp.replace ZIP_RE (fileName serverFile) [])
                 (fileName serverFile)
                 (displayName serverFile))
      end
  end.

Definition downloadFile (e : env) (url outputPath : jsstring) : M unit :=
  console_emit (LogDownloading url) ;;;
  request_emit (Fetch url) ;;;
  response <- await (fetch e url) ;;
  if negb (ok response) then throw (DownloadError (statusText response))
  else
    (createWriteStream outputPath ;;;
     pipe_until_settled (body response) outputPath OnFinish ;;;
     console_emit (LogDownloadComplete outputPath)).

(** [unzipper.Open.file(zipPath)] reads the archive,
    [directory.extract({ path })] writes its files below [path]. *)
Definition extractServerFiles (e : env) : M unit :=
  console_emit LogExtracting ;;;
  (let zipPath := path_join TEMP_DIR SERVER_FILE_NAME in
   archive <- readFile zipPath ;;
   directory <- await (unzip e archive) ;;
   foldr (fun entry k => writeFile (path_join TEMP_DIR entry.1) entry.2 ;;; k)
     (ret tt) directory ;;;
   console_emit LogExtractionComplete).

(** The callback of [files.find]. *)
Definition is_server_jar (file : jsstring) : bool :=
  Str.endsWith file (lit ".jar")
  && negb (Str.includes file (lit "installer"))
  && negb (Str.includes file (lit "client")).

(** [serverJar || null] *)
Definition or_null (serverJar : option jsstring) : option jsstring :=
  match serverJar with
  | Some name => if Str.truthy name then Some name else None
  | None => None
  end.

Definition findServerJarInTempDir : M (option jsstring) :=
  try_catch
    (files <- readdir TEMP_DIR ;;
     ret (or_null (List.find is_server_jar files)))
    (fun error => console_emit (ErrorReadingTempDir error) ;;; ret None).

(** Truthiness of a [string|null]. *)
Definition truthy_opt (v : option jsstring) : bool :=
  match v with
  | Some s => Str.truthy s
  | None => false
  end.

(** The last statement is [if (jar && existsSync(D)) {...} else if (jar)
    {...}]: [existsSync] is evaluated only for a truthy [jar]. *)
Definition updateRepoFiles (modpackVersion : jsstring) : M unit :=
  serverJarFile <- findServerJarInTempDir ;;
  (if negb (truthy_opt serverJarFile) then console_emit WarnNoServerJar else ret tt) ;;;
  console_emit (LogUpdatingLaunch modpackVersion) ;;;
  launchShContent <- readFile LAUNCH_SH_PATH ;;
  writeFile LAUNCH_SH_PATH
    (RegExp.replace SERVER_VERSION_RE launchShContent
       (lit "SERVER_VERSION=" ++ modpackVersion)) ;;;
  if truthy_opt serverJarFile then
    dockerfileExists <- existsSync DOCKERFILE_PATH ;;
    if dockerfileExists then
      console_emit (LogUpdatingDockerfile (default [] serverJarFile)) ;;;
      dockerfileContent <- readFile DOCKERFILE_PATH ;;
      writeFile DOCKERFILE_PATH
        (RegExp.replace COPY_RE dockerfileContent
           (lit "COPY " ++ default [] serverJarFile ++ lit " /server/minecraft_server.jar"))
    else console_emit WarnNoDockerfile
  else ret tt.

Definition main (e : env) : M unit :=
  try_catch_finally
    (mkdir TEMP_DIR ;;;
     serverFileInfo <- findLatestServerFile e ;;
     (let zipPath := path_join TEMP_DIR SERVER_FILE_NAME in
      downloadFile e (downloadUrl serverFileInfo) zipPath ;;;
      extractServerFiles e ;;;
      updateRepoFiles (modpackVersion serverFileInfo)))
    (fun error => console_emit (ErrorUpdateProcess error) ;;; process_exit 1)
    (tempExists <- existsSync TEMP_DIR ;;
     if tempExists then console_emit LogCleaningUp ;;; rm TEMP_DIR else ret tt).

(** The module body: the check of the API key, then [main()]. *)
Definition script (e : env) : M unit :=
  match CURSEFORGE_API_KEY e with
  | Some (_ :: _) => main e
  | _ => console_emit ErrorNoApiKey ;;; process_exit 1
  end.

(** * Vocabulary of the properties

    The predicates and functions the properties are stated with, and the
    sample data of the examples. *)

(** ** Names of server programs *)

(** What the specification asks of a server program name. *)
Definition ends_with (x s : jsstring) : Prop := exists p, s = p ++ x.
Definition contains (x s : jsstring) : Prop := exists p q, s = p ++ x ++ q.

Definition server_program (name : jsstring) : Prop :=
  ends_with (lit ".jar") name
  /\ ~ contains (lit "installer") name
  /\ ~ contains (lit "client") name.

(** The listing [readdir(TEMP_DIR)] gives in a world, if it gives one. *)
Definition temp_listing (w : world) : option (list jsstring) :=
  match fs w !! path_normalize TEMP_DIR with
  | Some (Dir entries) => Some entries
  | _ => None
  end.

(** The value [findServerJarInTempDir] returns in a world. *)
Definition located_jar (w : world) : option jsstring :=
  match temp_listing w with
  | Some files => or_null (List.find is_server_jar files)
  | None => None
  end.

(** ** Candidates of the selection *)

(** What the specification asks of a candidate: a truthy server pack
    identifier, and version tags that contain the target version. *)
Definition eligible (f : file) : Prop :=
  truthy_id (serverPackFileId f) = true
  /\ exists tags, gameVersion f = Some tags /\ In MINECRAFT_VERSION tags.

(** ** Orders *)

(** The comparator of a sort in descending order of [key]. *)
Definition descending {A : Type} (key : A -> Z) (a b : A) : Z := (key b - key a)%Z.

(** ** Failures of the resolution, and sample data *)

(** The listing of the end-to-end scenario, with a tie added. *)
Definition sample_listing : list file :=
  [ FileRecord (lit "a") (lit "a.zip") 100 (Some [lit "1.20"]) (Some 5%Z);
    FileRecord (lit "b") (lit "b.zip") 300 (Some [lit "1.21"]) None;
    FileRecord (lit "c") (lit "c.zip") 200 (Some [lit "1.21"]) (Some 7%Z);
    FileRecord (lit "d") (lit "d.zip") 200 (Some [lit "1.21"]) (Some 8%Z) ].

(** A listing whose eligible entries have different release times: two
    eligible entries, the older one first, and between them a newer entry
    without a server pack. *)
Definition dated_listing : list file :=
  [ FileRecord (lit "c") (lit "c.zip") 200 (Some [lit "1.21"]) (Some 7%Z);
    FileRecord (lit "b") (lit "b.zip") 500 (Some [lit "1.21"]) None;
    FileRecord (lit "n") (lit "n.zip") 400 (Some [lit "NeoForge"; lit "1.21"]) (Some 9%Z) ].

(** The two ways the listing stops the resolution, each with the error the
    script throws for it. *)
Inductive resolution_failure : data -> error -> Prop :=
| not_a_sequence (typeof : jsstring) :
    resolution_failure (DataOther typeof) (UpstreamResponseError typeof)
| no_candidate (files : list file) :
    List.filter is_candidate files = [] ->
    resolution_failure (DataArray files) NoMatchingReleaseError.

(** Sample worlds and environments for the examples below. *)
Definition empty_world : world := World ∅ ∅ [] [].

Definition sample_env (listing : settled data) (download : settled response) : env :=
  Env (Some (lit "key"))
    (fun _ => listing)
    (fun _ _ => Resolved (lit "https://cdn.example/server.zip"))
    (fun _ => download)
    (fun _ => Resolved [(lit "forge-installer.jar", lit "installer");
                        (lit "server.jar", lit "server")]).

Definition sample_response (is_ok : bool) (failure : option jsstring) : settled response :=
  Resolved (Response is_ok (lit "status") (Body [lit "PK"; lit "data"] failure)).

(** ** Ends of a download *)

(** How [downloadFile] ends once the response is [ok], and the state it
    leaves the write stream in. *)
Definition download_outcome (source : body_stream) : outcome unit :=
  match failure source with
  | None => Normal tt
  | Some reason => Throw (Rejected reason)
  end.

Definition stream_after (source : body_stream) : stream_state :=
  match failure source with
  | None => Finished
  | Some _ => Open
  end.

(** ** The scratch directory *)

(** A repository without a build file, after the extraction. *)
Definition repo_without_build_file : world :=
  World (<[lit "launch.sh" := File (lit "SERVER_VERSION=1.0")]>
           (<[lit "temp_server_files" := Dir [lit "server.jar"]]> ∅))
    ∅ [] [].

(** A computation that removes nothing at [k], and that ends the process,
    if it does, with status 1. *)
Definition keeps {A : Type} (k : jsstring) (c : M A) : Prop :=
  forall w,
    (forall code, (c w).1 = Exit code -> code = 1%Z)
    /\ (is_Some (fs w !! k) -> is_Some (fs (c w).2 !! k)).

(** The stages of [main], from [mkdir] to [updateRepoFiles]. *)
Definition stages (e : env) : M unit :=
  mkdir TEMP_DIR ;;;
  serverFileInfo <- findLatestServerFile e ;;
  (downloadFile e (downloadUrl serverFileInfo) (path_join TEMP_DIR SERVER_FILE_NAME) ;;;
   extractServerFiles e ;;;
   updateRepoFiles (modpackVersion serverFileInfo)).

(** A repository with a launch script and a build file, before a run. *)
Definition sample_repo : world :=
  World (<[lit "launch.sh" := File (lit "#!/bin/bash" ++ [10] ++ lit "SERVER_VERSION=1.0" ++ [10])]>
           (<[lit "Dockerfile" := File (lit "FROM java" ++ [10] ++ lit "COPY old.jar /server/old.jar" ++ [10])]> ∅))
    ∅ [] [].

(** The repository once [main] has made the scratch directory. *)
Definition prepared_repo : world := (mkdir TEMP_DIR sample_repo).2.

(** ** Matches of a regular expression *)

(** [den_items ml its b x r]: the items [its] can consume [x] when the input
    to the left is [b] (nearest code unit first) and the input after [x] is
    [r].  Which match the matcher finds among several is fixed by its order
    of trial; that there is one is what [den_items] says. *)
Definition den_item (ml : bool) (it : RegExp.item) (b x r : jsstring) : Prop :=
  match it with
  | RegExp.Lit s => x = s
  | RegExp.Star p => forallb p x = true
  | RegExp.Plus p => x <> [] /\ forallb p x = true
  | RegExp.Bol => x = [] /\ RegExp.at_line_start ml (RegExp.MState b r []) = true
  | RegExp.Eol => x = [] /\ RegExp.at_line_end ml (RegExp.MState b r []) = true
  | RegExp.Grp alts => In x alts
  end.

Fixpoint den_items (ml : bool) (its : list RegExp.item) (b x r : jsstring) : Prop :=
  match its with
  | [] => x = []
  | it :: its' =>
      exists x1 x2,
        x = x1 ++ x2
        /\ den_item ml it b x1 (x2 ++ r)
        /\ den_items ml its' (rev x1 ++ b) x2 r
  end.

(** [x], between [pre] and [post], is a match of [re]. *)
Definition matches (re : RegExp.regexp) (pre x post : jsstring) : Prop :=
  den_items (RegExp.multiline re) (RegExp.items re) (rev pre) x post.

(** A position at the start of a line, given the text before it, and at the
    end of a line, given the text after it. *)
Definition starts_line (pre : jsstring) : Prop :=
  match last pre with
  | None => True
  | Some c => RegExp.LineTerminator c = true
  end.

Definition ends_line (post : jsstring) : Prop :=
  match head post with
  | None => True
  | Some c => RegExp.LineTerminator c = true
  end.

(** ** The two patches *)

(** The content [updateRepoFiles] writes to the launch script and to the
    build file. *)
Definition new_launch (content version : jsstring) : jsstring :=
  RegExp.replace SERVER_VERSION_RE content (lit "SERVER_VERSION=" ++ version).

Definition new_dockerfile (content jar : jsstring) : jsstring :=
  RegExp.replace COPY_RE content
    (lit "COPY " ++ jar ++ lit " /server/minecraft_server.jar").

(** The texts [/(COPY|ADD)\s+[^ ]+\.(jar|sh)\s+.*/] stands for: a keyword,
    white space, a run without a space character, a dot with [jar] or [sh],
    white space, and a rest without line terminators.  White space and the
    run without a space may contain line terminators. *)
Definition copy_directive (x : jsstring) : Prop :=
  exists keyword ws1 path ext ws2 tail,
    x = keyword ++ ws1 ++ path ++ lit "." ++ ext ++ ws2 ++ tail
    /\ In keyword [lit "COPY"; lit "ADD"]
    /\ (ws1 <> [] /\ forallb RegExp.class_s ws1 = true)
    /\ (path <> [] /\ forallb RegExp.class_not_space path = true)
    /\ In ext [lit "jar"; lit "sh"]
    /\ (ws2 <> [] /\ forallb RegExp.class_s ws2 = true)
    /\ forallb RegExp.class_dot tail = true.

(** A match of the pattern of the build file: such a text, from the start
    of a line to the end of a line. *)
Definition copy_match (pre x post : jsstring) : Prop :=
  starts_line pre /\ copy_directive x /\ ends_line post.

(** The parts of such a text, in the order of the pattern: the keyword, the
    first [\s+], the [[^ ]+], the extension, the second [\s+] and the
    [.*]. *)
Record copy_parts := CopyParts {
  cp_keyword : jsstring;
  cp_gap : jsstring;
  cp_source : jsstring;
  cp_ext : jsstring;
  cp_gap2 : jsstring;
  cp_tail : jsstring
}.

Definition parts_text (c : copy_parts) : jsstring :=
  cp_keyword c ++ cp_gap c ++ cp_source c ++ lit "." ++ cp_ext c ++ cp_gap2 c ++ cp_tail c.

Definition parts_ok (c : copy_parts) : Prop :=
  In (cp_keyword c) [lit "COPY"; lit "ADD"]
  /\ (cp_gap c <> [] /\ forallb RegExp.class_s (cp_gap c) = true)
  /\ (cp_source c <> [] /\ forallb RegExp.class_not_space (cp_source c) = true)
  /\ In (cp_ext c) [lit "jar"; lit "sh"]
  /\ (cp_gap2 c <> [] /\ forallb RegExp.class_s (cp_gap2 c) = true)
  /\ forallb RegExp.class_dot (cp_tail c) = true.

(** The order in which the pattern tries the ways to read a directive at
    one place.  Its quantifiers are greedy: the first [\s+] takes as much as
    it can, then [[^ ]+] does, then the second [\s+]; a shorter run is tried
    when no match comes of the longer one.  [tried_first c c']: the pattern
    comes to the reading [c] before it would come to [c'], or they take the
    same runs. *)
Definition tried_first (c c' : copy_parts) : Prop :=
  (length (cp_gap c') < length (cp_gap c))%nat
  \/ (length (cp_gap c') = length (cp_gap c)
      /\ ((length (cp_source c') < length (cp_source c))%nat
          \/ (length (cp_source c') = length (cp_source c)
              /\ (length (cp_gap2 c') <= length (cp_gap2 c))%nat))).

(** The first match of the pattern in [s]: it is a match, no match starts
    further left, and of the matches that start at the same place it is the
    one the pattern comes to first. *)
Definition first_copy_match (s pre : jsstring) (c : copy_parts) (post : jsstring) : Prop :=
  s = pre ++ parts_text c ++ post
  /\ copy_match pre (parts_text c) post
  /\ parts_ok c
  /\ forall pre' c' post',
       s = pre' ++ parts_text c' ++ post' ->
       starts_line pre' -> parts_ok c' -> ends_line post' ->
       (length pre < length pre')%nat
       \/ (length pre' = length pre /\ tried_first c c').

(** The directive [updateRepoFiles] writes for the server program [jar]. *)
Definition directive (jar : jsstring) : jsstring :=
  lit "COPY " ++ jar ++ lit " /server/minecraft_server.jar".

(** A repository after the extraction, with a server program in the
    scratch directory. *)
Definition extracted_repo : world :=
  World (<[lit "temp_server_files" := Dir [lit "forge-installer.jar"; lit "server.jar"]]>
           (fs sample_repo))
    ∅ [] [].

(** The pattern as the specification writes it, with [\S+] for the source
    of the copy. *)
Definition SPEC_COPY_RE : RegExp.regexp :=
  RegExp.RE true
    [RegExp.Bol; RegExp.Grp [lit "COPY"; lit "ADD"]; RegExp.Plus RegExp.class_s;
     RegExp.Plus RegExp.class_S; RegExp.Lit (lit ".");
     RegExp.Grp [lit "jar"; lit "sh"]; RegExp.Plus RegExp.class_s;
     RegExp.Star RegExp.class_dot; RegExp.Eol].

(** ** Lines of a text *)

(** A text as lines: the first line, then each line terminator with the
    line after it.  A line terminator is one code unit (LF, CR, U+2028 or
    U+2029), as for [^], [$] and [.]: between CR and LF there is an empty
    line. *)
Fixpoint split_lines (s : jsstring) : jsstring * list (N * jsstring) :=
  match s with
  | [] => ([], [])
  | c :: s' =>
      let (line, more) := split_lines s' in
      if RegExp.LineTerminator c then ([], (c, line) :: more) else (c :: line, more)
  end.

Definition lines (s : jsstring) : list jsstring :=
  (split_lines s).1 :: List.map snd (split_lines s).2.

Definition terminators (s : jsstring) : list N :=
  List.map fst (split_lines s).2.

Definition join_lines (line : jsstring) (more : list (N * jsstring)) : jsstring :=
  line ++ concat (List.map (fun tl : N * jsstring => tl.1 :: tl.2) more).

Definition SERVER_VERSION_PREFIX : jsstring := lit "SERVER_VERSION=".

(** The first line that begins with [SERVER_VERSION=] becomes [new]. *)
Fixpoint replace_first_line (new : jsstring) (ls : list jsstring) : list jsstring :=
  match ls with
  | [] => []
  | l :: ls' =>
      if Str.startsWith l SERVER_VERSION_PREFIX then new :: ls'
      else l :: replace_first_line new ls'
  end.

(** The same on a split text. *)
Fixpoint patch_lines (new line : jsstring) (more : list (N * jsstring)) :
    jsstring * list (N * jsstring) :=
  if Str.startsWith line SERVER_VERSION_PREFIX then (new, more)
  else
    match more with
    | [] => (line, [])
    | (t, next) :: more' =>
        let (next', more'') := patch_lines new next more' in
        (line, (t, next') :: more'')
    end.

(** Lines without line terminators, separated by line terminators. *)
Definition well_split (line : jsstring) (more : list (N * jsstring)) : Prop :=
  forallb RegExp.class_dot line = true
  /\ Forall (fun tl : N * jsstring =>
               RegExp.LineTerminator tl.1 = true /\ forallb RegExp.class_dot tl.2 = true) more.

(** The text to the left ends a line. *)
Definition bol (b : jsstring) : bool :=
  match b with
  | [] => true
  | c :: _ => RegExp.LineTerminator c
  end.

(** The result of [replace] with a plain template, from the state the
    search starts in. *)
Definition replaced (re : RegExp.regexp) (b r template : jsstring) : jsstring :=
  match RegExp.search re b r with
  | None => rev b ++ r
  | Some (st0, st1) => rev (RegExp.before st0) ++ template ++ RegExp.rest st1
  end.

(** The callback that tells the lines the pattern can match. *)
Definition begins_with_prefix (l : jsstring) : bool :=
  Str.startsWith l SERVER_VERSION_PREFIX.

(** Patching a launch script with a version and reading it back. *)
Definition patch_and_read (launch version : jsstring) : outcome jsstring :=
  (readFile LAUNCH_SH_PATH
     (updateRepoFiles version
        (with_fs (insert (lit "launch.sh") (File launch)) extracted_repo)).2).1.

(** The number of lines of [s] that are [line]. *)
Definition count_lines (line s : jsstring) : nat :=
  length (List.filter (fun l => bool_decide (l = line)) (lines s)).

(** ** The resolution, the download and the run *)

(** The version label [findLatestServerFile] derives from a file name. *)
Definition version_label (name : jsstring) : jsstring :=
  RegExp.replace ZIP_RE name [].

(** The world after the two lines [findLatestServerFile] starts with: the
    console line and the listing request. *)
Definition after_listing (w : world) : world :=
  World (fs w) (streams w) (console w ++ [LogSearching])
    (requests w ++ [GetModFiles MODPACK_ID]).

(** The world after the second lookup for the file [f] and its console
    line. *)
Definition after_lookup (f : file) (w : world) : world :=
  World (fs w) (streams w)
    ((console w ++ [LogSearching]) ++ [LogFound (displayName f) (serverPackFileId f)])
    ((requests w ++ [GetModFiles MODPACK_ID]) ++ [GetFile MODPACK_ID (serverPackFileId f)]).

(** A computation that leaves the file system at [k] as it is. *)
Definition untouched {A : Type} (k : jsstring) (c : M A) : Prop :=
  forall w, fs (c w).2 !! k = fs w !! k.

(** [k] is neither the path [p] nor the directory [p] lies in. *)
Definition apart (p k : jsstring) : Prop :=
  path_normalize p <> k
  /\ forall b, split_last_slash (path_normalize p) <> Some (k, b).

(** [k] is the path [p], or a path below the directory [p]. *)
Definition below (p k : jsstring) : Prop :=
  k = p \/ exists rest, k = p ++ lit "/" ++ rest.

(** The world after the clean-up of [main]: nothing at or below the scratch
    directory, and the console line of the clean-up. *)
Definition cleanup (w : world) : world :=
  World (filter (fun kv : list N * node => inside (path_normalize TEMP_DIR) kv.1 = false) (fs w))
    (streams w) (console w ++ [LogCleaningUp]) (requests w).

(** No line of [s] begins with one of [prefixes]. *)
Definition no_line_begins (prefixes : list jsstring) (s : jsstring) : bool :=
  forallb (fun l => forallb (fun prefix => negb (Str.startsWith l prefix)) prefixes) (lines s).

(** * Properties *)

(** ** Strings *)

Section StrFacts.

Lemma startsWith_spec (s x : jsstring) :
  Str.startsWith s x = true <-> exists q, s = x ++ q.
Proof.
  revert s. induction x as [|c x IH]; intros s; simpl.
  - split; [intros _; exists s; reflexivity | destruct s; reflexivity].
  - destruct s as [|d s].
    + split; [discriminate | intros [q Hq]; discriminate].
    + simpl. rewrite andb_true_iff, N.eqb_eq, IH. split.
      * intros [-> [q ->]]. exists q. reflexivity.
      * intros [q Hq]. injection Hq as -> ->. split; [reflexivity | exists q; reflexivity].
Qed.

Lemma startsWith_app (x q : jsstring) : Str.startsWith (x ++ q) x = true.
Proof. apply startsWith_spec. exists q. reflexivity. Qed.

Lemma endsWith_spec (s x : jsstring) :
  Str.endsWith s x = true <-> exists p, s = p ++ x.
Proof.
  unfold Str.endsWith. destruct (Nat.leb_spec (length x) (length s)) as [Hle|Hlt].
  - rewrite bool_decide_eq_true. split.
    + intros H. exists (take (length s - length x) s).
      pose proof (take_drop (length s - length x) s) as E.
      rewrite H in E. symmetry. exact E.
    + intros [p ->]. rewrite length_app.
      replace (length p + length x - length x)%nat with (length p) by lia.
      apply drop_app_length.
  - split; [discriminate|]. intros [p ->]. rewrite length_app in Hlt. lia.
Qed.

Lemma includes_spec (s x : jsstring) :
  Str.includes s x = true <-> exists p q, s = p ++ x ++ q.
Proof.
  induction s as [|c s IH]; cbn [Str.includes].
  - rewrite orb_false_r, startsWith_spec. split.
    + intros [q Hq]. exists [], q. exact Hq.
    + intros [p [q Hq]]. destruct p; [exists q; exact Hq | discriminate].
  - rewrite orb_true_iff, startsWith_spec, IH. split.
    + intros [[q Hq] | [p [q Hq]]].
      * exists [], q. exact Hq.
      * exists (c :: p), q. simpl. rewrite Hq. reflexivity.
    + intros [p [q Hq]]. destruct p as [|d p]; simpl in Hq.
      * left. exists q. exact Hq.
      * right. injection Hq as _ ->. exists p, q. reflexivity.
Qed.

End StrFacts.

(** ** [Array.prototype.find] *)

Lemma find_first {A : Type} (p : A -> bool) (l : list A) :
  match List.find p l with
  | Some x => exists l1 l2, l = l1 ++ x :: l2 /\ p x = true /\ forall y, In y l1 -> p y = false
  | None => forall y, In y l -> p y = false
  end.
Proof.
  induction l as [|a l IH]; simpl.
  - intros y [].
  - destruct (p a) eqn:Ha.
    + exists [], l. repeat split; [exact Ha | intros y []].
    + destruct (List.find p l) as [x|].
      * destruct IH as (l1 & l2 & -> & Hx & Hl1).
        exists (a :: l1), l2. repeat split; [exact Hx|].
        intros y [<-|Hy]; [exact Ha | exact (Hl1 y Hy)].
      * intros y [<-|Hy]; [exact Ha | exact (IH y Hy)].
Qed.

(** ** The server program in the scratch directory *)

Lemma is_server_jar_spec (name : jsstring) :
  is_server_jar name = true <-> server_program name.
Proof.
  unfold is_server_jar, server_program, ends_with, contains.
  rewrite !andb_true_iff, !negb_true_iff, endsWith_spec.
  rewrite <- !not_true_iff_false, !includes_spec. tauto.
Qed.

Lemma is_server_jar_false (name : jsstring) :
  is_server_jar name = false <-> ~ server_program name.
Proof. rewrite <- is_server_jar_spec. symmetry. apply not_true_iff_false. Qed.

Lemma is_server_jar_truthy (name : jsstring) :
  is_server_jar name = true -> Str.truthy name = true.
Proof.
  destruct name; [|reflexivity]. vm_compute. discriminate.
Qed.

(** How [findServerJarInTempDir] runs: it returns, and only the console may
    have changed. *)
Lemma findServerJarInTempDir_run (w : world) :
  exists w',
    findServerJarInTempDir w = (Normal (located_jar w), w')
    /\ fs w' = fs w /\ streams w' = streams w /\ requests w' = requests w.
Proof.
  unfold findServerJarInTempDir, try_catch, bind, readdir, located_jar, temp_listing.
  destruct (fs w !! path_normalize TEMP_DIR) as [[content|files]|]; simpl;
    eexists; repeat split.
Qed.

Lemma located_jar_truthy (w : world) (jar : jsstring) :
  located_jar w = Some jar -> Str.truthy jar = true.
Proof.
  unfold located_jar, or_null. destruct (temp_listing w) as [files|]; [|discriminate].
  destruct (List.find is_server_jar files) as [name|]; [|discriminate].
  destruct (Str.truthy name) eqn:Hname; [|discriminate].
  intros [= <-]. exact Hname.
Qed.

(** C9.  [findServerJarInTempDir] returns in every world, and never throws:
    when the directory cannot be read it returns [null]; when it can, it
    returns the first name of the listing that ends with [.jar] and
    contains neither [installer] nor [client], and [null] when the listing
    has no such name.  Only the console changes. *)
Theorem findServerJarInTempDir_total (w : world) :
  exists r w',
    findServerJarInTempDir w = (Normal r, w')
    /\ fs w' = fs w /\ streams w' = streams w /\ requests w' = requests w
    /\ match temp_listing w with
       | None => r = None
       | Some files =>
           (r = None /\ forall name, In name files -> ~ server_program name)
           \/ (exists l1 name l2,
                 files = l1 ++ name :: l2 /\ r = Some name /\ server_program name
                 /\ forall other, In other l1 -> ~ server_program other)
       end.
Proof.
  destruct (findServerJarInTempDir_run w) as (w' & Hrun & Hfs & Hstreams & Hrequests).
  exists (located_jar w), w'. repeat (split; [assumption|]).
  unfold located_jar. destruct (temp_listing w) as [files|]; [|reflexivity].
  pose proof (find_first is_server_jar files) as Hfind.
  destruct (List.find is_server_jar files) as [name|]; cbn [or_null].
  - destruct Hfind as (l1 & l2 & -> & Hname & Hl1).
    rewrite (is_server_jar_truthy _ Hname). right.
    exists l1, name, l2. split; [reflexivity|]. split; [reflexivity|].
    split; [apply is_server_jar_spec, Hname|].
    intros other Hother. apply is_server_jar_false, Hl1, Hother.
  - left. split; [reflexivity|].
    intros name Hname. apply is_server_jar_false, Hfind, Hname.
Qed.

(** ** The candidate filter *)

Lemma is_candidate_spec (f : file) : is_candidate f = true <-> eligible f.
Proof.
  unfold is_candidate, eligible, array_includes.
  destruct (gameVersion f) as [tags|].
  - rewrite andb_true_iff, bool_decide_eq_true, list_elem_of_In. split.
    + intros [Hid Htag]. split; [exact Hid | exists tags; split; [reflexivity | exact Htag]].
    + intros [Hid (tags' & Heq & Htag)]. injection Heq as <-. split; assumption.
  - split; [discriminate | intros [_ (tags & Heq & _)]; discriminate].
Qed.

(** C1.  The candidate filter keeps exactly the entries of the listing with
    a truthy [serverPackFileId] and version tags that contain the target
    version, in the order of the listing.  So an entry whose tags do not
    contain the target version is excluded, an entry whose
    [serverPackFileId] is missing or falsy is excluded, and an entry without
    version tags is excluded: the callback returns [false] for it. *)
Theorem candidate_filter_sound (files : list file) :
  (forall f, In f (List.filter is_candidate files) <-> In f files /\ eligible f)
  /\ (forall f tags, In f files -> gameVersion f = Some tags ->
        ~ In MINECRAFT_VERSION tags -> ~ In f (List.filter is_candidate files))
  /\ (forall f, In f files -> truthy_id (serverPackFileId f) = false ->
        ~ In f (List.filter is_candidate files))
  /\ (forall f, In f files -> gameVersion f = None ->
        is_candidate f = false /\ ~ In f (List.filter is_candidate files))
  /\ sublist (List.filter is_candidate files) files.
Proof.
  assert (Hiff : forall f, In f (List.filter is_candidate files) <-> In f files /\ eligible f).
  { intros f. rewrite filter_In, is_candidate_spec. reflexivity. }
  split; [exact Hiff|]. split; [|split; [|split]].
  - intros f tags _ Htags Hnot Hin. apply Hiff in Hin as [_ [_ (tags' & Heq & Htag)]].
    rewrite Htags in Heq. injection Heq as <-. exact (Hnot Htag).
  - intros f _ Hid Hin. apply Hiff in Hin as [_ [Hid' _]]. congruence.
  - intros f _ Hnone. split.
    + unfold is_candidate. rewrite Hnone. reflexivity.
    + intros Hin. apply Hiff in Hin as [_ [_ (tags & Heq & _)]]. congruence.
  - clear Hiff. induction files as [|f files IH]; simpl; [constructor|].
    destruct (is_candidate f); [apply sublist_skip | apply sublist_cons]; exact IH.
Qed.

(** ** The sort

    For a comparator [key b - key a] the model of [sort] returns a
    permutation in descending order of [key] that keeps entries of equal
    key in their order, which is what [Array.prototype.sort] promises. *)

Section SortFacts.
Context {A : Type} (key : A -> Z).

Lemma sort_cons (x : A) (l : list A) :
  Arr.sort (descending key) (x :: l) = Arr.insert (descending key) x (Arr.sort (descending key) l).
Proof. reflexivity. Qed.

Lemma insert_Permutation (x : A) (l : list A) :
  Permutation (x :: l) (Arr.insert (descending key) x l).
Proof.
  induction l as [|y l IH]; simpl; [reflexivity|].
  destruct (0 <? descending key x y)%Z; [|reflexivity].
  rewrite <- IH. apply perm_swap.
Qed.

Lemma sort_Permutation (l : list A) : Permutation l (Arr.sort (descending key) l).
Proof.
  induction l as [|x l IH]; simpl; [reflexivity|].
  rewrite <- insert_Permutation. constructor. exact IH.
Qed.

Lemma insert_sorted (x : A) (l : list A) :
  StronglySorted (fun a b => (key b <= key a)%Z) l ->
  StronglySorted (fun a b => (key b <= key a)%Z) (Arr.insert (descending key) x l).
Proof.
  induction 1 as [|y l Hl IH Hy]; simpl.
  - constructor; constructor.
  - unfold descending at 1. destruct (Z.ltb_spec 0 (key y - key x)) as [Hlt|Hge].
    + constructor; [exact IH|].
      rewrite List.Forall_forall. intros z Hz.
      apply (Permutation_in _ (Permutation_sym (insert_Permutation x l))) in Hz.
      destruct Hz as [<-|Hz]; [lia|].
      rewrite List.Forall_forall in Hy. apply Hy, Hz.
    + constructor; [constructor; assumption|].
      constructor; [lia|].
      rewrite List.Forall_forall in Hy |- *. intros z Hz. specialize (Hy z Hz). lia.
Qed.

Lemma sort_sorted (l : list A) :
  StronglySorted (fun a b => (key b <= key a)%Z) (Arr.sort (descending key) l).
Proof.
  induction l as [|x l IH]; simpl; [constructor|].
  apply insert_sorted, IH.
Qed.

Lemma insert_stable (k : Z) (x : A) (l : list A) :
  List.filter (fun y => (key y =? k)%Z) (Arr.insert (descending key) x l)
  = List.filter (fun y => (key y =? k)%Z) (x :: l).
Proof.
  induction l as [|y l IH]; [reflexivity|].
  cbn [Arr.insert]. unfold descending at 1.
  destruct (Z.ltb_spec 0 (key y - key x)) as [Hlt|Hge]; [|reflexivity].
  cbn [List.filter] in IH |- *. rewrite IH.
  destruct (Z.eqb_spec (key x) k) as [Hx|Hx]; [|reflexivity].
  destruct (Z.eqb_spec (key y) k) as [Hy|Hy]; [lia | reflexivity].
Qed.

Lemma sort_stable (k : Z) (l : list A) :
  List.filter (fun y => (key y =? k)%Z) (Arr.sort (descending key) l)
  = List.filter (fun y => (key y =? k)%Z) l.
Proof.
  induction l as [|x l IH]; [reflexivity|].
  rewrite sort_cons, insert_stable.
  cbn [List.filter]. rewrite IH. reflexivity.
Qed.

(** Two lists in descending order with the same entries of each key, in
    the same order, are equal: a stable sort has one result, whatever the
    algorithm. *)
Lemma sorted_stable_unique (l1 l2 : list A) :
  StronglySorted (fun a b => (key b <= key a)%Z) l1 ->
  StronglySorted (fun a b => (key b <= key a)%Z) l2 ->
  (forall k, List.filter (fun y => (key y =? k)%Z) l1
             = List.filter (fun y => (key y =? k)%Z) l2) ->
  l1 = l2.
Proof.
  intros H1. revert l2. induction H1 as [|x l1 Hl1 IH Hx]; intros l2 H2 Hsame.
  - destruct l2 as [|y l2]; [reflexivity|].
    specialize (Hsame (key y)). cbn [List.filter] in Hsame.
    rewrite Z.eqb_refl in Hsame. discriminate.
  - destruct H2 as [|y l2 Hl2 Hy].
    { specialize (Hsame (key x)). cbn [List.filter] in Hsame.
      rewrite Z.eqb_refl in Hsame. discriminate. }
    assert (Hxy : key x = key y).
    { apply Z.le_antisymm.
      - pose proof (Hsame (key x)) as Hk. cbn [List.filter] in Hk.
        rewrite Z.eqb_refl in Hk.
        destruct (Z.eqb_spec (key y) (key x)) as [Heq|Hne]; [lia|].
        assert (Hin : In x (List.filter (fun y0 => (key y0 =? key x)%Z) l2))
          by (rewrite <- Hk; left; reflexivity).
        apply filter_In in Hin as [Hin _].
        rewrite List.Forall_forall in Hy. exact (Hy x Hin).
      - pose proof (Hsame (key y)) as Hk. cbn [List.filter] in Hk.
        rewrite Z.eqb_refl in Hk.
        destruct (Z.eqb_spec (key x) (key y)) as [Heq|Hne]; [lia|].
        assert (Hin : In y (List.filter (fun y0 => (key y0 =? key y)%Z) l1))
          by (rewrite Hk; left; reflexivity).
        apply filter_In in Hin as [Hin _].
        rewrite List.Forall_forall in Hx. exact (Hx y Hin). }
    pose proof (Hsame (key x)) as Hk. cbn [List.filter] in Hk.
    rewrite <- Hxy, Z.eqb_refl in Hk. injection Hk as <- Hk.
    f_equal. apply IH; [exact Hl2|]. intros k.
    specialize (Hsame k). cbn [List.filter] in Hsame.
    destruct (key x =? k)%Z; [injection Hsame as Hsame|]; exact Hsame.
Qed.

(** So the model gives the result of every stable descending sort. *)
Lemma sort_is_the_stable_sort (l l' : list A) :
  StronglySorted (fun a b => (key b <= key a)%Z) l' ->
  (forall k, List.filter (fun y => (key y =? k)%Z) l'
             = List.filter (fun y => (key y =? k)%Z) l) ->
  l' = Arr.sort (descending key) l.
Proof.
  intros Hsorted Hstable. apply sorted_stable_unique; [exact Hsorted | apply sort_sorted|].
  intros k. rewrite sort_stable. apply Hstable.
Qed.

(** The first element after the sort is the first of the entries of
    greatest key. *)
Lemma sort_first (l : list A) :
  l <> [] ->
  exists l1 x l2,
    l = l1 ++ x :: l2
    /\ Arr.first (Arr.sort (descending key) l) = Some x
    /\ (forall y, In y l1 -> (key y < key x)%Z)
    /\ (forall y, In y l2 -> (key y <= key x)%Z).
Proof.
  induction l as [|a l IH]; [congruence|]. intros _.
  destruct l as [|b l].
  - exists [], a, []. split; [reflexivity|]. split; [reflexivity|].
    split; intros y [].
  - destruct IH as (l1 & x & l2 & Heq & Hfirst & Hl1 & Hl2); [discriminate|].
    rewrite sort_cons.
    destruct (Arr.sort (descending key) (b :: l)) as [|x' s'] eqn:Hs; [discriminate|].
    injection Hfirst as ->. cbn [Arr.insert]. unfold descending at 1.
    destruct (Z.ltb_spec 0 (key x - key a)) as [Hlt|Hge].
    + exists (a :: l1), x, l2. rewrite Heq.
      split; [reflexivity|]. split; [reflexivity|]. split.
      * intros y [<-|Hy]; [lia | apply Hl1, Hy].
      * exact Hl2.
    + exists [], a, (b :: l).
      split; [reflexivity|]. split; [reflexivity|]. split; [intros y []|].
      intros y Hy. rewrite Heq in Hy. apply in_app_or in Hy.
      destruct Hy as [Hy|[<-|Hy]].
      * specialize (Hl1 y Hy). lia.
      * lia.
      * specialize (Hl2 y Hy). lia.
Qed.

End SortFacts.

Lemma filter_split {A : Type} (p : A -> bool) (l l1 l2 : list A) (x : A) :
  List.filter p l = l1 ++ x :: l2 ->
  exists p1 p2,
    l = p1 ++ x :: p2 /\ List.filter p p1 = l1 /\ List.filter p p2 = l2 /\ p x = true.
Proof.
  revert l1. induction l as [|a l IH]; intros l1 H; simpl in H.
  - destruct l1; discriminate.
  - destruct (p a) eqn:Ha.
    + destruct l1 as [|b l1]; simpl in H.
      * injection H as -> Hl. exists [], l. repeat split; assumption.
      * injection H as -> Hl. destruct (IH _ Hl) as (p1 & p2 & -> & H1 & H2 & Hx).
        exists (b :: p1), p2. simpl. rewrite Ha, H1. repeat split; assumption.
    + destruct (IH _ H) as (p1 & p2 & -> & H1 & H2 & Hx).
      exists (a :: p1), p2. simpl. rewrite Ha. repeat split; assumption.
Qed.

(** C2.  When the listing has an eligible entry, the selection returns an
    eligible entry of the greatest release time, and among the eligible
    entries of that release time the one that comes first in the listing:
    every eligible entry before it in the listing is strictly older, every
    eligible entry after it is not newer. *)
Theorem select_server_file_latest (files : list file) :
  List.filter is_candidate files <> [] ->
  exists p1 f p2,
    files = p1 ++ f :: p2
    /\ select_server_file files = Some f
    /\ eligible f
    /\ (forall g, In g p1 -> eligible g -> (fileDate g < fileDate f)%Z)
    /\ (forall g, In g p2 -> eligible g -> (fileDate g <= fileDate f)%Z).
Proof.
  intros Hne.
  destruct (sort_first fileDate _ Hne) as (l1 & f & l2 & Heq & Hfirst & Hl1 & Hl2).
  destruct (filter_split _ _ _ _ _ Heq) as (p1 & p2 & -> & H1 & H2 & Hf).
  exists p1, f, p2. split; [reflexivity|]. split; [exact Hfirst|].
  split; [apply is_candidate_spec, Hf|]. split.
  - intros g Hg Hel. apply Hl1. rewrite <- H1. apply filter_In.
    split; [exact Hg | apply is_candidate_spec, Hel].
  - intros g Hg Hel. apply Hl2. rewrite <- H2. apply filter_In.
    split; [exact Hg | apply is_candidate_spec, Hel].
Qed.

Lemma select_server_file_latest_witness :
  exists p1 f p2,
    sample_listing = p1 ++ f :: p2
    /\ select_server_file sample_listing = Some f
    /\ eligible f
    /\ (forall g, In g p1 -> eligible g -> (fileDate g < fileDate f)%Z)
    /\ (forall g, In g p2 -> eligible g -> (fileDate g <= fileDate f)%Z).
Proof.
  apply (select_server_file_latest sample_listing). vm_compute. discriminate.
Defined.

Example select_server_file_sample :
  option_map displayName (select_server_file sample_listing) = Some (lit "c").
Proof. reflexivity. Qed.

(** ** Failures of the resolution *)

(** C3.  When the [data] of the listing response is not an array,
    [findLatestServerFile] throws the error of the array check; when it is an
    array of which no entry passes the filter, it throws the error of the
    empty selection.  In both cases nothing is returned, and the listing
    request is the only request made: the file record is not looked up. *)
Theorem findLatestServerFile_fails (e : env) (w : world) (d : data) (err : error) :
  getModFiles e MODPACK_ID = Resolved d ->
  resolution_failure d err ->
  findLatestServerFile e w
  = (Throw err,
     World (fs w) (streams w) (console w ++ [LogSearching])
       (requests w ++ [GetModFiles MODPACK_ID])).
Proof.
  intros Hd Hfail. unfold findLatestServerFile, bind, console_emit, request_emit.
  simpl. rewrite Hd. simpl.
  destruct Hfail as [typeof | files Hnone]; [reflexivity|].
  unfold select_server_file. rewrite Hnone. reflexivity.
Qed.

Lemma findLatestServerFile_fails_witness :
  findLatestServerFile
    (sample_env (Resolved (DataOther (lit "undefined"))) (sample_response true None))
    empty_world
  = (Throw (UpstreamResponseError (lit "undefined")),
     World ∅ ∅ [LogSearching] [GetModFiles MODPACK_ID])
  /\ findLatestServerFile
       (sample_env (Resolved (DataArray (take 2 sample_listing))) (sample_response true None))
       empty_world
     = (Throw NoMatchingReleaseError,
        World ∅ ∅ [LogSearching] [GetModFiles MODPACK_ID]).
Proof.
  split.
  - apply (findLatestServerFile_fails _ empty_world (DataOther (lit "undefined"))).
    + reflexivity.
    + constructor.
  - apply (findLatestServerFile_fails _ empty_world (DataArray (take 2 sample_listing))).
    + reflexivity.
    + constructor. reflexivity.
Defined.

(** ** The download *)

(** C7.  When the response is not [ok], [downloadFile] throws the error of
    the status check, and the file system and the streams are as they were:
    no file is created or changed at the destination, no stream is
    opened.  The console line and the request are the only traces. *)
Theorem downloadFile_not_ok (e : env) (url dest : jsstring) (w : world) (resp : response) :
  fetch e url = Resolved resp ->
  ok resp = false ->
  downloadFile e url dest w
  = (Throw (DownloadError (statusText resp)),
     World (fs w) (streams w) (console w ++ [LogDownloading url])
       (requests w ++ [Fetch url])).
Proof.
  intros Hfetch Hok. unfold downloadFile, bind, console_emit, request_emit.
  simpl. rewrite Hfetch. simpl. rewrite Hok. reflexivity.
Qed.

Lemma downloadFile_not_ok_witness :
  downloadFile (sample_env (Resolved (DataArray sample_listing)) (sample_response false None))
    (lit "https://cdn.example/server.zip") (lit "temp_server_files/server-files.zip")
    empty_world
  = (Throw (DownloadError (lit "status")),
     World ∅ ∅ [LogDownloading (lit "https://cdn.example/server.zip")]
       [Fetch (lit "https://cdn.example/server.zip")]).
Proof.
  apply (downloadFile_not_ok _ _ _ empty_world
           (Response false (lit "status") (Body [lit "PK"; lit "data"] None))).
  - reflexivity.
  - reflexivity.
Defined.

(** *** Files and their directory listings *)

Lemma split_last_slash_length (p d b : jsstring) :
  split_last_slash p = Some (d, b) -> length p = (length d + 1 + length b)%nat.
Proof.
  revert d b. induction p as [|c p IH]; intros d b; simpl; [discriminate|].
  destruct (split_last_slash p) as [[d' b']|].
  - intros [= <- <-]. simpl. rewrite (IH d' b' eq_refl). lia.
  - destruct (c =? 47); [|discriminate]. intros [= <- <-]. simpl. lia.
Qed.

(** [link] touches the listing of the parent directory, and nothing else. *)
Lemma link_lookup_other (p k : jsstring) (m : gmap (list N) node) :
  (forall b, split_last_slash p <> Some (k, b)) -> link p m !! k = m !! k.
Proof.
  intros Hk. unfold link.
  destruct (split_last_slash p) as [[d b]|] eqn:Hsplit; [|reflexivity].
  destruct (m !! d) as [[content|es]|]; try reflexivity.
  destruct (bool_decide (b ∈ es)); [reflexivity|].
  apply lookup_insert_ne. intros ->. exact (Hk b eq_refl).
Qed.

Lemma link_lookup_self (p : jsstring) (m : gmap (list N) node) :
  link p m !! p = m !! p.
Proof.
  apply link_lookup_other. intros b Hsplit.
  apply split_last_slash_length in Hsplit. lia.
Qed.

(** [link] removes nothing, and keeps files files and directories
    directories. *)
Lemma link_lookup_kind (p k : jsstring) (m : gmap (list N) node) :
  match m !! k with
  | Some (File content) => link p m !! k = Some (File content)
  | Some (Dir _) => exists es, link p m !! k = Some (Dir es)
  | None => link p m !! k = None
  end.
Proof.
  unfold link.
  destruct (split_last_slash p) as [[d b]|] eqn:Hsplit;
    [|destruct (m !! k) as [[content|es]|]; eauto].
  destruct (m !! d) as [[content|es]|] eqn:Hd;
    try (destruct (m !! k) as [[content'|es']|]; eauto; fail).
  destruct (bool_decide (b ∈ es));
    [destruct (m !! k) as [[content'|es']|]; eauto|].
  destruct (decide (d = k)) as [->|Hne].
  - rewrite Hd, lookup_insert_eq. eauto.
  - rewrite lookup_insert_ne by exact Hne.
    destruct (m !! k) as [[content'|es']|]; eauto.
Qed.

(** *** The pipe *)

Lemma write_chunks_run (dest : jsstring) (cs : list jsstring) (w : world) (content : jsstring) :
  fs w !! path_normalize dest = Some (File content) ->
  exists w',
    write_chunks dest cs w = (Normal tt, w')
    /\ fs w' !! path_normalize dest = Some (File (content ++ concat cs))
    /\ streams w' = streams w /\ console w' = console w /\ requests w' = requests w.
Proof.
  revert w content. induction cs as [|chunk cs IH]; intros w content Hfile.
  - exists w. rewrite app_nil_r. repeat split. exact Hfile.
  - cbn [write_chunks foldr]. fold (write_chunks dest cs).
    unfold bind at 1. unfold stream_write at 1.
    destruct (IH (with_fs (fun m =>
                match m !! path_normalize dest with
                | Some (File content0) =>
                    <[path_normalize dest := File (content0 ++ chunk)]> m
                | _ => m
                end) w) (content ++ chunk)) as (w' & Hrun & Hfs & Hst & Hco & Hrq).
    { simpl. rewrite Hfile. apply lookup_insert_eq. }
    exists w'. rewrite Hrun. split; [reflexivity|].
    rewrite Hfs, Hst, Hco, Hrq. simpl. rewrite <- app_assoc. repeat split.
Qed.

(** C8, as the script has it.  The response is [ok] and the file at the
    destination can be opened.  The file then holds the chunks the body
    delivered.  When the body ends, [downloadFile] returns once the write
    stream has finished: [end()] was called by the pipe and the data is
    flushed, and the stream has not closed its descriptor yet.  When the
    body emits an error, [downloadFile] throws that error and the write
    stream is open: nothing ends or closes it. *)
Theorem downloadFile_ok (e : env) (url dest : jsstring) (w : world) (resp : response) :
  fetch e url = Resolved resp ->
  ok resp = true ->
  open_error (path_normalize dest) (fs w) = None ->
  exists w',
    downloadFile e url dest w = (download_outcome (body resp), w')
    /\ fs w' !! path_normalize dest = Some (File (concat (chunks (body resp))))
    /\ streams w' !! path_normalize dest = Some (stream_after (body resp)).
Proof.
  intros Hfetch Hok Hopen. unfold downloadFile.
  unfold bind at 1. unfold console_emit at 1.
  unfold bind at 1. unfold request_emit at 1.
  unfold bind at 1. rewrite Hfetch. unfold await, ret at 1. rewrite Hok.
  cbn [negb]. unfold bind at 1. unfold createWriteStream at 1.
  cbn [fs]. rewrite Hopen.
  set (w1 := with_streams _ _).
  assert (Hfile : fs w1 !! path_normalize dest = Some (File [])).
  { subst w1. simpl. rewrite link_lookup_self. apply lookup_insert_eq. }
  assert (Hstream : streams w1 !! path_normalize dest = Some Open).
  { subst w1. simpl. apply lookup_insert_eq. }
  unfold pipe_until_settled, download_outcome, stream_after.
  destruct (write_chunks_run dest (chunks (body resp)) w1 [] Hfile)
    as (w2 & Hrun & Hfs & Hst & _ & _).
  unfold bind at 1. unfold bind at 1. rewrite Hrun.
  destruct (failure (body resp)) as [reason|].
  - exists w2. unfold throw. rewrite Hfs, Hst, Hstream. repeat split.
  - eexists. unfold stream_end, bind, console_emit, ret. simpl.
    split; [reflexivity|]. simpl. rewrite Hfs, lookup_insert_eq. repeat split.
Qed.

Lemma downloadFile_ok_witness :
  exists w',
    downloadFile
      (sample_env (Resolved (DataArray sample_listing))
         (sample_response true (Some (lit "ECONNRESET"))))
      (lit "https://cdn.example/server.zip") (path_join TEMP_DIR SERVER_FILE_NAME)
      prepared_repo
    = (Throw (Rejected (lit "ECONNRESET")), w')
    /\ fs w' !! lit "temp_server_files/server-files.zip" = Some (File (lit "PKdata"))
    /\ streams w' !! lit "temp_server_files/server-files.zip" = Some Open.
Proof.
  apply (downloadFile_ok
           (sample_env (Resolved (DataArray sample_listing))
              (sample_response true (Some (lit "ECONNRESET"))))
           (lit "https://cdn.example/server.zip")
           (path_join TEMP_DIR SERVER_FILE_NAME) prepared_repo
           (Response true (lit "status")
              (Body [lit "PK"; lit "data"] (Some (lit "ECONNRESET"))))).
  - reflexivity.
  - reflexivity.
  - vm_compute. reflexivity.
Defined.

(** The specification asks for a stream that is flushed and closed on
    every path that opened it, before [downloadFile] returns or fails.  Both
    runs below start once [main] has made the scratch directory.  With a
    body that ends after two chunks, [downloadFile] returns while the stream
    has finished and is not closed.  With a body that fails after two
    chunks, [downloadFile] throws while the stream is open, neither
    finished nor closed, and the file holds the two chunks. *)
Lemma downloadFile_leaves_stream_open :
  let dest := path_join TEMP_DIR SERVER_FILE_NAME in
  let run (failure : option jsstring) :=
    downloadFile
      (sample_env (Resolved (DataArray sample_listing)) (sample_response true failure))
      (lit "https://cdn.example/server.zip") dest prepared_repo in
  open_error (path_normalize dest) (fs prepared_repo) = None
  /\ ((run None).1 = Normal tt
      /\ streams (run None).2 !! path_normalize dest = Some Finished
      /\ streams (run None).2 !! path_normalize dest <> Some Closed)
  /\ ((run (Some (lit "ECONNRESET"))).1 = Throw (Rejected (lit "ECONNRESET"))
      /\ streams (run (Some (lit "ECONNRESET"))).2 !! path_normalize dest = Some Open
      /\ streams (run (Some (lit "ECONNRESET"))).2 !! path_normalize dest <> Some Finished
      /\ streams (run (Some (lit "ECONNRESET"))).2 !! path_normalize dest <> Some Closed
      /\ fs (run (Some (lit "ECONNRESET"))).2 !! path_normalize dest
         = Some (File (lit "PKdata"))).
Proof. vm_compute. repeat split; discriminate. Qed.

(** The stream is closed at the return of a promise that is resolved on
    ['close'] and not on ['finish']. *)
Example pipe_resolved_on_close :
  let dest := path_join TEMP_DIR SERVER_FILE_NAME in
  let piped (event : stream_event) :=
    (createWriteStream dest ;;;
     pipe_until_settled (Body [lit "PK"; lit "data"] None) dest event) prepared_repo in
  streams (piped OnClose).2 !! path_normalize dest = Some Closed
  /\ streams (piped OnFinish).2 !! path_normalize dest = Some Finished
  /\ fs (piped OnClose).2 = fs (piped OnFinish).2.
Proof. vm_compute. repeat split. Qed.

(** ** The build file *)

Lemma writeFile_lookup_other (p content k : jsstring) (w : world) :
  path_normalize p <> k ->
  (forall b, split_last_slash (path_normalize p) <> Some (k, b)) ->
  fs (writeFile p content w).2 !! k = fs w !! k.
Proof.
  intros Hne Hparent. unfold writeFile.
  destruct (fs w !! path_normalize p) as [[c|es]|]; simpl; try reflexivity.
  - rewrite link_lookup_other by exact Hparent. apply lookup_insert_ne, Hne.
  - rewrite link_lookup_other by exact Hparent. apply lookup_insert_ne, Hne.
Qed.

Lemma writeFile_launch_keeps_Dockerfile (content : jsstring) (w : world) :
  fs (writeFile LAUNCH_SH_PATH content w).2 !! path_normalize DOCKERFILE_PATH
  = fs w !! path_normalize DOCKERFILE_PATH.
Proof.
  apply writeFile_lookup_other.
  - vm_compute. discriminate.
  - intros b. vm_compute. discriminate.
Qed.

Lemma writeFile_run (p content : jsstring) (w : world) (old : jsstring) :
  fs w !! path_normalize p = Some (File old) ->
  (writeFile p content w).1 = Normal tt
  /\ console (writeFile p content w).2 = console w.
Proof. intros H. unfold writeFile. rewrite H. split; reflexivity. Qed.

(** C5.  When no server program was located in the scratch directory, and
    likewise when there is no build file, [updateRepoFiles] leaves the build
    file as it was: the same content, or still absent.  That skip is not a
    failure: with a readable launch script [updateRepoFiles] returns, and the
    console has the warning of the skip. *)
Theorem updateRepoFiles_skips_build_file (version : jsstring) (w : world) :
  (findServerJarInTempDir w).1 = Normal None
  \/ fs w !! path_normalize DOCKERFILE_PATH = None ->
  fs (updateRepoFiles version w).2 !! path_normalize DOCKERFILE_PATH
  = fs w !! path_normalize DOCKERFILE_PATH
  /\ (forall launch,
        fs w !! path_normalize LAUNCH_SH_PATH = Some (File launch) ->
        (updateRepoFiles version w).1 = Normal tt
        /\ (In WarnNoServerJar (console (updateRepoFiles version w).2)
            \/ In WarnNoDockerfile (console (updateRepoFiles version w).2))).
Proof.
  intros Hskip.
  destruct (findServerJarInTempDir_run w) as (w1 & Hjar & Hfs1 & _ & _).
  set (jar := located_jar w) in Hjar.
  rewrite Hjar in Hskip. cbn [fst] in Hskip.
  destruct (updateRepoFiles version w) as [o wf] eqn:Hrun. cbn [fst snd].
  unfold updateRepoFiles in Hrun. unfold bind at 1 in Hrun. rewrite Hjar in Hrun.
  set (warn := if negb (truthy_opt jar) then console_emit WarnNoServerJar else ret tt) in Hrun.
  assert (Hwarn : exists w2, warn w1 = (Normal tt, w2) /\ fs w2 = fs w1
                   /\ (truthy_opt jar = false -> In WarnNoServerJar (console w2))).
  { subst warn. destruct (truthy_opt jar); simpl.
    - exists w1. repeat split. discriminate.
    - eexists. split; [reflexivity|]. split; [reflexivity|].
      intros _. simpl. apply in_or_app. right. left. reflexivity. }
  destruct Hwarn as (w2 & Hw2 & Hfs2 & Hcon2).
  unfold bind at 1 in Hrun. rewrite Hw2 in Hrun.
  unfold bind at 1 in Hrun. unfold console_emit at 1 in Hrun.
  set (w3 := World (fs w2) (streams w2) (console w2 ++ [LogUpdatingLaunch version])
               (requests w2)) in Hrun.
  unfold bind at 1 in Hrun. unfold readFile at 1 in Hrun.
  assert (Hfs3 : fs w3 = fs w) by (subst w3; simpl; congruence).
  rewrite Hfs3 in Hrun.
  destruct (fs w !! path_normalize LAUNCH_SH_PATH) as [[launch|es]|] eqn:Hlaunch.
  2: { injection Hrun as <- <-. split; [simpl; congruence | discriminate]. }
  2: { injection Hrun as <- <-. split; [simpl; congruence | discriminate]. }
  unfold bind at 1 in Hrun.
  set (new := RegExp.replace SERVER_VERSION_RE launch (lit "SERVER_VERSION=" ++ version)) in Hrun.
  pose proof (writeFile_launch_keeps_Dockerfile new w3) as Hkeep.
  destruct (writeFile_run LAUNCH_SH_PATH new w3 launch) as [Hok Hcon4].
  { rewrite Hfs3. exact Hlaunch. }
  destruct (writeFile LAUNCH_SH_PATH new w3) as [o4 w4]. cbn [fst snd] in *.
  subst o4. rewrite Hfs3 in Hkeep.
  assert (Hin4 : truthy_opt jar = false -> In WarnNoServerJar (console w4)).
  { intros Hf. rewrite Hcon4. subst w3. simpl. apply in_or_app. left. exact (Hcon2 Hf). }
  destruct (truthy_opt jar) eqn:Htruthy.
  - destruct Hskip as [Hnone | Habsent].
    { injection Hnone as ->. discriminate. }
    unfold bind at 1 in Hrun. unfold existsSync at 1 in Hrun.
    rewrite Hkeep, Habsent in Hrun.
    rewrite bool_decide_eq_false_2 in Hrun by (intros [x Hx]; discriminate).
    unfold console_emit in Hrun. injection Hrun as <- <-. cbn [fs console].
    rewrite Hkeep, Habsent.
    split; [reflexivity|]. intros launch' _. split; [reflexivity|].
    right. apply in_or_app. right. left. reflexivity.
  - unfold ret in Hrun. injection Hrun as <- <-. split; [exact Hkeep|].
    intros launch' _. split; [reflexivity|]. left. exact (Hin4 eq_refl).
Qed.

Lemma updateRepoFiles_skips_build_file_witness :
  fs (updateRepoFiles (lit "2.0") repo_without_build_file).2 !! path_normalize DOCKERFILE_PATH
  = fs repo_without_build_file !! path_normalize DOCKERFILE_PATH
  /\ (forall launch,
        fs repo_without_build_file !! path_normalize LAUNCH_SH_PATH = Some (File launch) ->
        (updateRepoFiles (lit "2.0") repo_without_build_file).1 = Normal tt
        /\ (In WarnNoServerJar (console (updateRepoFiles (lit "2.0") repo_without_build_file).2)
            \/ In WarnNoDockerfile
                 (console (updateRepoFiles (lit "2.0") repo_without_build_file).2))).
Proof.
  apply (updateRepoFiles_skips_build_file (lit "2.0") repo_without_build_file).
  right. vm_compute. reflexivity.
Defined.

(** ** The scratch directory *)

Create HintDb keeps.

Section Keeps.
Context (k : jsstring).

Lemma keeps_bind {A B : Type} (c : M A) (f : A -> M B) :
  keeps k c -> (forall a, keeps k (f a)) -> keeps k (bind c f).
Proof.
  intros Hc Hf w. unfold bind. destruct (Hc w) as [Hexit Hfs].
  destruct (c w) as [[a|err|code] w']; cbn [fst snd] in *.
  - destruct (Hf a w') as [Hexit' Hfs']. split; [exact Hexit' | tauto].
  - split; [discriminate | exact Hfs].
  - split; [|exact Hfs]. intros code' [= <-]. exact (Hexit code eq_refl).
Qed.

Lemma keeps_same_fs {A : Type} (c : M A) :
  (forall w, fs (c w).2 = fs w /\ forall code, (c w).1 <> Exit code) -> keeps k c.
Proof.
  intros H w. destruct (H w) as [Hfs Hexit]. split.
  - intros code Hcode. destruct (Hexit code Hcode).
  - rewrite Hfs. tauto.
Qed.

Lemma keeps_ret {A : Type} (a : A) : keeps k (ret a).
Proof. apply keeps_same_fs. split; [reflexivity | discriminate]. Qed.

Lemma keeps_throw {A : Type} (err : error) : keeps k (@throw A err).
Proof. apply keeps_same_fs. split; [reflexivity | discriminate]. Qed.

Lemma keeps_await {A : Type} (p : settled A) : keeps k (await p).
Proof.
  apply keeps_same_fs. intros w. destruct p; (split; [reflexivity | discriminate]).
Qed.

Lemma keeps_console_emit (ev : console_event) : keeps k (console_emit ev).
Proof. apply keeps_same_fs. split; [reflexivity | discriminate]. Qed.

Lemma keeps_request_emit (rq : request) : keeps k (request_emit rq).
Proof. apply keeps_same_fs. split; [reflexivity | discriminate]. Qed.

Lemma keeps_existsSync (p : jsstring) : keeps k (existsSync p).
Proof. apply keeps_same_fs. split; [reflexivity | discriminate]. Qed.

Lemma keeps_readFile (p : jsstring) : keeps k (readFile p).
Proof.
  apply keeps_same_fs. intros w. unfold readFile.
  destruct (fs w !! path_normalize p) as [[c|es]|];
    (split; [reflexivity | discriminate]).
Qed.

Lemma keeps_readdir (p : jsstring) : keeps k (readdir p).
Proof.
  apply keeps_same_fs. intros w. unfold readdir.
  destruct (fs w !! path_normalize p) as [[c|es]|];
    (split; [reflexivity | discriminate]).
Qed.

Lemma keeps_stream_end (p : jsstring) : keeps k (stream_end p).
Proof. apply keeps_same_fs. split; [reflexivity | discriminate]. Qed.

Lemma link_keeps (p : jsstring) (m : gmap (list N) node) :
  is_Some (m !! k) -> is_Some (link p m !! k).
Proof.
  intros Hk. pose proof (link_lookup_kind p k m) as Hkind.
  destruct (m !! k) as [[c|es]|].
  - rewrite Hkind. eauto.
  - destruct Hkind as [es' ->]. eauto.
  - destruct Hk as [x Hx]. discriminate.
Qed.

Lemma insert_keeps (p : jsstring) (n : node) (m : gmap (list N) node) :
  is_Some (m !! k) -> is_Some (<[p := n]> m !! k).
Proof.
  intros Hk. destruct (decide (p = k)) as [->|Hne].
  - rewrite lookup_insert_eq. eauto.
  - rewrite lookup_insert_ne by exact Hne. exact Hk.
Qed.

Lemma keeps_mkdir (p : jsstring) : keeps k (mkdir p).
Proof.
  intros w. unfold mkdir.
  destruct (fs w !! path_normalize p) as [[c|es]|]; simpl;
    (split; [discriminate|]); try tauto.
  apply insert_keeps.
Qed.

Lemma keeps_writeFile (p content : jsstring) : keeps k (writeFile p content).
Proof.
  intros w. unfold writeFile.
  destruct (fs w !! path_normalize p) as [[c|es]|]; simpl;
    (split; [discriminate|]); try tauto.
  - intros Hw. apply link_keeps, insert_keeps, Hw.
  - intros Hw. apply link_keeps, insert_keeps, Hw.
Qed.

(** A file stream whose file cannot be opened ends the process, with
    status 1. *)
Lemma keeps_createWriteStream (p : jsstring) : keeps k (createWriteStream p).
Proof.
  intros w. unfold createWriteStream, unhandled_error_event.
  destruct (open_error (path_normalize p) (fs w)) as [reason|]; cbn [fst snd].
  - split; [intros code [= <-]; reflexivity | tauto].
  - split; [discriminate|]. intros Hw. simpl.
    apply link_keeps, insert_keeps, Hw.
Qed.

Lemma keeps_stream_write (p chunk : jsstring) : keeps k (stream_write p chunk).
Proof.
  intros w. split; [discriminate|]. intros Hw. simpl.
  destruct (fs w !! path_normalize p) as [[c|es]|]; try exact Hw.
  apply insert_keeps, Hw.
Qed.

Lemma keeps_try_catch {A : Type} (body : M A) (handler : error -> M A) :
  keeps k body -> (forall err, keeps k (handler err)) -> keeps k (try_catch body handler).
Proof.
  intros Hb Hh w. unfold try_catch. destruct (Hb w) as [Hexit Hfs].
  destruct (body w) as [[a|err|code] w']; cbn [fst snd] in *.
  - split; [discriminate | exact Hfs].
  - destruct (Hh err w') as [Hexit' Hfs']. split; [exact Hexit' | tauto].
  - split; [|exact Hfs]. intros code' [= <-]. exact (Hexit code eq_refl).
Qed.

Lemma keeps_foldr {A : Type} (f : A -> M unit) (l : list A) :
  (forall a, keeps k (f a)) ->
  keeps k (foldr (fun a rest => f a ;;; rest) (ret tt) l).
Proof.
  intros Hf. induction l as [|a l IH]; simpl.
  - apply keeps_ret.
  - apply keeps_bind; [apply Hf | intros _; exact IH].
Qed.

End Keeps.

#[local] Hint Resolve keeps_ret keeps_throw keeps_await keeps_console_emit
  keeps_request_emit keeps_existsSync keeps_readFile keeps_readdir keeps_stream_end
  keeps_mkdir keeps_writeFile keeps_createWriteStream keeps_stream_write : keeps.

Ltac keeps_steps :=
  repeat first
    [ apply keeps_bind; [|intros ?]
    | apply keeps_try_catch; [|intros ?]
    | solve [auto with keeps] ].

Lemma keeps_findLatestServerFile (k : jsstring) (e : env) : keeps k (findLatestServerFile e).
Proof.
  unfold findLatestServerFile. keeps_steps.
  destruct a1 as [files|typeof]; [|auto with keeps].
  destruct (select_server_file files); keeps_steps.
Qed.

Lemma keeps_downloadFile (k : jsstring) (e : env) (url dest : jsstring) :
  keeps k (downloadFile e url dest).
Proof.
  unfold downloadFile. keeps_steps.
  destruct (negb (ok a1)); keeps_steps.
  unfold pipe_until_settled, write_chunks. keeps_steps.
  - apply (keeps_foldr k (stream_write dest)). auto with keeps.
  - destruct (failure (body a1)); keeps_steps.
Qed.

Lemma keeps_extractServerFiles (k : jsstring) (e : env) : keeps k (extractServerFiles e).
Proof.
  unfold extractServerFiles. keeps_steps.
  apply (keeps_foldr k (fun entry => writeFile (path_join TEMP_DIR entry.1) entry.2)).
  auto with keeps.
Qed.

Lemma keeps_findServerJarInTempDir (k : jsstring) : keeps k findServerJarInTempDir.
Proof. unfold findServerJarInTempDir. keeps_steps. Qed.

Lemma keeps_updateRepoFiles (k : jsstring) (version : jsstring) :
  keeps k (updateRepoFiles version).
Proof.
  unfold updateRepoFiles.
  apply keeps_bind; [apply keeps_findServerJarInTempDir | intros jar].
  apply keeps_bind; [destruct (negb (truthy_opt jar)); auto with keeps | intros _].
  keeps_steps.
  destruct (truthy_opt jar); keeps_steps.
  destruct a2; keeps_steps.
Qed.

Lemma mkdir_exists (p : jsstring) (w : world) :
  is_Some (fs (mkdir p w).2 !! path_normalize p).
Proof.
  unfold mkdir. destruct (fs w !! path_normalize p) as [[c|es]|] eqn:Hp; simpl.
  - rewrite Hp. eauto.
  - rewrite Hp. eauto.
  - rewrite lookup_insert_eq. eauto.
Qed.

Lemma rm_removes (p : jsstring) (w : world) :
  (rm p w).1 = Normal tt /\ fs (rm p w).2 !! path_normalize p = None.
Proof.
  split; [reflexivity|]. simpl. apply map_lookup_filter_None. right.
  intros n _. simpl. unfold inside.
  rewrite bool_decide_eq_true_2 by reflexivity. discriminate.
Qed.

(** Whatever happens in the stages, the scratch directory is there
    afterwards; and when a stage ends the process, it is with status 1. *)
Lemma stages_leave_scratch (e : env) (w : world) :
  (forall code, (stages e w).1 = Exit code -> code = 1%Z)
  /\ is_Some (fs (stages e w).2 !! path_normalize TEMP_DIR).
Proof.
  assert (Hrest : keeps (path_normalize TEMP_DIR)
            (serverFileInfo <- findLatestServerFile e ;;
             (downloadFile e (downloadUrl serverFileInfo)
                (path_join TEMP_DIR SERVER_FILE_NAME) ;;;
              extractServerFiles e ;;;
              updateRepoFiles (modpackVersion serverFileInfo)))).
  { apply keeps_bind; [apply keeps_findLatestServerFile | intros info].
    apply keeps_bind; [apply keeps_downloadFile | intros _].
    apply keeps_bind; [apply keeps_extractServerFiles | intros _].
    apply keeps_updateRepoFiles. }
  destruct (stages e w) as [o wf] eqn:Hrun. cbn [fst snd].
  unfold stages in Hrun. unfold bind at 1 in Hrun.
  pose proof (mkdir_exists TEMP_DIR w) as Hdir.
  destruct (keeps_mkdir (path_normalize TEMP_DIR) TEMP_DIR w) as [Hexit _].
  destruct (mkdir TEMP_DIR w) as [[[]|err|code] w1]; cbn [fst snd] in *.
  - destruct (Hrest w1) as [Hexit' Hfs']. rewrite Hrun in Hexit', Hfs'.
    split; [exact Hexit' | exact (Hfs' Hdir)].
  - injection Hrun as <- <-. split; [discriminate | exact Hdir].
  - injection Hrun as <- <-. split; [exact Hexit | exact Hdir].
Qed.

Lemma main_unfold (e : env) :
  main e
  = try_catch_finally (stages e)
      (fun error => console_emit (ErrorUpdateProcess error) ;;; process_exit 1)
      (tempExists <- existsSync TEMP_DIR ;;
       if tempExists then console_emit LogCleaningUp ;;; rm TEMP_DIR else ret tt).
Proof. reflexivity. Qed.

(** How [main] ends.  When the stages return, the [finally] block removes
    the scratch directory and [main] returns.  When a stage throws, the
    [catch] block exits the process with status 1; when a stage ends the
    process, that is with status 1 as well.  In both cases the [finally]
    block does not run, and the scratch directory is still there. *)
Lemma main_scratch (e : env) (w : world) :
  match (stages e w).1 with
  | Normal _ =>
      (main e w).1 = Normal tt
      /\ fs (main e w).2 !! path_normalize TEMP_DIR = None
  | _ =>
      (main e w).1 = Exit 1
      /\ is_Some (fs (main e w).2 !! path_normalize TEMP_DIR)
      /\ fs (main e w).2 = fs (stages e w).2
  end.
Proof.
  destruct (main e w) as [o wf] eqn:Hrun. cbn [fst snd].
  rewrite main_unfold in Hrun. unfold try_catch_finally in Hrun.
  destruct (stages_leave_scratch e w) as [Hexit Hdir].
  destruct (stages e w) as [[[]|err|code] w1]; cbn [fst snd] in *.
  - unfold bind at 1 in Hrun. unfold existsSync in Hrun.
    rewrite bool_decide_eq_true_2 in Hrun by exact Hdir.
    unfold bind, console_emit in Hrun. simpl in Hrun.
    injection Hrun as <- <-. split; [reflexivity|]. simpl.
    apply map_lookup_filter_None. right.
    intros n _. simpl. unfold inside.
    rewrite bool_decide_eq_true_2 by reflexivity. discriminate.
  - unfold bind, console_emit, process_exit in Hrun. simpl in Hrun.
    injection Hrun as <- <-. repeat split. exact Hdir.
  - injection Hrun as <- <-. rewrite (Hexit code eq_refl). repeat split. exact Hdir.
Qed.

(** C10, on the script.  A run whose download is answered with a status
    that is not [ok]: the process exits with status 1 from the [catch]
    block, the clean-up of the [finally] block has not run, and the scratch
    directory that [main] made is still there.  The specification asks for it to be
    gone on every exit path. *)
Theorem scratch_survives_failed_run :
  let r := script (sample_env (Resolved (DataArray sample_listing)) (sample_response false None))
             sample_repo in
  r.1 = Exit 1
  /\ fs r.2 !! path_normalize TEMP_DIR = Some (Dir [])
  /\ ~ In LogCleaningUp (console r.2)
  /\ fs sample_repo !! path_normalize TEMP_DIR = None.
Proof.
  vm_compute. repeat split.
  intros H. repeat (destruct H as [H|H]; [discriminate|]). exact H.
Qed.

(** A run in which every stage succeeds removes the scratch directory. *)
Example scratch_removed_after_success :
  let r := script (sample_env (Resolved (DataArray sample_listing)) (sample_response true None))
             sample_repo in
  r.1 = Normal tt
  /\ fs r.2 !! path_normalize TEMP_DIR = None
  /\ fs r.2 !! path_normalize LAUNCH_SH_PATH
     = Some (File (lit "#!/bin/bash" ++ [10] ++ lit "SERVER_VERSION=c" ++ [10]))
  /\ fs r.2 !! path_normalize DOCKERFILE_PATH
     = Some (File (lit "FROM java" ++ [10]
                   ++ lit "COPY server.jar /server/minecraft_server.jar" ++ [10])).
Proof. vm_compute. repeat split. Qed.

(** ** Regular expressions: the matcher finds a match exactly when there is one *)

Section Matcher.
Import RegExp.

Lemma rev_cons_app (c : N) (x b : jsstring) : rev (c :: x) ++ b = rev x ++ c :: b.
Proof. simpl. rewrite <- app_assoc. reflexivity. Qed.

Lemma m_lit_sound (s : jsstring) (k : cont) (st res : mstate) :
  m_lit s k st = Some res ->
  exists r, rest st = s ++ r /\ k (MState (rev s ++ before st) r (captures st)) = Some res.
Proof.
  unfold m_lit. destruct (Str.startsWith (rest st) s) eqn:Hs; [|discriminate].
  apply startsWith_spec in Hs as [r Hr]. intros Hk. exists r. split; [exact Hr|].
  rewrite Hr, drop_app_length in Hk. exact Hk.
Qed.

Lemma m_lit_complete (s r : jsstring) (k : cont) (b : jsstring) (cs : list jsstring) :
  m_lit s k (MState b (s ++ r) cs) = k (MState (rev s ++ b) r cs).
Proof.
  unfold m_lit. cbn [rest before captures].
  rewrite startsWith_app, drop_app_length. reflexivity.
Qed.

Lemma m_star_sound (p : N -> bool) (k : cont) (r b : jsstring) (cs : list jsstring)
    (res : mstate) :
  m_star p k b r cs = Some res ->
  exists x r', r = x ++ r' /\ forallb p x = true /\ k (MState (rev x ++ b) r' cs) = Some res.
Proof.
  revert b. induction r as [|c r IH]; intros b; cbn [m_star].
  - intros Hk. exists [], []. repeat split. exact Hk.
  - destruct (p c) eqn:Hc.
    + destruct (m_star p k (c :: b) r cs) as [e|] eqn:Hstar.
      * intros [= ->]. destruct (IH _ Hstar) as (x & r' & -> & Hx & Hk).
        exists (c :: x), r'. rewrite rev_cons_app. cbn [forallb]. rewrite Hc, Hx.
        repeat split. exact Hk.
      * intros Hk. exists [], (c :: r). repeat split. exact Hk.
    + intros Hk. exists [], (c :: r). repeat split. exact Hk.
Qed.

Lemma m_star_fallback (p : N -> bool) (k : cont) (r b : jsstring) (cs : list jsstring) :
  is_Some (k (MState b r cs)) -> is_Some (m_star p k b r cs).
Proof.
  intros Hk. destruct r as [|c r]; cbn [m_star]; [exact Hk|].
  destruct (p c); [|exact Hk].
  destruct (m_star p k (c :: b) r cs); [eauto | exact Hk].
Qed.

Lemma m_star_complete (p : N -> bool) (k : cont) (x r b : jsstring) (cs : list jsstring) :
  forallb p x = true ->
  is_Some (k (MState (rev x ++ b) r cs)) ->
  is_Some (m_star p k b (x ++ r) cs).
Proof.
  revert b. induction x as [|c x IH]; intros b Hx Hk.
  - apply m_star_fallback. exact Hk.
  - cbn [forallb] in Hx. apply andb_true_iff in Hx as [Hc Hx].
    cbn [app m_star]. rewrite Hc. rewrite rev_cons_app in Hk.
    destruct (IH (c :: b) Hx Hk) as [e ->]. eauto.
Qed.

Lemma m_alts_sound (alts : list jsstring) (k : cont) (st res : mstate) :
  m_alts alts k st = Some res ->
  exists a r,
    In a alts /\ rest st = a ++ r
    /\ k (MState (rev a ++ before st) r (captures st ++ [a])) = Some res.
Proof.
  induction alts as [|a alts IH]; cbn [m_alts]; [discriminate|].
  destruct (m_lit a _ st) as [e|] eqn:Hlit.
  - intros [= ->]. apply m_lit_sound in Hlit as (r & Hr & Hk).
    exists a, r. split; [left; reflexivity|]. split; [exact Hr | exact Hk].
  - intros H. destruct (IH H) as (a' & r & Hin & Hr & Hk).
    exists a', r. split; [right; exact Hin|]. split; [exact Hr | exact Hk].
Qed.

Lemma m_alts_complete (alts : list jsstring) (k : cont) (x r b : jsstring)
    (cs : list jsstring) :
  In x alts ->
  is_Some (k (MState (rev x ++ b) r (cs ++ [x]))) ->
  is_Some (m_alts alts k (MState b (x ++ r) cs)).
Proof.
  induction alts as [|a alts IH]; intros Hin Hk; [destruct Hin|].
  cbn [m_alts].
  destruct (m_lit a _ (MState b (x ++ r) cs)) as [e|] eqn:Hlit; [eauto|].
  destruct Hin as [->|Hin]; [|exact (IH Hin Hk)].
  rewrite m_lit_complete in Hlit. cbn [before rest captures] in Hlit.
  rewrite Hlit in Hk. destruct Hk as [e He]. discriminate.
Qed.

Lemma m_item_sound (ml : bool) (it : item) (k : cont) (st res : mstate) :
  m_item ml it k st = Some res ->
  exists x r cs,
    rest st = x ++ r
    /\ den_item ml it (before st) x r
    /\ k (MState (rev x ++ before st) r cs) = Some res.
Proof.
  destruct st as [b r0 cs0]. destruct it as [s|p|p| | |alts]; cbn [m_item den_item].
  - intros H. apply m_lit_sound in H as (r & Hr & Hk). exists s, r, cs0. auto.
  - intros H. apply m_star_sound in H as (x & r & Hr & Hx & Hk). exists x, r, cs0. auto.
  - unfold m_plus. cbn [rest before captures]. destruct r0 as [|c r0]; [discriminate|].
    destruct (p c) eqn:Hc; [|discriminate].
    intros H. apply m_star_sound in H as (x & r & -> & Hx & Hk).
    exists (c :: x), r, cs0. rewrite rev_cons_app. cbn [forallb]. rewrite Hc, Hx.
    repeat split; [discriminate | exact Hk].
  - destruct (at_line_start ml (MState b r0 cs0)) eqn:Hb; [|discriminate].
    intros Hk. exists [], r0, cs0. repeat split; assumption.
  - destruct (at_line_end ml (MState b r0 cs0)) eqn:He; [|discriminate].
    intros Hk. exists [], r0, cs0. repeat split; assumption.
  - intros H. apply m_alts_sound in H as (a & r & Hin & Hr & Hk).
    exists a, r, (cs0 ++ [a]). auto.
Qed.

Lemma m_item_complete (ml : bool) (it : item) (k : cont) (b x r : jsstring)
    (cs : list jsstring) :
  den_item ml it b x r ->
  (forall cs', is_Some (k (MState (rev x ++ b) r cs'))) ->
  is_Some (m_item ml it k (MState b (x ++ r) cs)).
Proof.
  destruct it as [s|p|p| | |alts]; cbn [m_item den_item before rest captures].
  - intros -> Hk. rewrite m_lit_complete. apply Hk.
  - intros Hx Hk. apply m_star_complete; [exact Hx | apply Hk].
  - intros [Hne Hx] Hk. destruct x as [|c x]; [congruence|].
    cbn [forallb] in Hx. apply andb_true_iff in Hx as [Hc Hx].
    unfold m_plus. cbn [app rest before captures]. rewrite Hc.
    apply m_star_complete; [exact Hx|]. rewrite <- rev_cons_app. apply Hk.
  - intros [-> Hb] Hk. unfold at_line_start in *. cbn [before app] in *.
    rewrite Hb. apply Hk.
  - intros [-> He] Hk. unfold at_line_end in *. cbn [rest app] in *.
    rewrite He. apply Hk.
  - intros Hin Hk. apply m_alts_complete; [exact Hin | apply Hk].
Qed.

Lemma m_items_sound (ml : bool) (its : list item) (k : cont) (st res : mstate) :
  m_items ml its k st = Some res ->
  exists x r cs,
    rest st = x ++ r
    /\ den_items ml its (before st) x r
    /\ k (MState (rev x ++ before st) r cs) = Some res.
Proof.
  revert k st. induction its as [|it its IH]; intros k st; cbn [m_items den_items].
  - intros Hk. destruct st as [b r cs]. exists [], r, cs. repeat split. exact Hk.
  - intros H. apply m_item_sound in H as (x1 & r1 & cs1 & Hr1 & Hd1 & H).
    apply IH in H as (x2 & r & cs2 & Hr2 & Hd2 & Hk).
    cbn [rest before] in Hr2, Hd2, Hk. subst r1.
    exists (x1 ++ x2), r, cs2. rewrite rev_app_distr, <- !app_assoc.
    split; [exact Hr1|]. split; [|exact Hk].
    exists x1, x2. auto.
Qed.

Lemma m_items_complete (ml : bool) (its : list item) (k : cont) (b x r : jsstring)
    (cs : list jsstring) :
  den_items ml its b x r ->
  (forall cs', is_Some (k (MState (rev x ++ b) r cs'))) ->
  is_Some (m_items ml its k (MState b (x ++ r) cs)).
Proof.
  revert k b x cs. induction its as [|it its IH]; intros k b x cs; cbn [m_items den_items].
  - intros -> Hk. apply Hk.
  - intros (x1 & x2 & -> & Hd1 & Hd2) Hk. rewrite <- app_assoc.
    apply m_item_complete; [exact Hd1|]. intros cs'.
    apply IH; [exact Hd2|]. intros cs''.
    rewrite app_assoc, <- rev_app_distr. apply Hk.
Qed.

End Matcher.

(** ** Regular expressions: the first match and its replacement *)

Section FirstMatch.
Import RegExp.

Lemma match_at_sound (re : regexp) (b r : jsstring) (e : mstate) :
  match_at re b r = Some e ->
  exists x,
    r = x ++ rest e /\ before e = rev x ++ b
    /\ den_items (multiline re) (items re) b x (rest e).
Proof.
  unfold match_at. intros H.
  apply m_items_sound in H as (x & r' & cs & Hr & Hd & [= <-]).
  cbn [rest before] in *. exists x. auto.
Qed.

Lemma match_at_complete (re : regexp) (b x r : jsstring) :
  den_items (multiline re) (items re) b x r -> is_Some (match_at re b (x ++ r)).
Proof.
  intros Hd. unfold match_at.
  apply m_items_complete; [exact Hd|]. intros cs'. eauto.
Qed.

Lemma search_sound (re : regexp) (r b : jsstring) (st0 st1 : mstate) :
  search re b r = Some (st0, st1) ->
  exists skipped x,
    r = skipped ++ x ++ rest st1
    /\ st0 = MState (rev skipped ++ b) (x ++ rest st1) []
    /\ den_items (multiline re) (items re) (rev skipped ++ b) x (rest st1)
    /\ forall p' x' r',
         r = p' ++ x' ++ r' ->
         den_items (multiline re) (items re) (rev p' ++ b) x' r' ->
         (length skipped <= length p')%nat.
Proof.
  revert b. induction r as [|c r IH]; intros b; cbn [search].
  - destruct (match_at re b []) as [e|] eqn:Hm; [|discriminate].
    intros [= <- <-]. apply match_at_sound in Hm as (x & Hr & _ & Hd).
    exists [], x. cbn [rev app length]. rewrite <- Hr.
    repeat split; [exact Hd | intros; lia].
  - destruct (match_at re b (c :: r)) as [e|] eqn:Hm.
    + intros [= <- <-]. apply match_at_sound in Hm as (x & Hr & _ & Hd).
      exists [], x. cbn [rev app length]. rewrite <- Hr.
      repeat split; [exact Hd | intros; lia].
    + intros H. apply IH in H as (skipped & x & Hr & -> & Hd & Hleft).
      exists (c :: skipped), x. rewrite rev_cons_app.
      split; [cbn [app]; rewrite <- Hr; reflexivity|].
      split; [reflexivity|]. split; [exact Hd|].
      intros p' x' r' Hdec Hd'. destruct p' as [|c' p'].
      * cbn [rev app] in *. apply match_at_complete in Hd'.
        rewrite <- Hdec, Hm in Hd'. destruct Hd' as [e He]. discriminate.
      * cbn [app] in Hdec. injection Hdec as <- Hdec. rewrite rev_cons_app in Hd'.
        cbn [length]. specialize (Hleft p' x' r' Hdec Hd'). lia.
Qed.

Lemma search_None (re : regexp) (r b : jsstring) :
  search re b r = None ->
  forall p x r', r = p ++ x ++ r' -> ~ den_items (multiline re) (items re) (rev p ++ b) x r'.
Proof.
  revert b. induction r as [|c r IH]; intros b; cbn [search].
  - destruct (match_at re b []) as [e|] eqn:Hm; [discriminate|]. intros _ p x r' Hdec Hd.
    destruct p; [|discriminate]. cbn [rev app] in *.
    apply match_at_complete in Hd. rewrite <- Hdec, Hm in Hd.
    destruct Hd as [e He]. discriminate.
  - destruct (match_at re b (c :: r)) as [e|] eqn:Hm; [discriminate|].
    intros H p x r' Hdec Hd. destruct p as [|c' p].
    + cbn [rev app] in *. apply match_at_complete in Hd. rewrite <- Hdec, Hm in Hd.
      destruct Hd as [e He]. discriminate.
    + cbn [app] in Hdec. injection Hdec as <- Hdec. rewrite rev_cons_app in Hd.
      exact (IH _ H p x r' Hdec Hd).
Qed.

(** A template without a dollar stands for itself. *)
Lemma GetSubstitution_plain (matched str : jsstring) (position : nat)
    (caps : list jsstring) (template : jsstring) :
  ~ In 36 template ->
  GetSubstitution matched str position caps template = template.
Proof.
  induction template as [|c t IH]; intros Hno; cbn [GetSubstitution]; [reflexivity|].
  destruct (N.eqb_spec c 36) as [->|Hc].
  - destruct Hno. left. reflexivity.
  - cbn [negb]. rewrite IH; [reflexivity|]. intros Hin. apply Hno. right. exact Hin.
Qed.

(** [replace] with a template without a dollar: either the pattern has no
    match and the string is returned as it is, or the leftmost match is
    replaced by the template and the text on both sides is kept. *)
Lemma replace_first_match (re : regexp) (s template : jsstring) :
  ~ In 36 template ->
  (replace re s template = s
   /\ forall pre x post, s = pre ++ x ++ post -> ~ matches re pre x post)
  \/ (exists pre x post,
        s = pre ++ x ++ post
        /\ matches re pre x post
        /\ replace re s template = pre ++ template ++ post
        /\ forall pre' x' post',
             s = pre' ++ x' ++ post' -> matches re pre' x' post' ->
             (length pre <= length pre')%nat).
Proof.
  intros Hno. unfold replace, exec, matches.
  destruct (search re [] s) as [[st0 st1]|] eqn:Hsearch.
  - right. apply search_sound in Hsearch as (pre & x & Hs & -> & Hd & Hleft).
    rewrite app_nil_r in *. exists pre, x, (rest st1).
    split; [exact Hs|]. split; [exact Hd|]. split.
    + cbn [before rest]. rewrite rev_involutive, GetSubstitution_plain by exact Hno.
      reflexivity.
    + intros pre' x' post' Hdec Hd'. apply (Hleft pre' x' post' Hdec).
      rewrite app_nil_r. exact Hd'.
  - left. split; [reflexivity|]. intros pre x post Hdec Hd.
    apply (search_None re s [] Hsearch pre x post Hdec). rewrite app_nil_r. exact Hd.
Qed.

Lemma at_line_start_spec (pre r : jsstring) (cs : list jsstring) :
  at_line_start true (MState (rev pre) r cs) = true <-> starts_line pre.
Proof.
  unfold at_line_start, starts_line. cbn [before].
  destruct (rev pre) as [|c l] eqn:Hrev.
  - apply (f_equal (@rev N)) in Hrev. rewrite rev_involutive in Hrev. subst pre.
    cbn. tauto.
  - apply (f_equal (@rev N)) in Hrev. rewrite rev_involutive in Hrev. subst pre.
    cbn [rev]. rewrite last_snoc. cbn. tauto.
Qed.

Lemma at_line_end_spec (b post : jsstring) (cs : list jsstring) :
  at_line_end true (MState b post cs) = true <-> ends_line post.
Proof.
  unfold at_line_end, ends_line. cbn [rest].
  destruct post as [|c post]; cbn; tauto.
Qed.

End FirstMatch.

(** ** The two patches, as functions of the file content *)

Lemma link_no_parent (p : jsstring) (m : gmap (list N) node) :
  split_last_slash p = None -> link p m = m.
Proof. intros H. unfold link. rewrite H. reflexivity. Qed.

Lemma writeFile_top_level (p content : jsstring) (w : world) :
  split_last_slash (path_normalize p) = None ->
  (exists old, fs w !! path_normalize p = Some (File old)) ->
  writeFile p content w
  = (Normal tt, with_fs (insert (path_normalize p) (File content)) w).
Proof.
  intros Hp [old Hold]. unfold writeFile. rewrite Hold.
  unfold with_fs. rewrite link_no_parent by exact Hp. reflexivity.
Qed.

Lemma launch_not_dockerfile : path_normalize LAUNCH_SH_PATH <> path_normalize DOCKERFILE_PATH.
Proof. vm_compute. discriminate. Qed.

(** The file system after [updateRepoFiles], when the launch script can be
    read: the launch script is rewritten; the build file is rewritten when a
    server program was found and the build file is a file. *)
Lemma updateRepoFiles_fs (version : jsstring) (w : world) (launch : jsstring) :
  fs w !! path_normalize LAUNCH_SH_PATH = Some (File launch) ->
  exists jar,
    (findServerJarInTempDir w).1 = Normal jar
    /\ fs (updateRepoFiles version w).2
       = match jar, fs w !! path_normalize DOCKERFILE_PATH with
         | Some j, Some (File d) =>
             if Str.truthy j
             then <[path_normalize DOCKERFILE_PATH := File (new_dockerfile d j)]>
                    (<[path_normalize LAUNCH_SH_PATH := File (new_launch launch version)]> (fs w))
             else <[path_normalize LAUNCH_SH_PATH := File (new_launch launch version)]> (fs w)
         | _, _ => <[path_normalize LAUNCH_SH_PATH := File (new_launch launch version)]> (fs w)
         end.
Proof.
  intros Hlaunch.
  destruct (findServerJarInTempDir_run w) as (w1 & Hjar & Hfs1 & _ & _).
  set (jar := located_jar w) in Hjar.
  exists jar. rewrite Hjar. split; [reflexivity|].
  destruct (updateRepoFiles version w) as [o wf] eqn:Hrun. cbn [fst snd].
  unfold updateRepoFiles in Hrun. unfold bind at 1 in Hrun. rewrite Hjar in Hrun.
  set (warn := if negb (truthy_opt jar) then console_emit WarnNoServerJar else ret tt) in Hrun.
  assert (Hwarn : exists w2, warn w1 = (Normal tt, w2) /\ fs w2 = fs w1).
  { subst warn. destruct (truthy_opt jar); simpl; eexists; split; reflexivity. }
  destruct Hwarn as (w2 & Hw2 & Hfs2).
  unfold bind at 1 in Hrun. rewrite Hw2 in Hrun.
  unfold bind at 1 in Hrun. unfold console_emit at 1 in Hrun.
  set (w3 := World (fs w2) (streams w2) (console w2 ++ [LogUpdatingLaunch version])
               (requests w2)) in Hrun.
  assert (Hfs3 : fs w3 = fs w) by (subst w3; simpl; congruence).
  unfold bind at 1 in Hrun. unfold readFile at 1 in Hrun.
  rewrite Hfs3, Hlaunch in Hrun.
  unfold bind at 1 in Hrun.
  rewrite writeFile_top_level in Hrun;
    [|reflexivity | exists launch; rewrite Hfs3; exact Hlaunch].
  fold (new_launch launch version) in Hrun.
  set (w4 := with_fs _ w3) in Hrun.
  assert (Hfs4 : fs w4 = <[path_normalize LAUNCH_SH_PATH := File (new_launch launch version)]> (fs w)).
  { subst w4. unfold with_fs. cbn [fs]. rewrite Hfs3. reflexivity. }
  assert (Hd4 : fs w4 !! path_normalize DOCKERFILE_PATH = fs w !! path_normalize DOCKERFILE_PATH).
  { rewrite Hfs4. apply lookup_insert_ne, launch_not_dockerfile. }
  destruct jar as [j|]; cbn [truthy_opt] in Hrun.
  2: { unfold ret in Hrun. injection Hrun as <- <-. exact Hfs4. }
  destruct (Str.truthy j) eqn:Htruthy.
  2: { unfold ret in Hrun. injection Hrun as <- <-.
       destruct (fs w !! path_normalize DOCKERFILE_PATH) as [[d|es]|]; exact Hfs4. }
  unfold bind at 1 in Hrun. unfold existsSync at 1 in Hrun. rewrite Hd4 in Hrun.
  destruct (fs w !! path_normalize DOCKERFILE_PATH) as [[d|es]|] eqn:Hd.
  - rewrite bool_decide_eq_true_2 in Hrun by eauto.
    unfold bind at 1 in Hrun. unfold console_emit at 1 in Hrun.
    unfold bind at 1 in Hrun. unfold readFile at 1 in Hrun. cbn [fs] in Hrun.
    rewrite Hd4 in Hrun. cbn [default] in Hrun.
    rewrite writeFile_top_level in Hrun; [|reflexivity | exists d; exact Hd4].
    fold (new_dockerfile d j) in Hrun.
    injection Hrun as <- <-. rewrite <- Hfs4. reflexivity.
  - rewrite bool_decide_eq_true_2 in Hrun by eauto.
    unfold bind at 1 in Hrun. unfold console_emit at 1 in Hrun.
    unfold bind at 1 in Hrun. unfold readFile at 1 in Hrun. cbn [fs] in Hrun.
    rewrite Hd4 in Hrun. injection Hrun as <- <-. cbn [fs]. exact Hfs4.
  - rewrite bool_decide_eq_false_2 in Hrun by (intros [x Hx]; discriminate).
    unfold console_emit in Hrun. injection Hrun as <- <-. cbn [fs]. exact Hfs4.
Qed.

(** ** The build-file patch *)

Lemma matches_COPY_RE (pre x post : jsstring) :
  matches COPY_RE pre x post <-> copy_match pre x post.
Proof.
  unfold matches, COPY_RE, copy_match, copy_directive.
  cbn [RegExp.multiline RegExp.items den_items den_item]. split.
  - intros (x0 & y0 & -> & [-> Hstart] &
            kw & y1 & -> & Hkw &
            ws1 & y2 & -> & Hws1 &
            path & y3 & -> & Hpath &
            dot & y4 & -> & -> &
            ext & y5 & -> & Hext &
            ws2 & y6 & -> & Hws2 &
            tail & y7 & -> & Htail &
            z & y8 & -> & [-> Hend] & ->).
    apply at_line_start_spec in Hstart. apply at_line_end_spec in Hend.
    cbn [app] in *. rewrite app_nil_r in *.
    split; [exact Hstart|]. split; [|exact Hend].
    exists kw, ws1, path, ext, ws2, tail. repeat split; tauto.
  - intros (Hstart & (kw & ws1 & path & ext & ws2 & tail & -> & Hkw & Hws1 & Hpath
                      & Hext & Hws2 & Htail) & Hend).
    exists [], (kw ++ ws1 ++ path ++ lit "." ++ ext ++ ws2 ++ tail).
    split; [reflexivity|]. split; [split; [reflexivity | apply at_line_start_spec, Hstart]|].
    exists kw, (ws1 ++ path ++ lit "." ++ ext ++ ws2 ++ tail).
    split; [reflexivity|]. split; [exact Hkw|].
    exists ws1, (path ++ lit "." ++ ext ++ ws2 ++ tail).
    split; [reflexivity|]. split; [exact Hws1|].
    exists path, (lit "." ++ ext ++ ws2 ++ tail).
    split; [reflexivity|]. split; [exact Hpath|].
    exists (lit "."), (ext ++ ws2 ++ tail).
    split; [reflexivity|]. split; [reflexivity|].
    exists ext, (ws2 ++ tail).
    split; [reflexivity|]. split; [exact Hext|].
    exists ws2, tail.
    split; [reflexivity|]. split; [exact Hws2|].
    exists tail, [].
    split; [symmetry; apply app_nil_r|]. split; [exact Htail|].
    exists [], [].
    split; [reflexivity|]. split; [|reflexivity].
    split; [reflexivity | apply at_line_end_spec, Hend].
Qed.

Lemma directive_plain (jar : jsstring) : ~ In 36 jar -> ~ In 36 (directive jar).
Proof.
  intros Hjar Hin. unfold directive in Hin.
  apply in_app_or in Hin as [Hin|Hin].
  - vm_compute in Hin. repeat (destruct Hin as [Hin|Hin]; [discriminate|]). exact Hin.
  - apply in_app_or in Hin as [Hin|Hin]; [exact (Hjar Hin)|].
    vm_compute in Hin. repeat (destruct Hin as [Hin|Hin]; [discriminate|]). exact Hin.
Qed.

Section Greedy.
Import RegExp.

(** A greedy quantifier takes the longest run after which the rest of the
    pattern matches: after every longer run it does not. *)
Lemma m_star_greedy (p : N -> bool) (k : cont) (r b : jsstring) (cs : list jsstring)
    (res : mstate) :
  m_star p k b r cs = Some res ->
  exists x r',
    r = x ++ r' /\ forallb p x = true /\ k (MState (rev x ++ b) r' cs) = Some res
    /\ forall x' r'',
         r = x' ++ r'' -> forallb p x' = true -> (length x < length x')%nat ->
         k (MState (rev x' ++ b) r'' cs) = None.
Proof.
  revert b. induction r as [|c r IH]; intros b; cbn [m_star].
  - intros Hk. exists [], []. repeat split; [exact Hk|].
    intros x' r'' Hdec _ Hlen. destruct x'; [cbn in Hlen; lia | discriminate].
  - destruct (p c) eqn:Hc.
    + destruct (m_star p k (c :: b) r cs) as [e|] eqn:Hstar.
      * intros [= ->]. destruct (IH _ Hstar) as (x & r' & -> & Hx & Hk & Hmax).
        exists (c :: x), r'. rewrite rev_cons_app. cbn [forallb]. rewrite Hc, Hx.
        repeat split; [exact Hk|].
        intros x' r'' Hdec Hx' Hlen. destruct x' as [|c' x']; [cbn in Hlen; lia|].
        cbn [app] in Hdec. injection Hdec as <- Hdec.
        cbn [forallb] in Hx'. apply andb_true_iff in Hx' as [_ Hx'].
        rewrite rev_cons_app. apply (Hmax x' r'' Hdec Hx'). cbn [length] in Hlen. lia.
      * intros Hk. exists [], (c :: r). repeat split; [exact Hk|].
        intros x' r'' Hdec Hx' Hlen. destruct x' as [|c' x']; [cbn in Hlen; lia|].
        cbn [app] in Hdec. injection Hdec as <- Hdec.
        cbn [forallb] in Hx'. apply andb_true_iff in Hx' as [_ Hx'].
        rewrite rev_cons_app.
        destruct (k (MState (rev x' ++ c :: b) r'' cs)) as [e|] eqn:Hk'; [|reflexivity].
        assert (Hsome : is_Some (m_star p k (c :: b) (x' ++ r'') cs)).
        { apply m_star_complete; [exact Hx' | rewrite Hk'; eauto]. }
        rewrite <- Hdec, Hstar in Hsome. destruct Hsome as [e' He']. discriminate.
    + intros Hk. exists [], (c :: r). repeat split; [exact Hk|].
      intros x' r'' Hdec Hx' Hlen. destruct x' as [|c' x']; [cbn in Hlen; lia|].
      cbn [app] in Hdec. injection Hdec as <- Hdec.
      cbn [forallb] in Hx'. rewrite Hc in Hx'. discriminate.
Qed.

Lemma m_plus_greedy (p : N -> bool) (k : cont) (r b : jsstring) (cs : list jsstring)
    (res : mstate) :
  m_plus p k (MState b r cs) = Some res ->
  exists x r',
    r = x ++ r' /\ x <> [] /\ forallb p x = true
    /\ k (MState (rev x ++ b) r' cs) = Some res
    /\ forall x' r'',
         r = x' ++ r'' -> forallb p x' = true -> (length x < length x')%nat ->
         k (MState (rev x' ++ b) r'' cs) = None.
Proof.
  unfold m_plus. cbn [rest before captures]. destruct r as [|c r]; [discriminate|].
  destruct (p c) eqn:Hc; [|discriminate]. intros H.
  apply m_star_greedy in H as (x & r' & -> & Hx & Hk & Hmax).
  exists (c :: x), r'. rewrite rev_cons_app. cbn [forallb]. rewrite Hc, Hx.
  repeat split; [discriminate | exact Hk |].
  intros x' r'' Hdec Hx' Hlen. destruct x' as [|c' x']; [cbn in Hlen; lia|].
  cbn [app] in Hdec. injection Hdec as <- Hdec.
  cbn [forallb] in Hx'. apply andb_true_iff in Hx' as [_ Hx'].
  rewrite rev_cons_app. apply (Hmax x' r'' Hdec Hx'). cbn [length] in Hlen. lia.
Qed.

(** Where the rest of a pattern fails, the rest of the input has no match
    of it. *)
Lemma m_items_None (ml : bool) (its : list item) (b y r : jsstring) (cs : list jsstring) :
  m_items ml its Some (MState b (y ++ r) cs) = None -> ~ den_items ml its b y r.
Proof.
  intros Hnone Hd.
  destruct (m_items_complete ml its Some b y r cs Hd) as [e He]; [eauto|].
  rewrite Hnone in He. discriminate.
Qed.

(** The state in which [search] finds its match: the first place at which
    an attempt of the pattern succeeds. *)
Lemma search_found (re : regexp) (r b : jsstring) (st0 st1 : mstate) :
  search re b r = Some (st0, st1) ->
  exists skipped r',
    r = skipped ++ r'
    /\ st0 = MState (rev skipped ++ b) r' []
    /\ match_at re (rev skipped ++ b) r' = Some st1
    /\ forall p' r'',
         r = p' ++ r'' -> (length p' < length skipped)%nat ->
         match_at re (rev p' ++ b) r'' = None.
Proof.
  revert b. induction r as [|c r IH]; intros b; cbn [search].
  - destruct (match_at re b []) as [e|] eqn:Hm; [|discriminate].
    intros [= <- <-]. exists [], []. repeat split; [exact Hm|].
    intros p' r'' _ Hlen. cbn in Hlen. lia.
  - destruct (match_at re b (c :: r)) as [e|] eqn:Hm.
    + intros [= <- <-]. exists [], (c :: r). repeat split; [exact Hm|].
      intros p' r'' _ Hlen. cbn in Hlen. lia.
    + intros H. apply IH in H as (skipped & r' & -> & -> & Hm' & Hleft).
      exists (c :: skipped), r'. rewrite rev_cons_app. repeat split; [exact Hm'|].
      intros p' r'' Hdec Hlen. destruct p' as [|c' p'].
      * cbn [rev app] in *. rewrite <- Hdec. exact Hm.
      * cbn [app] in Hdec. injection Hdec as <- Hdec. rewrite rev_cons_app.
        apply (Hleft p' r'' Hdec). cbn [length] in Hlen. lia.
Qed.

End Greedy.

Section FirstCopyMatch.
Import RegExp.

Lemma m_items_cons (ml : bool) (it : item) (its : list item) (k : cont) :
  m_items ml (it :: its) k = m_item ml it (m_items ml its k).
Proof. reflexivity. Qed.

(** Two alternatives of a group that start the same text are the same. *)
Lemma keyword_inj (kw kw' a a' : jsstring) :
  In kw [lit "COPY"; lit "ADD"] -> In kw' [lit "COPY"; lit "ADD"] ->
  kw ++ a = kw' ++ a' -> kw = kw' /\ a = a'.
Proof.
  intros [<-|[<-|[]]] [<-|[<-|[]]] H; cbn in H; try discriminate;
    (split; [reflexivity|]); injection H as ->; reflexivity.
Qed.

Lemma ext_inj (ext ext' a a' : jsstring) :
  In ext [lit "jar"; lit "sh"] -> In ext' [lit "jar"; lit "sh"] ->
  ext ++ a = ext' ++ a' -> ext = ext' /\ a = a'.
Proof.
  intros [<-|[<-|[]]] [<-|[<-|[]]] H; cbn in H; try discriminate;
    (split; [reflexivity|]); injection H as ->; reflexivity.
Qed.

(** A line has one end. *)
Lemma line_rest_inj (t t' post post' : jsstring) :
  forallb class_dot t = true -> forallb class_dot t' = true ->
  ends_line post -> ends_line post' ->
  t ++ post = t' ++ post' -> t = t' /\ post = post'.
Proof.
  revert t'. induction t as [|c t IH]; intros t' Ht Ht' Hpost Hpost' Heq.
  - destruct t' as [|c' t']; [split; [reflexivity | exact Heq]|].
    cbn [app] in Heq. subst post. cbn [forallb] in Ht'.
    apply andb_true_iff in Ht' as [Hc' _]. unfold ends_line in Hpost. cbn in Hpost.
    unfold class_dot in Hc'. rewrite Hpost in Hc'. discriminate.
  - destruct t' as [|c' t'].
    + cbn [app] in Heq. subst post'. cbn [forallb] in Ht.
      apply andb_true_iff in Ht as [Hc _]. unfold ends_line in Hpost'. cbn in Hpost'.
      unfold class_dot in Hc. rewrite Hpost' in Hc. discriminate.
    + cbn [app] in Heq. injection Heq as <- Heq. cbn [forallb] in Ht, Ht'.
      apply andb_true_iff in Ht as [_ Ht]. apply andb_true_iff in Ht' as [_ Ht'].
      destruct (IH t' Ht Ht' Hpost Hpost' Heq) as [-> ->]. split; reflexivity.
Qed.

(** The rest of the pattern after the second [\s+], after the [[^ ]+] and
    after the first [\s+], on a text of the right parts. *)
Lemma den_after_gap2 (b t post : jsstring) :
  forallb class_dot t = true -> ends_line post ->
  den_items true [Star class_dot; Eol] b t post.
Proof.
  intros Ht Hpost. exists t, []. split; [symmetry; apply app_nil_r|].
  split; [exact Ht|]. exists [], []. split; [reflexivity|].
  split; [|reflexivity]. split; [reflexivity|]. apply at_line_end_spec. exact Hpost.
Qed.

Lemma den_after_source (b ext g2 t post : jsstring) :
  In ext [lit "jar"; lit "sh"] ->
  g2 <> [] -> forallb class_s g2 = true ->
  forallb class_dot t = true -> ends_line post ->
  den_items true
    [Lit (lit "."); Grp [lit "jar"; lit "sh"]; Plus class_s; Star class_dot; Eol]
    b (lit "." ++ ext ++ g2 ++ t) post.
Proof.
  intros Hext Hne Hg2 Ht Hpost.
  exists (lit "."), (ext ++ g2 ++ t). split; [reflexivity|]. split; [reflexivity|].
  exists ext, (g2 ++ t). split; [reflexivity|]. split; [exact Hext|].
  exists g2, t. split; [reflexivity|]. split; [split; assumption|].
  apply den_after_gap2; assumption.
Qed.

Lemma den_after_gap (b s ext g2 t post : jsstring) :
  s <> [] -> forallb class_not_space s = true ->
  In ext [lit "jar"; lit "sh"] ->
  g2 <> [] -> forallb class_s g2 = true ->
  forallb class_dot t = true -> ends_line post ->
  den_items true
    [Plus class_not_space; Lit (lit "."); Grp [lit "jar"; lit "sh"]; Plus class_s;
     Star class_dot; Eol]
    b (s ++ lit "." ++ ext ++ g2 ++ t) post.
Proof.
  intros Hne Hs Hext Hne2 Hg2 Ht Hpost.
  exists s, (lit "." ++ ext ++ g2 ++ t). split; [reflexivity|].
  split; [split; assumption|]. apply den_after_source; assumption.
Qed.

(** What one attempt of the pattern of the build file finds: a directive in
    its parts, the reading of the text at this place that the pattern comes
    to first. *)
Lemma match_at_COPY_RE_first (b r : jsstring) (e : mstate) :
  match_at COPY_RE b r = Some e ->
  exists c,
    r = parts_text c ++ rest e
    /\ parts_ok c
    /\ at_line_start true (MState b r []) = true
    /\ ends_line (rest e)
    /\ forall c' post',
         r = parts_text c' ++ post' -> parts_ok c' -> ends_line post' ->
         tried_first c c'.
Proof.
  unfold match_at, COPY_RE. cbn [multiline items].
  rewrite m_items_cons. cbn [m_item].
  destruct (at_line_start true (MState b r [])) eqn:Hbol; [|discriminate].
  rewrite m_items_cons. cbn [m_item]. intros H.
  apply m_alts_sound in H as (kw & r1 & Hkw & Hr & H).
  cbn [rest before captures] in Hr, H. subst r.
  rewrite m_items_cons in H. cbn [m_item] in H.
  apply m_plus_greedy in H as (g & r2 & -> & Hgne & Hg & H & Hmax1).
  rewrite m_items_cons in H. cbn [m_item] in H.
  apply m_plus_greedy in H as (s & r3 & -> & Hsne & Hs & H & Hmax2).
  rewrite m_items_cons in H. cbn [m_item] in H.
  apply m_lit_sound in H as (r4 & Hr4 & H). cbn [rest before captures] in Hr4, H. subst r3.
  rewrite m_items_cons in H. cbn [m_item] in H.
  apply m_alts_sound in H as (ext & r5 & Hext & Hr5 & H).
  cbn [rest before captures] in Hr5, H. subst r4.
  rewrite m_items_cons in H. cbn [m_item] in H.
  apply m_plus_greedy in H as (g2 & r6 & -> & Hg2ne & Hg2 & H & Hmax3).
  rewrite m_items_cons in H. cbn [m_item before rest captures] in H.
  apply m_star_sound in H as (t & r7 & -> & Ht & H).
  cbn [m_items m_item] in H.
  destruct (at_line_end true _) eqn:Heol in H; [|discriminate].
  injection H as <-. cbn [rest]. apply at_line_end_spec in Heol.
  exists (CopyParts kw g s ext g2 t). unfold parts_text, parts_ok.
  cbn [cp_keyword cp_gap cp_source cp_ext cp_gap2 cp_tail].
  split; [rewrite <- !app_assoc; reflexivity|].
  split; [tauto|]. split; [reflexivity|]. split; [exact Heol|].
  intros [kw' g' s' ext' g2' t'] post'.
  cbn [cp_keyword cp_gap cp_source cp_ext cp_gap2 cp_tail]. unfold tried_first.
  cbn [cp_keyword cp_gap cp_source cp_ext cp_gap2 cp_tail].
  intros Hdec (Hkw' & [Hg'ne Hg'] & [Hs'ne Hs'] & Hext' & [Hg2'ne Hg2'] & Ht') Hpost'.
  rewrite <- !app_assoc in Hdec.
  apply keyword_inj in Hdec as [<- Hdec]; [|assumption..].
  destruct (Nat.lt_trichotomy (length g) (length g')) as [Hlt|[Heq|Hgt]];
    [exfalso | right; split; [symmetry; exact Heq|] | left; exact Hgt].
  { specialize (Hmax1 g' _ Hdec Hg' Hlt).
    rewrite !app_assoc in Hmax1. apply m_items_None in Hmax1. apply Hmax1.
    rewrite <- !app_assoc. apply den_after_gap; assumption. }
  apply app_inj_1 in Hdec as [<- Hdec]; [|exact Heq].
  destruct (Nat.lt_trichotomy (length s) (length s')) as [Hlt|[Heq'|Hgt]];
    [exfalso | right; split; [symmetry; exact Heq'|] | left; exact Hgt].
  { specialize (Hmax2 s' _ Hdec Hs' Hlt).
    rewrite !app_assoc in Hmax2. apply m_items_None in Hmax2. apply Hmax2.
    rewrite <- !app_assoc. apply den_after_source; assumption. }
  apply app_inj_1 in Hdec as [<- Hdec]; [|exact Heq'].
  apply app_inv_head in Hdec.
  apply ext_inj in Hdec as [<- Hdec]; [|assumption..].
  destruct (le_lt_dec (length g2') (length g2)) as [Hle|Hlt]; [exact Hle | exfalso].
  specialize (Hmax3 g2' _ Hdec Hg2' Hlt).
  apply m_items_None in Hmax3. apply Hmax3.
  apply den_after_gap2; assumption.
Qed.

End FirstCopyMatch.

Section BuildFilePatch.
Import RegExp.

Lemma parts_directive (c : copy_parts) : parts_ok c -> copy_directive (parts_text c).
Proof.
  intros Hok. exists (cp_keyword c), (cp_gap c), (cp_source c), (cp_ext c), (cp_gap2 c),
    (cp_tail c). split; [reflexivity | exact Hok].
Qed.

(** [replace] with the pattern of the build file and a template without a
    dollar: without a match the text is returned as it is; with one, the
    first match is replaced by the template. *)
Lemma replace_first_copy (s template : jsstring) :
  ~ In 36 template ->
  (replace COPY_RE s template = s
   /\ forall pre x post, s = pre ++ x ++ post -> ~ copy_match pre x post)
  \/ (exists pre c post,
        first_copy_match s pre c post
        /\ replace COPY_RE s template = pre ++ template ++ post).
Proof.
  intros Hplain. unfold replace, exec.
  destruct (search COPY_RE [] s) as [[st0 st1]|] eqn:Hsearch.
  - right. apply search_found in Hsearch as (pre & r & -> & -> & Hm & Hleft).
    rewrite app_nil_r in *.
    apply match_at_COPY_RE_first in Hm as (c & -> & Hok & Hbol & Heol & Hfirst).
    apply at_line_start_spec in Hbol.
    exists pre, c, (rest st1). split.
    + split; [reflexivity|].
      split; [split; [exact Hbol|]; split; [apply parts_directive, Hok | exact Heol]|].
      split; [exact Hok|].
      intros pre' c' post' Hdec Hbol' Hok' Heol'.
      destruct (Nat.lt_trichotomy (length pre) (length pre')) as [Hlt|[Heq|Hgt]];
        [left; exact Hlt | right; split; [symmetry; exact Heq|] | exfalso].
      * apply app_inj_1 in Hdec as [<- Hdec]; [|exact Heq].
        exact (Hfirst c' post' Hdec Hok' Heol').
      * specialize (Hleft pre' _ Hdec Hgt). rewrite app_nil_r in Hleft.
        assert (Hsome : is_Some (match_at COPY_RE (rev pre') (parts_text c' ++ post'))).
        { apply match_at_complete.
          apply (proj2 (matches_COPY_RE pre' (parts_text c') post')).
          split; [exact Hbol'|]. split; [apply parts_directive, Hok' | exact Heol']. }
        rewrite Hleft in Hsome. destruct Hsome as [e He]. discriminate.
    + cbn [before rest]. rewrite rev_involutive, GetSubstitution_plain by exact Hplain.
      reflexivity.
  - left. split; [reflexivity|]. intros pre x post Hdec Hm.
    apply (search_None COPY_RE s [] Hsearch pre x post Hdec). rewrite app_nil_r.
    apply (proj2 (matches_COPY_RE pre x post)), Hm.
Qed.

(** A text has one first match. *)
Lemma first_copy_match_unique (s pre pre' post post' : jsstring) (c c' : copy_parts) :
  first_copy_match s pre c post -> first_copy_match s pre' c' post' ->
  pre = pre' /\ c = c' /\ post = post'.
Proof.
  intros (Hdec & (Hbol & _ & Heol) & Hok & Hfirst) (Hdec' & (Hbol' & _ & Heol') & Hok' & Hfirst').
  destruct (Hfirst pre' c' post' Hdec' Hbol' Hok' Heol') as [Hlt|[Hlen Htried]];
    destruct (Hfirst' pre c post Hdec Hbol Hok Heol) as [Hlt'|[Hlen' Htried']]; try lia.
  rewrite Hdec in Hdec'. apply app_inj_1 in Hdec' as [<- Hparts]; [|exact Hlen'].
  split; [reflexivity|].
  destruct c as [kw g src ext g2 t], c' as [kw' g' src' ext' g2' t'].
  unfold tried_first, parts_ok, parts_text in *.
  cbn [cp_keyword cp_gap cp_source cp_ext cp_gap2 cp_tail] in *.
  destruct Hok as (Hkw & _ & _ & Hext & _ & Ht).
  destruct Hok' as (Hkw' & _ & _ & Hext' & _ & Ht').
  rewrite <- !app_assoc in Hparts.
  apply keyword_inj in Hparts as [<- Hparts]; [|assumption..].
  apply app_inj_1 in Hparts as [<- Hparts]; [|lia].
  apply app_inj_1 in Hparts as [<- Hparts]; [|lia].
  apply app_inv_head in Hparts.
  apply ext_inj in Hparts as [<- Hparts]; [|assumption..].
  apply app_inj_1 in Hparts as [<- Hparts]; [|lia].
  apply line_rest_inj in Hparts as [<- <-]; [|assumption..].
  split; reflexivity.
Qed.

End BuildFilePatch.

(** C6, as the script has it.  When the patch is attempted with a program
    file name without a dollar sign, the build file afterwards is the build
    file before with the first match of
    [/^(COPY|ADD)\s+[^ ]+\.(jar|sh)\s+.*$/m] replaced by
    [COPY <programFileName> /server/minecraft_server.jar], and the text
    before and after the match kept.  The first match starts at the start of
    a line and ends at the end of a line; no match starts further left; and
    of the matches that start where it starts, it is the one with the
    longest first [\s+], then the longest [[^ ]+], then the longest second
    [\s+].  A text has one such match ([first_copy_match_unique]), so the
    build file afterwards is fixed by the build file before.  A build file
    without a match is written back as it is. *)
Theorem build_file_patch (version : jsstring) (w : world) (launch dockerfile jar : jsstring) :
  fs w !! path_normalize LAUNCH_SH_PATH = Some (File launch) ->
  fs w !! path_normalize DOCKERFILE_PATH = Some (File dockerfile) ->
  (findServerJarInTempDir w).1 = Normal (Some jar) ->
  ~ In 36 jar ->
  exists patched,
    fs (updateRepoFiles version w).2 !! path_normalize DOCKERFILE_PATH = Some (File patched)
    /\ ((patched = dockerfile
         /\ forall pre x post, dockerfile = pre ++ x ++ post -> ~ copy_match pre x post)
        \/ (exists pre c post,
              first_copy_match dockerfile pre c post
              /\ patched = pre ++ directive jar ++ post)).
Proof.
  intros Hlaunch Hdocker Hjar Hplain.
  destruct (updateRepoFiles_fs version w launch Hlaunch) as (jar' & Hjar' & Hfs).
  rewrite Hjar in Hjar'. injection Hjar' as <-. rewrite Hdocker in Hfs.
  assert (Htruthy : Str.truthy jar = true).
  { destruct (findServerJarInTempDir_run w) as (w1 & Hrun & _).
    rewrite Hrun in Hjar. injection Hjar as Hjar.
    exact (located_jar_truthy w jar Hjar). }
  rewrite Htruthy in Hfs. exists (new_dockerfile dockerfile jar).
  split; [rewrite Hfs; apply lookup_insert_eq|].
  unfold new_dockerfile. fold (directive jar).
  exact (replace_first_copy dockerfile (directive jar) (directive_plain jar Hplain)).
Qed.

Lemma build_file_patch_witness :
  exists patched,
    fs (updateRepoFiles (lit "2.0") extracted_repo).2 !! path_normalize DOCKERFILE_PATH
    = Some (File patched)
    /\ ((patched = lit "FROM java" ++ [10] ++ lit "COPY old.jar /server/old.jar" ++ [10]
         /\ forall pre x post,
              lit "FROM java" ++ [10] ++ lit "COPY old.jar /server/old.jar" ++ [10]
              = pre ++ x ++ post -> ~ copy_match pre x post)
        \/ (exists pre c post,
              first_copy_match
                (lit "FROM java" ++ [10] ++ lit "COPY old.jar /server/old.jar" ++ [10])
                pre c post
              /\ patched = pre ++ directive (lit "server.jar") ++ post)).
Proof.
  apply (build_file_patch (lit "2.0") extracted_repo
           (lit "#!/bin/bash" ++ [10] ++ lit "SERVER_VERSION=1.0" ++ [10])
           (lit "FROM java" ++ [10] ++ lit "COPY old.jar /server/old.jar" ++ [10])
           (lit "server.jar")).
  - reflexivity.
  - reflexivity.
  - reflexivity.
  - vm_compute. intros H. repeat (destruct H as [H|H]; [discriminate|]). exact H.
Defined.

(** Which of the matches that start at one place is the first, on the build
    file [COPY a.jar ] followed by a line [CMD run].  The directive of the
    first line alone is a match; it is not the first match, for the second
    [\s+] can take the line terminator as well, and the match then runs to
    the end of the second line.  The patch replaces both lines. *)
Example shorter_match_is_not_first :
  let s := lit "COPY a.jar " ++ [10] ++ lit "CMD run" in
  let short := CopyParts (lit "COPY") (lit " ") (lit "a") (lit "jar") (lit " ") [] in
  copy_match [] (parts_text short) ([10] ++ lit "CMD run")
  /\ ~ first_copy_match s [] short ([10] ++ lit "CMD run")
  /\ new_dockerfile s (lit "server.jar") = directive (lit "server.jar").
Proof.
  cbv zeta.
  assert (Hshort : parts_ok (CopyParts (lit "COPY") (lit " ") (lit "a") (lit "jar") (lit " ") [])).
  { unfold parts_ok. cbn. repeat split; auto; discriminate. }
  assert (Hlong : parts_ok (CopyParts (lit "COPY") (lit " ") (lit "a") (lit "jar")
                              (lit " " ++ [10]) (lit "CMD run"))).
  { unfold parts_ok. cbn. repeat split; auto; discriminate. }
  split; [|split].
  - split; [exact I|]. split; [apply parts_directive, Hshort | reflexivity].
  - intros (_ & _ & _ & Hfirst).
    destruct (Hfirst [] (CopyParts (lit "COPY") (lit " ") (lit "a") (lit "jar")
                           (lit " " ++ [10]) (lit "CMD run")) [] eq_refl I Hlong I)
      as [Hlt|[_ Htried]]; [cbn in Hlt; lia|].
    unfold tried_first in Htried. cbn in Htried. lia.
  - vm_compute. reflexivity.
Qed.

(** Three build files on which the patch is not what the specification
    says.  In the first, a tab stands in the source of the copy: the pattern
    of the specification matches nowhere, so the file should be written back
    unchanged, and the script replaces the line.  In the second, the destination is on the
    next line: the match runs over two lines, and both are replaced by the
    one directive.  In the third, the program file name has [$&] in it, and
    the directive written has the matched text in its place. *)
Lemma build_file_patch_not_as_specified :
  (RegExp.exec SPEC_COPY_RE (lit "COPY a" ++ [9] ++ lit "b.jar /x") = None
   /\ new_dockerfile (lit "COPY a" ++ [9] ++ lit "b.jar /x") (lit "server.jar")
      = lit "COPY server.jar /server/minecraft_server.jar"
   /\ new_dockerfile (lit "COPY a" ++ [9] ++ lit "b.jar /x") (lit "server.jar")
      <> lit "COPY a" ++ [9] ++ lit "b.jar /x")
  /\ new_dockerfile (lit "COPY old.jar" ++ [10] ++ lit "/server/" ++ [10] ++ lit "CMD run")
       (lit "server.jar")
     = lit "COPY server.jar /server/minecraft_server.jar" ++ [10] ++ lit "CMD run"
  /\ new_dockerfile (lit "COPY old.jar /x") (lit "a$&.jar")
     = lit "COPY aCOPY old.jar /x.jar /server/minecraft_server.jar".
Proof. vm_compute. repeat split. discriminate. Qed.

(** The first of them, in a run of [updateRepoFiles]. *)
Example build_file_with_tab_is_patched :
  let w := with_fs (insert (lit "Dockerfile") (File (lit "COPY a" ++ [9] ++ lit "b.jar /x")))
             extracted_repo in
  fs w !! path_normalize DOCKERFILE_PATH = Some (File (lit "COPY a" ++ [9] ++ lit "b.jar /x"))
  /\ fs (updateRepoFiles (lit "2.0") w).2 !! path_normalize DOCKERFILE_PATH
     = Some (File (lit "COPY server.jar /server/minecraft_server.jar")).
Proof. vm_compute. split; reflexivity. Qed.

(** ** The launch-script patch *)

Section Lines.
Import RegExp.

Lemma join_split (s : jsstring) : join_lines (split_lines s).1 (split_lines s).2 = s.
Proof.
  unfold join_lines. induction s as [|c s IH]; [reflexivity|].
  cbn [split_lines]. destruct (split_lines s) as [line more]. cbn [fst snd] in IH.
  destruct (LineTerminator c); cbn [fst snd List.map concat app]; rewrite IH; reflexivity.
Qed.

Lemma split_well_split (s : jsstring) : well_split (split_lines s).1 (split_lines s).2.
Proof.
  unfold well_split. induction s as [|c s IH]; [split; [reflexivity | constructor]|].
  cbn [split_lines]. destruct (split_lines s) as [line more]. cbn [fst snd] in IH.
  destruct IH as [Hline Hmore].
  destruct (LineTerminator c) eqn:Hc; cbn [fst snd].
  - split; [reflexivity|]. constructor; [split; assumption | exact Hmore].
  - split; [|exact Hmore]. cbn [forallb]. unfold class_dot at 1. rewrite Hc, Hline. reflexivity.
Qed.

Lemma split_lines_app (line r : jsstring) :
  forallb class_dot line = true ->
  split_lines (line ++ r) = (line ++ (split_lines r).1, (split_lines r).2).
Proof.
  intros Hline. induction line as [|c line IH].
  - cbn [app]. destruct (split_lines r); reflexivity.
  - cbn [forallb] in Hline. apply andb_true_iff in Hline as [Hc Hline].
    cbn [app split_lines]. rewrite (IH Hline).
    unfold class_dot in Hc. apply negb_true_iff in Hc. rewrite Hc. reflexivity.
Qed.

Lemma split_join (line : jsstring) (more : list (N * jsstring)) :
  well_split line more -> split_lines (join_lines line more) = (line, more).
Proof.
  unfold well_split, join_lines. revert line.
  induction more as [|[t next] more IH]; intros line [Hline Hmore].
  - rewrite split_lines_app by exact Hline. cbn. rewrite app_nil_r. reflexivity.
  - inversion Hmore as [|? ? [Ht Hnext] Hmore']; subst. cbn [fst snd] in Ht, Hnext.
    rewrite split_lines_app by exact Hline.
    cbn [List.map concat fst snd app split_lines].
    rewrite (IH next (conj Hnext Hmore')), Ht. cbn [fst snd].
    rewrite app_nil_r. reflexivity.
Qed.

Lemma patch_lines_well_split (new line : jsstring) (more : list (N * jsstring)) :
  forallb class_dot new = true ->
  well_split line more ->
  well_split (patch_lines new line more).1 (patch_lines new line more).2.
Proof.
  intros Hnew. revert line. induction more as [|[t next] more IH]; intros line [Hline Hmore].
  - cbn [patch_lines]. destruct (Str.startsWith line SERVER_VERSION_PREFIX);
      (split; [assumption | constructor]).
  - cbn [patch_lines]. destruct (Str.startsWith line SERVER_VERSION_PREFIX).
    + split; assumption.
    + inversion Hmore as [|? ? [Ht Hnext] Hmore']; subst. cbn [fst snd] in Ht, Hnext.
      specialize (IH next (conj Hnext Hmore')).
      destruct (patch_lines new next more) as [next' more'']. cbn [fst snd] in *.
      destruct IH as [Hnext' Hmore''].
      split; [exact Hline|]. constructor; [split; assumption | exact Hmore''].
Qed.

Lemma patch_lines_spec (new line : jsstring) (more : list (N * jsstring)) :
  (patch_lines new line more).1 :: List.map snd (patch_lines new line more).2
  = replace_first_line new (line :: List.map snd more)
  /\ List.map fst (patch_lines new line more).2 = List.map fst more.
Proof.
  revert line. induction more as [|[t next] more IH]; intros line.
  - cbn [patch_lines replace_first_line List.map].
    destruct (Str.startsWith line SERVER_VERSION_PREFIX); split; reflexivity.
  - cbn [patch_lines replace_first_line List.map].
    destruct (Str.startsWith line SERVER_VERSION_PREFIX); [split; reflexivity|].
    specialize (IH next).
    destruct (patch_lines new next more) as [next' more'']. cbn [fst snd List.map] in *.
    destruct IH as [IH1 IH2]. cbn [replace_first_line] in IH1.
    rewrite IH2. split; [|reflexivity]. f_equal. exact IH1.
Qed.

End Lines.

Section LaunchPatch.
Import RegExp.

Lemma replace_plain (re : regexp) (s template : jsstring) :
  ~ In 36 template -> replace re s template = replaced re [] s template.
Proof.
  intros Hno. unfold replace, replaced, exec.
  destruct (search re [] s) as [[st0 st1]|]; [|reflexivity].
  rewrite GetSubstitution_plain by exact Hno. reflexivity.
Qed.

Lemma match_at_not_bol (b r : jsstring) :
  bol b = false -> match_at SERVER_VERSION_RE b r = None.
Proof.
  intros Hb. unfold match_at, SERVER_VERSION_RE. cbn [multiline items m_items m_item].
  unfold at_line_start. cbn [before]. destruct b as [|c b]; [discriminate|].
  cbn [bol] in Hb. rewrite Hb. reflexivity.
Qed.

Lemma match_at_no_prefix (b r : jsstring) :
  Str.startsWith r SERVER_VERSION_PREFIX = false -> match_at SERVER_VERSION_RE b r = None.
Proof.
  intros Hr. unfold match_at, SERVER_VERSION_RE. cbn [multiline items m_items m_item].
  destruct (at_line_start true (MState b r [])); [|reflexivity].
  unfold m_lit. cbn [rest]. fold SERVER_VERSION_PREFIX. rewrite Hr. reflexivity.
Qed.

Lemma m_star_to_eol (l q b : jsstring) (cs : list jsstring) :
  forallb class_dot l = true ->
  ends_line q ->
  m_star class_dot (m_items true [Eol] Some) b (l ++ q) cs = Some (MState (rev l ++ b) q cs).
Proof.
  revert b. induction l as [|c l IH]; intros b Hl Hq.
  - cbn [app rev]. unfold ends_line in Hq. destruct q as [|t q]; cbn [m_star head] in *.
    + reflexivity.
    + unfold class_dot. rewrite Hq. cbn [negb m_items m_item].
      unfold at_line_end. cbn [rest]. rewrite Hq. reflexivity.
  - cbn [forallb] in Hl. apply andb_true_iff in Hl as [Hc Hl].
    cbn [app m_star]. rewrite Hc, (IH (c :: b) Hl Hq), rev_cons_app. reflexivity.
Qed.

Lemma match_at_hit (b old q : jsstring) :
  bol b = true ->
  forallb class_dot old = true ->
  ends_line q ->
  match_at SERVER_VERSION_RE b (SERVER_VERSION_PREFIX ++ old ++ q)
  = Some (MState (rev (SERVER_VERSION_PREFIX ++ old) ++ b) q []).
Proof.
  intros Hb Hold Hq. unfold match_at, SERVER_VERSION_RE.
  cbn [multiline items]. fold SERVER_VERSION_PREFIX.
  change (m_items true [Bol; Lit SERVER_VERSION_PREFIX; Star class_dot; Eol] Some)
    with (m_item true Bol (m_item true (Lit SERVER_VERSION_PREFIX)
            (m_item true (Star class_dot) (m_items true [Eol] Some)))).
  cbn [m_item]. unfold at_line_start. cbn [before].
  replace (match b with [] => true | c :: _ => true && LineTerminator c end) with true
    by (destruct b; [reflexivity | symmetry; exact Hb]).
  rewrite m_lit_complete. cbn [m_item before rest captures].
  rewrite (m_star_to_eol old q _ [] Hold Hq), rev_app_distr, <- app_assoc. reflexivity.
Qed.

Lemma startsWith_line (l q x : jsstring) (t : N) :
  LineTerminator t = true ->
  forallb class_dot x = true ->
  Str.startsWith (l ++ t :: q) x = Str.startsWith l x.
Proof.
  intros Ht. revert l. induction x as [|d x IH]; intros l Hx.
  - destruct l; reflexivity.
  - cbn [forallb] in Hx. apply andb_true_iff in Hx as [Hd Hx].
    destruct l as [|c l]; cbn [app Str.startsWith].
    + destruct (N.eqb_spec d t) as [->|Hne]; [|reflexivity].
      unfold class_dot in Hd. rewrite Ht in Hd. discriminate.
    + rewrite (IH l Hx). reflexivity.
Qed.

Lemma prefix_plain : forallb class_dot SERVER_VERSION_PREFIX = true.
Proof. reflexivity. Qed.

(** Inside a line no match starts. *)
Lemma search_inside (l b : jsstring) :
  forallb class_dot l = true ->
  bol b = false ->
  search SERVER_VERSION_RE b l = None
  /\ forall t q, LineTerminator t = true ->
       search SERVER_VERSION_RE b (l ++ t :: q)
       = search SERVER_VERSION_RE (t :: rev l ++ b) q.
Proof.
  revert b. induction l as [|c l IH]; intros b Hl Hb.
  - split.
    + cbn [search]. rewrite match_at_not_bol by exact Hb. reflexivity.
    + intros t q Ht. cbn [app search rev]. rewrite match_at_not_bol by exact Hb. reflexivity.
  - cbn [forallb] in Hl. apply andb_true_iff in Hl as [Hc Hl].
    assert (Hcb : bol (c :: b) = false).
    { cbn [bol]. unfold class_dot in Hc. apply negb_true_iff, Hc. }
    destruct (IH (c :: b) Hl Hcb) as [IHend IHmore]. split.
    + cbn [search]. rewrite match_at_not_bol by exact Hb. exact IHend.
    + intros t q Ht. cbn [app search]. rewrite match_at_not_bol by exact Hb.
      rewrite (IHmore t q Ht), rev_cons_app. reflexivity.
Qed.

(** A line that does not begin with the prefix is passed over. *)
Lemma search_miss (l b : jsstring) :
  forallb class_dot l = true ->
  Str.startsWith l SERVER_VERSION_PREFIX = false ->
  search SERVER_VERSION_RE b l = None
  /\ forall t q, LineTerminator t = true ->
       search SERVER_VERSION_RE b (l ++ t :: q)
       = search SERVER_VERSION_RE (t :: rev l ++ b) q.
Proof.
  intros Hl Hmiss. destruct l as [|c l].
  - split.
    + cbn [search]. rewrite match_at_no_prefix by exact Hmiss. reflexivity.
    + intros t q Ht. cbn [app search rev].
      rewrite match_at_no_prefix; [reflexivity|].
      pose proof (startsWith_line [] q _ t Ht prefix_plain) as E.
      cbn [app] in E. rewrite E. exact Hmiss.
  - cbn [forallb] in Hl. apply andb_true_iff in Hl as [Hc Hl].
    assert (Hcb : bol (c :: b) = false).
    { cbn [bol]. unfold class_dot in Hc. apply negb_true_iff, Hc. }
    destruct (search_inside l (c :: b) Hl Hcb) as [Hend Hmore]. split.
    + cbn [search]. rewrite match_at_no_prefix by exact Hmiss. exact Hend.
    + intros t q Ht. cbn [app search].
      rewrite match_at_no_prefix.
      * rewrite (Hmore t q Ht), rev_cons_app. reflexivity.
      * pose proof (startsWith_line (c :: l) q _ t Ht prefix_plain) as E.
        cbn [app] in E. rewrite E. exact Hmiss.
Qed.

(** A line that begins with the prefix, at the start of a line, is the
    match. *)
Lemma search_hit (l q b : jsstring) :
  bol b = true ->
  forallb class_dot l = true ->
  Str.startsWith l SERVER_VERSION_PREFIX = true ->
  ends_line q ->
  search SERVER_VERSION_RE b (l ++ q) = Some (MState b (l ++ q) [], MState (rev l ++ b) q []).
Proof.
  intros Hb Hl Hhit Hq. apply startsWith_spec in Hhit as [old ->].
  assert (Hold : forallb class_dot old = true).
  { rewrite forallb_app in Hl. apply andb_true_iff in Hl as [_ Hold]. exact Hold. }
  pose proof (match_at_hit b old q Hb Hold Hq) as Hm.
  rewrite <- app_assoc.
  destruct (SERVER_VERSION_PREFIX ++ old ++ q) as [|c r] eqn:Hr; cbn [search]; rewrite Hm.
  - rewrite app_assoc in Hr. reflexivity.
  - reflexivity.
Qed.

Lemma replaced_lines (new : jsstring) (more : list (N * jsstring)) (line b : jsstring) :
  well_split line more ->
  bol b = true ->
  replaced SERVER_VERSION_RE b (join_lines line more) new
  = rev b ++ join_lines (patch_lines new line more).1 (patch_lines new line more).2.
Proof.
  revert line b. induction more as [|[t next] more IH]; intros line b [Hline Hmore] Hb.
  - unfold join_lines. cbn [List.map concat patch_lines]. rewrite !app_nil_r.
    destruct (Str.startsWith line SERVER_VERSION_PREFIX) eqn:Hhit; cbn [fst snd].
    + unfold replaced. pose proof (search_hit line [] b Hb Hline Hhit I) as Hs.
      rewrite app_nil_r in Hs. rewrite Hs. cbn [before rest List.map concat].
      reflexivity.
    + unfold replaced. destruct (search_miss line b Hline Hhit) as [-> _].
      cbn [List.map concat]. rewrite app_nil_r. reflexivity.
  - inversion Hmore as [|? ? [Ht Hnext] Hmore']; subst. cbn [fst snd] in Ht, Hnext.
    cbn [patch_lines].
    destruct (Str.startsWith line SERVER_VERSION_PREFIX) eqn:Hhit; cbn [fst snd].
    + unfold replaced, join_lines. cbn [List.map concat fst snd].
      rewrite (search_hit line _ b Hb Hline Hhit) by (cbn; exact Ht).
      cbn [before rest]. reflexivity.
    + specialize (IH next (t :: rev line ++ b) (conj Hnext Hmore') Ht).
      destruct (patch_lines new next more) as [next' more'']. cbn [fst snd] in *.
      unfold replaced in *. unfold join_lines at 1. cbn [List.map concat fst snd].
      destruct (search_miss line b Hline Hhit) as [_ Hskip].
      change ((t :: next) ++ concat (List.map (fun tl : N * jsstring => tl.1 :: tl.2) more))
        with (t :: join_lines next more).
      rewrite (Hskip t (join_lines next more) Ht).
      destruct (search SERVER_VERSION_RE (t :: rev line ++ b) (join_lines next more))
        as [[st0 st1]|].
      * rewrite IH. unfold join_lines. cbn [rev List.map concat fst snd app].
        rewrite rev_app_distr, rev_involutive, <- !app_assoc. reflexivity.
      * apply app_inv_head in IH. unfold join_lines in *.
        cbn [List.map concat fst snd app]. rewrite IH. reflexivity.
Qed.

(** The launch-script patch, line by line: the first line that begins with
    [SERVER_VERSION=] becomes [SERVER_VERSION=<version>]; the other lines
    and the line terminators are kept. *)
Lemma new_launch_lines (content version : jsstring) :
  ~ In 36 version ->
  forallb class_dot version = true ->
  lines (new_launch content version)
  = replace_first_line (SERVER_VERSION_PREFIX ++ version) (lines content)
  /\ terminators (new_launch content version) = terminators content.
Proof.
  intros Hplain Hline. unfold new_launch. fold SERVER_VERSION_PREFIX.
  set (new := SERVER_VERSION_PREFIX ++ version).
  assert (Hnew_plain : ~ In 36 new).
  { subst new. intros Hin. apply in_app_or in Hin as [Hin|Hin]; [|exact (Hplain Hin)].
    vm_compute in Hin. repeat (destruct Hin as [Hin|Hin]; [discriminate|]). exact Hin. }
  assert (Hnew_line : forallb class_dot new = true).
  { subst new. rewrite forallb_app, Hline. reflexivity. }
  rewrite replace_plain by exact Hnew_plain.
  rewrite <- (join_split content) at 1 3.
  rewrite (replaced_lines new _ _ [] (split_well_split content) eq_refl).
  cbn [rev app]. unfold lines, terminators.
  rewrite split_join by (apply patch_lines_well_split;
                         [exact Hnew_line | apply split_well_split]).
  cbn [fst snd]. apply patch_lines_spec.
Qed.

End LaunchPatch.

Lemma filter_nil_all {A : Type} (p : A -> bool) (l : list A) :
  List.filter p l = [] -> forall x, In x l -> p x = false.
Proof.
  induction l as [|a l IH]; intros H x Hx; [destruct Hx|].
  cbn [List.filter] in H. destruct (p a) eqn:Ha; [discriminate|].
  destruct Hx as [<-|Hx]; [exact Ha | exact (IH H x Hx)].
Qed.

Lemma replace_first_line_unique (new : jsstring) (ls : list jsstring) :
  length (List.filter begins_with_prefix ls) = 1%nat ->
  exists above old below,
    ls = above ++ (SERVER_VERSION_PREFIX ++ old) :: below
    /\ replace_first_line new ls = above ++ new :: below
    /\ (forall l, In l above -> begins_with_prefix l = false)
    /\ (forall l, In l below -> begins_with_prefix l = false).
Proof.
  induction ls as [|l ls IH]; [discriminate|].
  cbn [List.filter replace_first_line]. fold (begins_with_prefix l).
  destruct (begins_with_prefix l) eqn:Hl.
  - cbn [length]. intros Hlen.
    assert (Hnil : List.filter begins_with_prefix ls = []).
    { destruct (List.filter begins_with_prefix ls); [reflexivity | discriminate]. }
    apply startsWith_spec in Hl as [old ->].
    exists [], old, ls. split; [reflexivity|]. split; [reflexivity|].
    split; [intros l' [] | exact (filter_nil_all _ _ Hnil)].
  - intros Hlen. destruct (IH Hlen) as (above & old & below & -> & Hrep & Habove & Hbelow).
    exists (l :: above), old, below. cbn [app]. rewrite Hrep.
    split; [reflexivity|]. split; [reflexivity|]. split; [|exact Hbelow].
    intros l' [<-|Hl']; [exact Hl | exact (Habove l' Hl')].
Qed.

(** C4, as the script has it.  For a version label without a dollar sign
    and without a line terminator: after [updateRepoFiles], the launch
    script read back has the lines of the launch script before, with the
    first line that begins with [SERVER_VERSION=] replaced by
    [SERVER_VERSION=<version>], and the same line terminators.  When exactly
    one line of the launch script begins with [SERVER_VERSION=], the launch
    script read back has [SERVER_VERSION=<version>] in the place of that
    line and nowhere else, and every other line is as before. *)
Theorem launch_patch_roundtrip (version : jsstring) (w : world) (launch : jsstring) :
  fs w !! path_normalize LAUNCH_SH_PATH = Some (File launch) ->
  ~ In 36 version ->
  forallb RegExp.class_dot version = true ->
  exists patched,
    (readFile LAUNCH_SH_PATH (updateRepoFiles version w).2).1 = Normal patched
    /\ lines patched
       = replace_first_line (SERVER_VERSION_PREFIX ++ version) (lines launch)
    /\ terminators patched = terminators launch
    /\ (length (List.filter begins_with_prefix (lines launch)) = 1%nat ->
        exists above old below,
          lines launch = above ++ (SERVER_VERSION_PREFIX ++ old) :: below
          /\ lines patched = above ++ (SERVER_VERSION_PREFIX ++ version) :: below
          /\ ~ In (SERVER_VERSION_PREFIX ++ version) above
          /\ ~ In (SERVER_VERSION_PREFIX ++ version) below).
Proof.
  intros Hlaunch Hplain Hline. exists (new_launch launch version).
  destruct (new_launch_lines launch version Hplain Hline) as [Hlines Hterm].
  split; [|split; [exact Hlines | split; [exact Hterm|]]].
  - destruct (updateRepoFiles_fs version w launch Hlaunch) as (jar & _ & Hfs).
    unfold readFile. rewrite Hfs.
    assert (Hne : path_normalize DOCKERFILE_PATH <> path_normalize LAUNCH_SH_PATH).
    { intros Heq. exact (launch_not_dockerfile (eq_sym Heq)). }
    destruct jar as [j|];
      [destruct (fs w !! path_normalize DOCKERFILE_PATH) as [[d|es]|];
       [destruct (Str.truthy j)| |] |];
      rewrite ?(lookup_insert_ne _ _ _ _ Hne), lookup_insert_eq; reflexivity.
  - intros Hone. rewrite Hlines.
    destruct (replace_first_line_unique (SERVER_VERSION_PREFIX ++ version) _ Hone)
      as (above & old & below & Hdec & Hrep & Habove & Hbelow).
    exists above, old, below. split; [exact Hdec|]. split; [exact Hrep|].
    assert (Hnew : begins_with_prefix (SERVER_VERSION_PREFIX ++ version) = true)
      by apply startsWith_app.
    split; intros Hin.
    + rewrite (Habove _ Hin) in Hnew. discriminate.
    + rewrite (Hbelow _ Hin) in Hnew. discriminate.
Qed.

Lemma launch_patch_roundtrip_witness :
  exists patched,
    (readFile LAUNCH_SH_PATH (updateRepoFiles (lit "2.0") extracted_repo).2).1 = Normal patched
    /\ lines patched
       = replace_first_line (SERVER_VERSION_PREFIX ++ lit "2.0")
           (lines (lit "#!/bin/bash" ++ [10] ++ lit "SERVER_VERSION=1.0" ++ [10]))
    /\ terminators patched
       = terminators (lit "#!/bin/bash" ++ [10] ++ lit "SERVER_VERSION=1.0" ++ [10])
    /\ (length (List.filter begins_with_prefix
                  (lines (lit "#!/bin/bash" ++ [10] ++ lit "SERVER_VERSION=1.0" ++ [10])))
        = 1%nat ->
        exists above old below,
          lines (lit "#!/bin/bash" ++ [10] ++ lit "SERVER_VERSION=1.0" ++ [10])
          = above ++ (SERVER_VERSION_PREFIX ++ old) :: below
          /\ lines patched = above ++ (SERVER_VERSION_PREFIX ++ lit "2.0") :: below
          /\ ~ In (SERVER_VERSION_PREFIX ++ lit "2.0") above
          /\ ~ In (SERVER_VERSION_PREFIX ++ lit "2.0") below).
Proof.
  apply (launch_patch_roundtrip (lit "2.0") extracted_repo
           (lit "#!/bin/bash" ++ [10] ++ lit "SERVER_VERSION=1.0" ++ [10])).
  - reflexivity.
  - vm_compute. intros H. repeat (destruct H as [H|H]; [discriminate|]). exact H.
  - reflexivity.
Defined.

Example launch_patch_sample :
  (readFile LAUNCH_SH_PATH (updateRepoFiles (lit "2.0") extracted_repo).2).1
  = Normal (lit "#!/bin/bash" ++ [10] ++ lit "SERVER_VERSION=2.0" ++ [10])
  /\ length (List.filter begins_with_prefix
               (lines (lit "#!/bin/bash" ++ [10] ++ lit "SERVER_VERSION=1.0" ++ [10])))
     = 1%nat.
Proof. vm_compute. split; reflexivity. Qed.

(** Three launch scripts on which the round trip of the specification
    fails.  Without a line that begins with [SERVER_VERSION=] the script is
    written back as it is, and
    no line is [SERVER_VERSION=2.0].  With two such lines, the second
    already for the new version, two lines are [SERVER_VERSION=2.0].  With
    [$$] in the version label the line written has one dollar sign, and no
    line is [SERVER_VERSION=1.0$$]. *)
Lemma launch_patch_not_as_specified :
  (patch_and_read (lit "#!/bin/bash" ++ [10]) (lit "2.0")
   = Normal (lit "#!/bin/bash" ++ [10])
   /\ count_lines (lit "SERVER_VERSION=2.0") (lit "#!/bin/bash" ++ [10]) = 0%nat)
  /\ (patch_and_read (lit "SERVER_VERSION=1.0" ++ [10] ++ lit "SERVER_VERSION=2.0" ++ [10])
        (lit "2.0")
      = Normal (lit "SERVER_VERSION=2.0" ++ [10] ++ lit "SERVER_VERSION=2.0" ++ [10])
      /\ count_lines (lit "SERVER_VERSION=2.0")
           (lit "SERVER_VERSION=2.0" ++ [10] ++ lit "SERVER_VERSION=2.0" ++ [10]) = 2%nat)
  /\ (patch_and_read (lit "SERVER_VERSION=0.9" ++ [10]) (lit "1.0$$")
      = Normal (lit "SERVER_VERSION=1.0$" ++ [10])
      /\ count_lines (lit "SERVER_VERSION=1.0$$") (lit "SERVER_VERSION=1.0$" ++ [10]) = 0%nat).
Proof. vm_compute. repeat split. Qed.

(** ** The resolution, step by step *)

Lemma matches_ZIP_RE (pre x post : jsstring) :
  matches ZIP_RE pre x post <-> x = lit ".zip" /\ post = [].
Proof.
  unfold matches, ZIP_RE. cbn [RegExp.multiline RegExp.items den_items den_item]. split.
  - intros (x1 & x2 & -> & -> & y1 & y2 & -> & [-> Hend] & ->).
    cbn [app] in *. unfold RegExp.at_line_end in Hend. cbn [RegExp.rest] in Hend.
    destruct post; [|discriminate]. split; [apply app_nil_r | reflexivity].
  - intros [-> ->]. exists (lit ".zip"), [].
    split; [symmetry; apply app_nil_r|]. split; [reflexivity|].
    exists [], []. repeat split.
Qed.

(** [name.replace(/\.zip$/, '')]: a name that ends with [.zip] loses that
    ending, once; any other name is returned as it is. *)
Lemma version_label_spec (name : jsstring) :
  name = version_label name ++ lit ".zip"
  \/ (version_label name = name /\ ~ ends_with (lit ".zip") name).
Proof.
  unfold version_label.
  destruct (replace_first_match ZIP_RE name [] (fun H : In 36 [] => H))
    as [[Hsame Hnone] | (pre & x & post & Hdec & Hm & Hnew & _)].
  - right. split; [exact Hsame|]. intros [p Hp].
    apply (Hnone p (lit ".zip") []).
    + rewrite app_nil_r. exact Hp.
    + apply matches_ZIP_RE. split; reflexivity.
  - left. apply matches_ZIP_RE in Hm as [-> ->].
    rewrite Hnew, Hdec, !app_nil_r. reflexivity.
Qed.

(** What [findLatestServerFile] does, case by case. *)
Lemma findLatestServerFile_run (e : env) (w : world) :
  findLatestServerFile e w
  = match getModFiles e MODPACK_ID with
    | Rejects reason => (Throw (Rejected reason), after_listing w)
    | Resolved (DataOther typeof) => (Throw (UpstreamResponseError typeof), after_listing w)
    | Resolved (DataArray files) =>
        match select_server_file files with
        | None => (Throw NoMatchingReleaseError, after_listing w)
        | Some f =>
            match getFile e MODPACK_ID (serverPackFileId f) with
            | Rejects reason =>
                (Throw (Rejected reason),
                 World (fs w) (streams w) (console w ++ [LogSearching])
                   ((requests w ++ [GetModFiles MODPACK_ID])
                      ++ [GetFile MODPACK_ID (serverPackFileId f)]))
            | Resolved url =>
                (Normal (ServerFileInfo url (version_label (fileName f)) (fileName f)
                           (displayName f)),
                 after_lookup f w)
            end
        end
    end.
Proof.
  unfold findLatestServerFile, bind, console_emit, request_emit, after_listing, after_lookup.
  cbn [fs streams console requests].
  destruct (getModFiles e MODPACK_ID) as [[files|typeof]|reason]; try reflexivity.
  cbn [await ret]. destruct (select_server_file files) as [f|]; [|reflexivity].
  cbn [fs streams console requests].
  destruct (getFile e MODPACK_ID (serverPackFileId f)) as [url|reason]; reflexivity.
Qed.

(** The selected file is an eligible entry of the listing. *)
Lemma select_server_file_eligible (files : list file) (f : file) :
  select_server_file files = Some f -> In f files /\ eligible f.
Proof.
  unfold select_server_file, Arr.first. intros Hsel.
  assert (Hin : In f (Arr.sort by_date_desc (List.filter is_candidate files))).
  { destruct (Arr.sort by_date_desc (List.filter is_candidate files)) as [|x s];
      [discriminate|]. injection Hsel as ->. left. reflexivity. }
  apply (Permutation_in _ (Permutation_sym (sort_Permutation fileDate _))) in Hin.
  apply filter_In in Hin as [Hin Hcand]. split; [exact Hin|].
  apply is_candidate_spec, Hcand.
Qed.

(** X1.  When the listing has a selected file and its file record is
    found, [findLatestServerFile] returns the download URL of that record,
    with the name and the display name of the selected file, and as version
    label the file name without its [.zip] ending (the file name itself when
    it has no such ending).  The requests made are the listing and the
    lookup of the selected file's server pack, whose identifier is truthy. *)
Theorem findLatestServerFile_success (e : env) (w : world) (files : list file)
    (f : file) (url : jsstring) :
  getModFiles e MODPACK_ID = Resolved (DataArray files) ->
  select_server_file files = Some f ->
  getFile e MODPACK_ID (serverPackFileId f) = Resolved url ->
  exists info w',
    findLatestServerFile e w = (Normal info, w')
    /\ downloadUrl info = url
    /\ info_fileName info = fileName f
    /\ info_displayName info = displayName f
    /\ (fileName f = modpackVersion info ++ lit ".zip"
        \/ (modpackVersion info = fileName f /\ ~ ends_with (lit ".zip") (fileName f)))
    /\ truthy_id (serverPackFileId f) = true
    /\ requests w'
       = requests w ++ [GetModFiles MODPACK_ID; GetFile MODPACK_ID (serverPackFileId f)]
    /\ fs w' = fs w.
Proof.
  intros Hlist Hsel Hfile. rewrite findLatestServerFile_run, Hlist, Hsel, Hfile.
  eexists _, _. split; [reflexivity|]. cbn [downloadUrl info_fileName info_displayName
                                             modpackVersion after_lookup requests fs].
  repeat (split; [reflexivity|]). split; [apply version_label_spec|].
  split; [apply (select_server_file_eligible files f Hsel)|].
  split; [rewrite <- app_assoc; reflexivity | reflexivity].
Qed.

Lemma findLatestServerFile_success_witness :
  exists info w',
    findLatestServerFile
      (sample_env (Resolved (DataArray sample_listing)) (sample_response true None))
      empty_world
    = (Normal info, w')
    /\ downloadUrl info = lit "https://cdn.example/server.zip"
    /\ info_fileName info = lit "c.zip"
    /\ info_displayName info = lit "c"
    /\ (lit "c.zip" = modpackVersion info ++ lit ".zip"
        \/ (modpackVersion info = lit "c.zip" /\ ~ ends_with (lit ".zip") (lit "c.zip")))
    /\ truthy_id (Some 7%Z) = true
    /\ requests w'
       = requests empty_world ++ [GetModFiles MODPACK_ID; GetFile MODPACK_ID (Some 7%Z)]
    /\ fs w' = fs empty_world.
Proof.
  apply (findLatestServerFile_success
           (sample_env (Resolved (DataArray sample_listing)) (sample_response true None))
           empty_world sample_listing
           (FileRecord (lit "c") (lit "c.zip") 200 (Some [lit "1.21"]) (Some 7%Z))
           (lit "https://cdn.example/server.zip")).
  - reflexivity.
  - reflexivity.
  - reflexivity.
Defined.

(** X2.  Whatever the catalog answers, [findLatestServerFile] leaves the
    file system and the streams as they are.  It makes the listing request,
    and at most one more request: the lookup of a file record, with a
    truthy server pack identifier. *)
Theorem findLatestServerFile_frame (e : env) (w : world) :
  fs (findLatestServerFile e w).2 = fs w
  /\ streams (findLatestServerFile e w).2 = streams w
  /\ (requests (findLatestServerFile e w).2 = requests w ++ [GetModFiles MODPACK_ID]
      \/ exists id,
           truthy_id id = true
           /\ requests (findLatestServerFile e w).2
              = requests w ++ [GetModFiles MODPACK_ID; GetFile MODPACK_ID id]).
Proof.
  rewrite findLatestServerFile_run.
  destruct (getModFiles e MODPACK_ID) as [[files|typeof]|reason];
    try (repeat split; left; reflexivity).
  destruct (select_server_file files) as [f|] eqn:Hsel;
    [|repeat split; left; reflexivity].
  assert (Hid : truthy_id (serverPackFileId f) = true)
    by apply (select_server_file_eligible files f Hsel).
  destruct (getFile e MODPACK_ID (serverPackFileId f)) as [url|reason];
    (split; [reflexivity|]; split; [reflexivity|]; right;
     exists (serverPackFileId f); split; [exact Hid|];
     cbn [snd after_lookup requests]; rewrite <- app_assoc; reflexivity).
Qed.

(** ** The selection and the order of the listing *)

Lemma filter_Permutation_bool {A : Type} (p : A -> bool) (l l' : list A) :
  Permutation l l' -> Permutation (List.filter p l) (List.filter p l').
Proof.
  induction 1 as [|x l l' _ IH|x y l|l l' l'' _ IH1 _ IH2]; cbn [List.filter].
  - constructor.
  - destruct (p x); [constructor|]; exact IH.
  - destruct (p x), (p y); try reflexivity. apply perm_swap.
  - exact (Permutation_trans IH1 IH2).
Qed.

(** The selected file is not older than any eligible entry. *)
Lemma select_server_file_newest (files : list file) (f g : file) :
  select_server_file files = Some f -> In g files -> eligible g ->
  (fileDate g <= fileDate f)%Z.
Proof.
  intros Hsel Hg Hel.
  assert (Hcand : In g (List.filter is_candidate files)).
  { apply filter_In. split; [exact Hg | apply is_candidate_spec, Hel]. }
  assert (Hne : List.filter is_candidate files <> []).
  { intros Hnil. rewrite Hnil in Hcand. destruct Hcand. }
  destruct (sort_first fileDate _ Hne) as (l1 & x & l2 & Heq & Hfirst & Hl1 & Hl2).
  unfold select_server_file in Hsel. fold (descending fileDate) in Hfirst.
  change by_date_desc with (descending fileDate) in Hsel.
  rewrite Hfirst in Hsel. injection Hsel as ->.
  rewrite Heq in Hcand. apply in_app_or in Hcand as [Hin|[<-|Hin]].
  - specialize (Hl1 g Hin). lia.
  - lia.
  - exact (Hl2 g Hin).
Qed.

Lemma select_server_file_none (files : list file) :
  select_server_file files = None <-> List.filter is_candidate files = [].
Proof.
  unfold select_server_file, Arr.first. split.
  - intros Hnone. destruct (List.filter is_candidate files) as [|x l] eqn:Hf; [reflexivity|].
    pose proof (sort_Permutation fileDate (x :: l)) as Hperm.
    change (descending fileDate) with by_date_desc in Hperm.
    destruct (Arr.sort by_date_desc (x :: l)); [|discriminate].
    apply Permutation_sym, Permutation_nil in Hperm. discriminate.
  - intros ->. reflexivity.
Qed.

(** X3.  When no two eligible entries have the same release time, the
    selection does not depend on the order of the listing: every
    permutation of the listing selects the same file. *)
Theorem select_server_file_order_free (files files' : list file) :
  Permutation files files' ->
  (forall a b, In a files -> In b files -> eligible a -> eligible b ->
               fileDate a = fileDate b -> a = b) ->
  select_server_file files' = select_server_file files.
Proof.
  intros Hperm Hdistinct.
  destruct (select_server_file files) as [f|] eqn:Hsel.
  - destruct (select_server_file files') as [f'|] eqn:Hsel'.
    + destruct (select_server_file_eligible _ _ Hsel) as [Hin Hel].
      destruct (select_server_file_eligible _ _ Hsel') as [Hin' Hel'].
      assert (Hin'1 : In f' files) by exact (Permutation_in _ (Permutation_sym Hperm) Hin').
      assert (Hin1 : In f files') by exact (Permutation_in _ Hperm Hin).
      pose proof (select_server_file_newest _ _ _ Hsel Hin'1 Hel') as H1.
      pose proof (select_server_file_newest _ _ _ Hsel' Hin1 Hel) as H2.
      f_equal. apply Hdistinct; try assumption. lia.
    + apply select_server_file_none in Hsel'.
      destruct (select_server_file_eligible _ _ Hsel) as [Hin Hel].
      assert (Hcand : In f (List.filter is_candidate files')).
      { apply filter_In. split; [exact (Permutation_in _ Hperm Hin)|].
        apply is_candidate_spec, Hel. }
      rewrite Hsel' in Hcand. destruct Hcand.
  - apply select_server_file_none. apply select_server_file_none in Hsel.
    apply Permutation_nil. rewrite <- Hsel.
    apply filter_Permutation_bool, Hperm.
Qed.

Lemma select_server_file_order_free_witness :
  select_server_file (rev dated_listing) = select_server_file dated_listing.
Proof.
  apply (select_server_file_order_free dated_listing (rev dated_listing)).
  - apply Permutation_rev.
  - intros a b Ha Hb _ _ Hdate. cbn in Ha, Hb.
    destruct Ha as [<-|[<-|[<-|[]]]]; destruct Hb as [<-|[<-|[<-|[]]]];
      first [reflexivity | vm_compute in Hdate; discriminate].
Defined.

(** In that listing the sort has two candidates to order, and they reach
    it in the one order from the listing and in the other from the reversed
    listing; the newer of the two is selected from both. *)
Example dated_listing_selection :
  List.map displayName (List.filter is_candidate dated_listing) = [lit "c"; lit "n"]
  /\ List.map displayName (List.filter is_candidate (rev dated_listing)) = [lit "n"; lit "c"]
  /\ option_map displayName (select_server_file dated_listing) = Some (lit "n")
  /\ option_map displayName (select_server_file (rev dated_listing)) = Some (lit "n").
Proof. vm_compute. repeat split. Qed.

(** ** What a computation leaves alone *)

Section Untouched.
Context (k : jsstring).

Lemma untouched_bind {A B : Type} (c : M A) (f : A -> M B) :
  untouched k c -> (forall a, untouched k (f a)) -> untouched k (bind c f).
Proof.
  intros Hc Hf w. unfold bind. specialize (Hc w).
  destruct (c w) as [[a|err|code] w']; cbn [snd] in *; try exact Hc.
  rewrite (Hf a w'). exact Hc.
Qed.

Lemma untouched_same_fs {A : Type} (c : M A) :
  (forall w, fs (c w).2 = fs w) -> untouched k c.
Proof. intros H w. rewrite H. reflexivity. Qed.

Lemma untouched_ret {A : Type} (a : A) : untouched k (ret a).
Proof. apply untouched_same_fs. reflexivity. Qed.

Lemma untouched_throw {A : Type} (err : error) : untouched k (@throw A err).
Proof. apply untouched_same_fs. reflexivity. Qed.

Lemma untouched_await {A : Type} (p : settled A) : untouched k (await p).
Proof. apply untouched_same_fs. intros w. destruct p; reflexivity. Qed.

Lemma untouched_console_emit (ev : console_event) : untouched k (console_emit ev).
Proof. apply untouched_same_fs. reflexivity. Qed.

Lemma untouched_request_emit (rq : request) : untouched k (request_emit rq).
Proof. apply untouched_same_fs. reflexivity. Qed.

Lemma untouched_existsSync (p : jsstring) : untouched k (existsSync p).
Proof. apply untouched_same_fs. reflexivity. Qed.

Lemma untouched_readFile (p : jsstring) : untouched k (readFile p).
Proof.
  apply untouched_same_fs. intros w. unfold readFile.
  destruct (fs w !! path_normalize p) as [[c|es]|]; reflexivity.
Qed.

Lemma untouched_readdir (p : jsstring) : untouched k (readdir p).
Proof.
  apply untouched_same_fs. intros w. unfold readdir.
  destruct (fs w !! path_normalize p) as [[c|es]|]; reflexivity.
Qed.

Lemma untouched_stream_end (p : jsstring) : untouched k (stream_end p).
Proof. apply untouched_same_fs. reflexivity. Qed.

Lemma untouched_mkdir (p : jsstring) : path_normalize p <> k -> untouched k (mkdir p).
Proof.
  intros Hne w. unfold mkdir.
  destruct (fs w !! path_normalize p) as [[c|es]|]; cbn [snd with_fs fs]; try reflexivity.
  apply lookup_insert_ne, Hne.
Qed.

Lemma untouched_writeFile (p content : jsstring) :
  apart p k -> untouched k (writeFile p content).
Proof. intros [Hne Hparent] w. apply writeFile_lookup_other; assumption. Qed.

Lemma untouched_createWriteStream (p : jsstring) :
  apart p k -> untouched k (createWriteStream p).
Proof.
  intros [Hne Hparent] w. unfold createWriteStream, unhandled_error_event.
  destruct (open_error (path_normalize p) (fs w)); [reflexivity|].
  cbn [snd with_streams with_fs fs].
  rewrite link_lookup_other by exact Hparent. apply lookup_insert_ne, Hne.
Qed.

Lemma untouched_stream_write (p chunk : jsstring) :
  path_normalize p <> k -> untouched k (stream_write p chunk).
Proof.
  intros Hne w. unfold stream_write. cbn [snd with_fs fs].
  destruct (fs w !! path_normalize p) as [[c|es]|]; try reflexivity.
  apply lookup_insert_ne, Hne.
Qed.

Lemma untouched_try_catch {A : Type} (body : M A) (handler : error -> M A) :
  untouched k body -> (forall err, untouched k (handler err)) ->
  untouched k (try_catch body handler).
Proof.
  intros Hb Hh w. unfold try_catch. specialize (Hb w).
  destruct (body w) as [[a|err|code] w']; cbn [snd] in *; try exact Hb.
  rewrite (Hh err w'). exact Hb.
Qed.

Lemma untouched_foldr {A : Type} (f : A -> M unit) (l : list A) :
  (forall a, In a l -> untouched k (f a)) ->
  untouched k (foldr (fun a rest => f a ;;; rest) (ret tt) l).
Proof.
  induction l as [|a l IH]; intros Hf; cbn [foldr].
  - apply untouched_ret.
  - apply untouched_bind; [apply Hf; left; reflexivity | intros _].
    apply IH. intros a' Ha'. apply Hf. right. exact Ha'.
Qed.

Lemma untouched_findLatestServerFile (e : env) : untouched k (findLatestServerFile e).
Proof.
  apply untouched_same_fs. intros w. rewrite findLatestServerFile_run.
  destruct (getModFiles e MODPACK_ID) as [[files|typeof]|reason]; try reflexivity.
  destruct (select_server_file files) as [f|]; [|reflexivity].
  destruct (getFile e MODPACK_ID (serverPackFileId f)); reflexivity.
Qed.

Lemma untouched_findServerJarInTempDir : untouched k findServerJarInTempDir.
Proof.
  intros w. destruct (findServerJarInTempDir_run w) as (w' & Hrun & Hfs & _).
  rewrite Hrun. cbn [snd]. rewrite Hfs. reflexivity.
Qed.

Lemma untouched_downloadFile (e : env) (url dest : jsstring) :
  apart dest k -> untouched k (downloadFile e url dest).
Proof.
  intros Hapart. unfold downloadFile.
  apply untouched_bind; [apply untouched_console_emit | intros _].
  apply untouched_bind; [apply untouched_request_emit | intros _].
  apply untouched_bind; [apply untouched_await | intros resp].
  destruct (negb (ok resp)); [apply untouched_throw|].
  apply untouched_bind; [apply untouched_createWriteStream, Hapart | intros _].
  apply untouched_bind; [|intros _; apply untouched_console_emit].
  unfold pipe_until_settled, write_chunks.
  apply untouched_bind.
  - apply (untouched_foldr (stream_write dest)). intros chunk _.
    apply untouched_stream_write, Hapart.
  - intros _. destruct (failure (body resp)); [apply untouched_throw|].
    apply untouched_bind; [apply untouched_stream_end | intros _; apply untouched_ret].
Qed.

End Untouched.

(** X4.  [downloadFile] changes the file at the destination and the listing
    of the directory the destination lies in, and nothing else of the file
    system: every other path has after the call what it had before, however
    the call ends. *)
Theorem downloadFile_frame (e : env) (url dest k : jsstring) (w : world) :
  apart dest k ->
  fs (downloadFile e url dest w).2 !! k = fs w !! k.
Proof.
  intros Hapart. revert w. change (untouched k (downloadFile e url dest)).
  unfold downloadFile.
  apply untouched_bind; [apply untouched_console_emit | intros _].
  apply untouched_bind; [apply untouched_request_emit | intros _].
  apply untouched_bind; [apply untouched_await | intros resp].
  destruct (negb (ok resp)); [apply untouched_throw|].
  apply untouched_bind; [apply untouched_createWriteStream, Hapart | intros _].
  apply untouched_bind; [|intros _; apply untouched_console_emit].
  unfold pipe_until_settled, write_chunks.
  apply untouched_bind.
  - apply (untouched_foldr k (stream_write dest)). intros chunk _.
    apply untouched_stream_write, Hapart.
  - intros _. destruct (failure (body resp)); [apply untouched_throw|].
    apply untouched_bind; [apply untouched_stream_end | intros _; apply untouched_ret].
Qed.

Lemma downloadFile_frame_witness :
  fs (downloadFile
        (sample_env (Resolved (DataArray sample_listing)) (sample_response true None))
        (lit "https://cdn.example/server.zip")
        (path_join TEMP_DIR SERVER_FILE_NAME) prepared_repo).2
  !! lit "launch.sh"
  = fs prepared_repo !! lit "launch.sh".
Proof.
  apply (downloadFile_frame
           (sample_env (Resolved (DataArray sample_listing)) (sample_response true None))
           (lit "https://cdn.example/server.zip")
           (path_join TEMP_DIR SERVER_FILE_NAME) (lit "launch.sh") prepared_repo).
  split.
  - vm_compute. discriminate.
  - intros b. vm_compute. discriminate.
Defined.

(** X5.  [downloadFile] writes nothing and opens no stream unless the
    request was answered with an [ok] response: when the file system or the
    streams differ after the call, [fetch] had resolved and [response.ok]
    was true. *)
Theorem downloadFile_writes_only_if_ok (e : env) (url dest : jsstring) (w : world) :
  fs (downloadFile e url dest w).2 <> fs w
  \/ streams (downloadFile e url dest w).2 <> streams w ->
  exists resp, fetch e url = Resolved resp /\ ok resp = true.
Proof.
  unfold downloadFile, bind, console_emit, request_emit.
  cbn [fs streams console requests].
  destruct (fetch e url) as [resp|reason]; cbn [await ret throw].
  - destruct (ok resp) eqn:Hok; [intros _; exists resp; split; [reflexivity | exact Hok]|].
    cbn [negb snd fs streams]. intros [H|H]; destruct H; reflexivity.
  - cbn [snd fs streams]. intros [H|H]; destruct H; reflexivity.
Qed.

Lemma downloadFile_writes_only_if_ok_witness :
  exists resp,
    fetch (sample_env (Resolved (DataArray sample_listing)) (sample_response true None))
      (lit "https://cdn.example/server.zip") = Resolved resp
    /\ ok resp = true.
Proof.
  apply (downloadFile_writes_only_if_ok
           (sample_env (Resolved (DataArray sample_listing)) (sample_response true None))
           (lit "https://cdn.example/server.zip")
           (path_join TEMP_DIR SERVER_FILE_NAME) prepared_repo).
  right. intros H.
  apply (f_equal (fun m : gmap (list N) stream_state =>
                    m !! lit "temp_server_files/server-files.zip")) in H.
  vm_compute in H. discriminate.
Defined.

(** X16.  The response is [ok], its body ends, and the file at the
    destination cannot be opened: a directory is in its place, or the
    directory it should lie in is missing.  [downloadFile] then ends the
    process with status 1.  It neither returns nor throws, so neither a
    [catch] nor a [finally] block of the caller runs; the file system and
    the streams are as they were, and the completion of the download is not
    logged. *)
Theorem downloadFile_open_fails (e : env) (url dest : jsstring) (w : world)
    (resp : response) (reason : jsstring) :
  fetch e url = Resolved resp ->
  ok resp = true ->
  failure (body resp) = None ->
  open_error (path_normalize dest) (fs w) = Some reason ->
  downloadFile e url dest w
  = (Exit 1,
     World (fs w) (streams w) (console w ++ [LogDownloading url])
       (requests w ++ [Fetch url])).
Proof.
  intros Hfetch Hok _ Hopen. unfold downloadFile.
  unfold bind at 1. unfold console_emit at 1.
  unfold bind at 1. unfold request_emit at 1.
  unfold bind at 1. rewrite Hfetch. unfold await, ret at 1. rewrite Hok.
  cbn [negb]. unfold bind at 1. unfold createWriteStream at 1.
  cbn [fs]. rewrite Hopen. reflexivity.
Qed.

Lemma downloadFile_open_fails_witness :
  downloadFile
    (sample_env (Resolved (DataArray sample_listing)) (sample_response true None))
    (lit "https://cdn.example/server.zip") (path_join TEMP_DIR SERVER_FILE_NAME)
    sample_repo
  = (Exit 1,
     World (fs sample_repo) (streams sample_repo)
       (console sample_repo ++ [LogDownloading (lit "https://cdn.example/server.zip")])
       (requests sample_repo ++ [Fetch (lit "https://cdn.example/server.zip")])).
Proof.
  apply (downloadFile_open_fails
           (sample_env (Resolved (DataArray sample_listing)) (sample_response true None))
           (lit "https://cdn.example/server.zip") (path_join TEMP_DIR SERVER_FILE_NAME)
           sample_repo
           (Response true (lit "status") (Body [lit "PK"; lit "data"] None))
           (lit "ENOENT")).
  - reflexivity.
  - reflexivity.
  - reflexivity.
  - vm_compute. reflexivity.
Defined.

(** ** The extraction *)

(** X6.  When there is no archive file at the place the download writes to,
    or the archive reader rejects it, [extractServerFiles] throws and the
    file system is as it was: nothing is extracted. *)
Theorem extractServerFiles_fails (e : env) (w : world) :
  (forall archive,
     fs w !! path_normalize (path_join TEMP_DIR SERVER_FILE_NAME) = Some (File archive) ->
     exists reason, unzip e archive = Rejects reason) ->
  exists err,
    (extractServerFiles e w).1 = Throw err
    /\ fs (extractServerFiles e w).2 = fs w
    /\ ~ In LogExtractionComplete (skipn (length (console w)) (console (extractServerFiles e w).2)).
Proof.
  intros Hbad. unfold extractServerFiles, bind, console_emit, readFile.
  cbn [fs streams console requests].
  destruct (fs w !! path_normalize (path_join TEMP_DIR SERVER_FILE_NAME))
    as [[archive|es]|] eqn:Hzip.
  - destruct (Hbad archive eq_refl) as [reason Hrej]. rewrite Hrej.
    cbn [await throw fst snd fs console]. eexists. split; [reflexivity|].
    split; [reflexivity|]. rewrite drop_app_length. intros [H|[]]. discriminate.
  - cbn [fst snd fs console]. eexists. split; [reflexivity|]. split; [reflexivity|].
    rewrite drop_app_length. intros [H|[]]. discriminate.
  - cbn [fst snd fs console]. eexists. split; [reflexivity|]. split; [reflexivity|].
    rewrite drop_app_length. intros [H|[]]. discriminate.
Qed.

Lemma extractServerFiles_fails_witness :
  exists err,
    (extractServerFiles
       (sample_env (Resolved (DataArray sample_listing)) (sample_response true None))
       sample_repo).1 = Throw err
    /\ fs (extractServerFiles
             (sample_env (Resolved (DataArray sample_listing)) (sample_response true None))
             sample_repo).2 = fs sample_repo
    /\ ~ In LogExtractionComplete
           (skipn (length (console sample_repo))
              (console (extractServerFiles
                          (sample_env (Resolved (DataArray sample_listing))
                             (sample_response true None))
                          sample_repo).2)).
Proof.
  apply (extractServerFiles_fails
           (sample_env (Resolved (DataArray sample_listing)) (sample_response true None))
           sample_repo).
  intros archive H. vm_compute in H. discriminate.
Defined.

(** The names of a directory are listed in their order, whatever the order
    in which the files were written: of two server programs of an archive,
    the one that is first by name is located, here the second of the
    archive. *)
Example extracted_files_are_listed_by_name :
  let e := Env (Some (lit "key")) (fun _ => Resolved (DataArray sample_listing))
             (fun _ _ => Resolved (lit "https://cdn.example/server.zip"))
             (fun _ => sample_response true None)
             (fun _ => Resolved [(lit "server.jar", lit "s"); (lit "forge.jar", lit "f")]) in
  let w := (extractServerFiles e
              (downloadFile e (lit "https://cdn.example/server.zip")
                 (path_join TEMP_DIR SERVER_FILE_NAME) prepared_repo).2).2 in
  temp_listing w = Some [lit "forge.jar"; lit "server-files.zip"; lit "server.jar"]
  /\ (findServerJarInTempDir w).1 = Normal (Some (lit "forge.jar")).
Proof. vm_compute. split; reflexivity. Qed.

(** ** [updateRepoFiles]: what it needs and what it leaves alone *)

(** X7.  Without a launch script that can be read, [updateRepoFiles] throws
    and the file system is as it was: the build file is not patched
    either, whether or not a server program was located. *)
Theorem updateRepoFiles_without_launch (version : jsstring) (w : world) :
  (forall content, fs w !! path_normalize LAUNCH_SH_PATH <> Some (File content)) ->
  exists reason,
    (updateRepoFiles version w).1 = Throw (Rejected reason)
    /\ fs (updateRepoFiles version w).2 = fs w.
Proof.
  intros Hmissing.
  destruct (findServerJarInTempDir_run w) as (w1 & Hjar & Hfs1 & _ & _).
  set (jar := located_jar w) in Hjar.
  destruct (updateRepoFiles version w) as [o wf] eqn:Hrun. cbn [fst snd].
  unfold updateRepoFiles in Hrun. unfold bind at 1 in Hrun. rewrite Hjar in Hrun.
  set (warn := if negb (truthy_opt jar) then console_emit WarnNoServerJar else ret tt) in Hrun.
  assert (Hwarn : exists w2, warn w1 = (Normal tt, w2) /\ fs w2 = fs w1).
  { subst warn. destruct (truthy_opt jar); simpl; eexists; split; reflexivity. }
  destruct Hwarn as (w2 & Hw2 & Hfs2).
  unfold bind at 1 in Hrun. rewrite Hw2 in Hrun.
  unfold bind at 1 in Hrun. unfold console_emit at 1 in Hrun.
  unfold bind at 1 in Hrun. unfold readFile at 1 in Hrun. cbn [fs] in Hrun.
  rewrite Hfs2, Hfs1 in Hrun.
  destruct (fs w !! path_normalize LAUNCH_SH_PATH) as [[content|es]|] eqn:Hlaunch.
  - destruct (Hmissing content eq_refl).
  - injection Hrun as <- <-. eexists. split; [reflexivity|]. cbn [fs]. congruence.
  - injection Hrun as <- <-. eexists. split; [reflexivity|]. cbn [fs]. congruence.
Qed.

Lemma updateRepoFiles_without_launch_witness :
  exists reason,
    (updateRepoFiles (lit "2.0") empty_world).1 = Throw (Rejected reason)
    /\ fs (updateRepoFiles (lit "2.0") empty_world).2 = fs empty_world.
Proof.
  apply (updateRepoFiles_without_launch (lit "2.0") empty_world).
  intros content H. vm_compute in H. discriminate.
Defined.

Lemma apart_launch (k : jsstring) : k <> path_normalize LAUNCH_SH_PATH -> apart LAUNCH_SH_PATH k.
Proof.
  intros Hne. split; [congruence|]. intros b. vm_compute. discriminate.
Qed.

Lemma apart_dockerfile (k : jsstring) :
  k <> path_normalize DOCKERFILE_PATH -> apart DOCKERFILE_PATH k.
Proof.
  intros Hne. split; [congruence|]. intros b. vm_compute. discriminate.
Qed.

Lemma untouched_updateRepoFiles (version k : jsstring) :
  k <> path_normalize LAUNCH_SH_PATH ->
  k <> path_normalize DOCKERFILE_PATH ->
  untouched k (updateRepoFiles version).
Proof.
  intros Hlaunch Hdocker. unfold updateRepoFiles.
  apply untouched_bind; [apply untouched_findServerJarInTempDir | intros jar].
  apply untouched_bind.
  { destruct (negb (truthy_opt jar)); [apply untouched_console_emit | apply untouched_ret]. }
  intros _. apply untouched_bind; [apply untouched_console_emit | intros _].
  apply untouched_bind; [apply untouched_readFile | intros launch].
  apply untouched_bind; [apply untouched_writeFile, apart_launch, Hlaunch | intros _].
  destruct (truthy_opt jar); [|apply untouched_ret].
  apply untouched_bind; [apply untouched_existsSync | intros found].
  destruct found; [|apply untouched_console_emit].
  apply untouched_bind; [apply untouched_console_emit | intros _].
  apply untouched_bind; [apply untouched_readFile | intros dockerfile].
  apply untouched_writeFile, apart_dockerfile, Hdocker.
Qed.

(** X8.  [updateRepoFiles] changes no path of the file system other than
    the launch script and the build file, however it ends. *)
Theorem updateRepoFiles_frame (version k : jsstring) (w : world) :
  k <> path_normalize LAUNCH_SH_PATH ->
  k <> path_normalize DOCKERFILE_PATH ->
  fs (updateRepoFiles version w).2 !! k = fs w !! k.
Proof.
  intros Hlaunch Hdocker. revert w. change (untouched k (updateRepoFiles version)).
  unfold updateRepoFiles.
  apply untouched_bind; [apply untouched_findServerJarInTempDir | intros jar].
  apply untouched_bind.
  { destruct (negb (truthy_opt jar)); [apply untouched_console_emit | apply untouched_ret]. }
  intros _. apply untouched_bind; [apply untouched_console_emit | intros _].
  apply untouched_bind; [apply untouched_readFile | intros launch].
  apply untouched_bind; [apply untouched_writeFile, apart_launch, Hlaunch | intros _].
  destruct (truthy_opt jar); [|apply untouched_ret].
  apply untouched_bind; [apply untouched_existsSync | intros found].
  destruct found; [|apply untouched_console_emit].
  apply untouched_bind; [apply untouched_console_emit | intros _].
  apply untouched_bind; [apply untouched_readFile | intros dockerfile].
  apply untouched_writeFile, apart_dockerfile, Hdocker.
Qed.

Lemma updateRepoFiles_frame_witness :
  fs (updateRepoFiles (lit "2.0") extracted_repo).2 !! lit "temp_server_files"
  = fs extracted_repo !! lit "temp_server_files".
Proof.
  apply (updateRepoFiles_frame (lit "2.0") (lit "temp_server_files") extracted_repo).
  - vm_compute. discriminate.
  - vm_compute. discriminate.
Defined.

(** The launch script after [updateRepoFiles]. *)
Lemma updateRepoFiles_launch (version : jsstring) (w : world) (launch : jsstring) :
  fs w !! path_normalize LAUNCH_SH_PATH = Some (File launch) ->
  fs (updateRepoFiles version w).2 !! path_normalize LAUNCH_SH_PATH
  = Some (File (new_launch launch version)).
Proof.
  intros Hlaunch.
  destruct (updateRepoFiles_fs version w launch Hlaunch) as (jar & _ & Hfs).
  rewrite Hfs.
  assert (Hne : path_normalize DOCKERFILE_PATH <> path_normalize LAUNCH_SH_PATH).
  { intros Heq. exact (launch_not_dockerfile (eq_sym Heq)). }
  destruct jar as [j|];
    [destruct (fs w !! path_normalize DOCKERFILE_PATH) as [[d|es]|];
     [destruct (Str.truthy j)| |] |];
    rewrite ?(lookup_insert_ne _ _ _ _ Hne), lookup_insert_eq; reflexivity.
Qed.

(** ** Running the launch-script patch again *)

Lemma new_launch_join (content version : jsstring) :
  ~ In 36 version ->
  new_launch content version
  = join_lines
      (patch_lines (SERVER_VERSION_PREFIX ++ version)
         (split_lines content).1 (split_lines content).2).1
      (patch_lines (SERVER_VERSION_PREFIX ++ version)
         (split_lines content).1 (split_lines content).2).2.
Proof.
  intros Hplain. unfold new_launch. fold SERVER_VERSION_PREFIX.
  set (new := SERVER_VERSION_PREFIX ++ version).
  assert (Hnew_plain : ~ In 36 new).
  { subst new. intros Hin. apply in_app_or in Hin as [Hin|Hin]; [|exact (Hplain Hin)].
    vm_compute in Hin. repeat (destruct Hin as [Hin|Hin]; [discriminate|]). exact Hin. }
  rewrite replace_plain by exact Hnew_plain.
  rewrite <- (join_split content) at 1.
  rewrite (replaced_lines new _ _ [] (split_well_split content) eq_refl).
  reflexivity.
Qed.

Lemma patch_lines_again (new line : jsstring) (more : list (N * jsstring)) :
  Str.startsWith new SERVER_VERSION_PREFIX = true ->
  patch_lines new (patch_lines new line more).1 (patch_lines new line more).2
  = patch_lines new line more.
Proof.
  intros Hnew. revert line. induction more as [|[t next] more IH]; intros line.
  - cbn [patch_lines]. destruct (Str.startsWith line SERVER_VERSION_PREFIX) eqn:Hline;
      cbn [fst snd patch_lines]; [rewrite Hnew | rewrite Hline]; reflexivity.
  - cbn [patch_lines]. destruct (Str.startsWith line SERVER_VERSION_PREFIX) eqn:Hline.
    + cbn [fst snd patch_lines]. rewrite Hnew. reflexivity.
    + specialize (IH next). destruct (patch_lines new next more) as [next' more''].
      cbn [fst snd] in *. cbn [patch_lines]. rewrite Hline, IH. reflexivity.
Qed.

Lemma new_launch_again (content version : jsstring) :
  ~ In 36 version ->
  forallb RegExp.class_dot version = true ->
  new_launch (new_launch content version) version = new_launch content version.
Proof.
  intros Hplain Hline.
  rewrite (new_launch_join content version Hplain).
  set (new := SERVER_VERSION_PREFIX ++ version).
  set (p := patch_lines new (split_lines content).1 (split_lines content).2).
  rewrite (new_launch_join _ version Hplain). fold new.
  assert (Hwell : well_split p.1 p.2).
  { subst p. apply patch_lines_well_split; [|apply split_well_split].
    subst new. rewrite forallb_app, Hline. reflexivity. }
  rewrite (split_join _ _ Hwell). cbn [fst snd]. subst p.
  rewrite patch_lines_again; [reflexivity|]. subst new. apply startsWith_app.
Qed.

(** X9.  Running [updateRepoFiles] a second time with the same version
    label, one without a dollar sign and without a line terminator, leaves
    the launch script as the first run wrote it. *)
Theorem launch_patch_twice (version : jsstring) (w : world) (launch : jsstring) :
  fs w !! path_normalize LAUNCH_SH_PATH = Some (File launch) ->
  ~ In 36 version ->
  forallb RegExp.class_dot version = true ->
  fs (updateRepoFiles version (updateRepoFiles version w).2).2 !! path_normalize LAUNCH_SH_PATH
  = fs (updateRepoFiles version w).2 !! path_normalize LAUNCH_SH_PATH.
Proof.
  intros Hlaunch Hplain Hline.
  pose proof (updateRepoFiles_launch version w launch Hlaunch) as Hfirst.
  rewrite (updateRepoFiles_launch version _ _ Hfirst), Hfirst.
  rewrite new_launch_again by assumption. reflexivity.
Qed.

Lemma launch_patch_twice_witness :
  fs (updateRepoFiles (lit "2.0") (updateRepoFiles (lit "2.0") extracted_repo).2).2
  !! path_normalize LAUNCH_SH_PATH
  = fs (updateRepoFiles (lit "2.0") extracted_repo).2 !! path_normalize LAUNCH_SH_PATH.
Proof.
  apply (launch_patch_twice (lit "2.0") extracted_repo
           (lit "#!/bin/bash" ++ [10] ++ lit "SERVER_VERSION=1.0" ++ [10])).
  - reflexivity.
  - vm_compute. intros H. repeat (destruct H as [H|H]; [discriminate|]). exact H.
  - reflexivity.
Defined.

(** ** The run as a whole *)

Lemma inside_spec (p k : jsstring) : inside p k = true <-> below p k.
Proof.
  unfold inside, below. rewrite orb_true_iff, bool_decide_eq_true, startsWith_spec.
  split; (intros [H|[rest H]]; [left; exact H | right; exists rest]).
  - rewrite H, <- app_assoc. reflexivity.
  - rewrite H, <- app_assoc. reflexivity.
Qed.

Lemma inside_false (p k : jsstring) : inside p k = false <-> ~ below p k.
Proof. rewrite <- inside_spec. symmetry. apply not_true_iff_false. Qed.

(** [main] in terms of its stages: the clean-up after a return, the exit
    after a throw. *)
Lemma main_run (e : env) (w : world) :
  main e w
  = match stages e w with
    | (Normal _, w1) => (Normal tt, cleanup w1)
    | (Throw err, w1) =>
        (Exit 1,
         World (fs w1) (streams w1) (console w1 ++ [ErrorUpdateProcess err]) (requests w1))
    | (Exit code, w1) => (Exit code, w1)
    end.
Proof.
  rewrite main_unfold. unfold try_catch_finally.
  destruct (stages_leave_scratch e w) as [_ Hdir].
  destruct (stages e w) as [[[]|err|code] w1]; cbn [fst snd] in *; try reflexivity.
  unfold bind at 1. unfold existsSync.
  rewrite bool_decide_eq_true_2 by exact Hdir. reflexivity.
Qed.

(** X10.  [main] never throws, and it ends in one of three ways.  It
    returns when every stage returned.  When a stage threw, the error is
    written to the console and the process exits with status 1.  When a
    stage ended the process, which is what the ['error'] event of the file
    stream does when the file of the download cannot be opened, the run
    ends there, with status 1: nothing more is written to the console, and
    the world is as that stage left it. *)
Theorem main_outcome (e : env) (w : world) :
  ((stages e w).1 = Normal tt /\ (main e w).1 = Normal tt)
  \/ (exists err,
        (stages e w).1 = Throw err
        /\ (main e w).1 = Exit 1
        /\ console (main e w).2 = console (stages e w).2 ++ [ErrorUpdateProcess err])
  \/ ((stages e w).1 = Exit 1 /\ main e w = (Exit 1, (stages e w).2)).
Proof.
  rewrite main_run. destruct (stages_leave_scratch e w) as [Hexit _].
  destruct (stages e w) as [[[]|err|code] w1]; cbn [fst snd] in *.
  - left. split; reflexivity.
  - right. left. exists err. repeat split.
  - right. right. rewrite (Hexit code eq_refl). split; reflexivity.
Qed.

(** The third way, in a repository whose scratch directory is left over
    from an earlier run and has a directory at the place of the download:
    the process ends with status 1, the [catch] block has written nothing,
    and the scratch directory is still there. *)
Example main_ends_at_unopened_file :
  let leftover :=
    with_fs (insert (lit "temp_server_files/server-files.zip") (Dir []))
      (with_fs (insert (lit "temp_server_files") (Dir [lit "server-files.zip"])) sample_repo) in
  let r := main (sample_env (Resolved (DataArray sample_listing)) (sample_response true None))
             leftover in
  r.1 = Exit 1
  /\ console r.2
     = [LogSearching; LogFound (lit "c") (Some 7%Z);
        LogDownloading (lit "https://cdn.example/server.zip")]
  /\ fs r.2 = fs leftover.
Proof. vm_compute. repeat split. Qed.

(** X11.  After a run in which every stage returned, nothing is left at or
    below the scratch directory, and every other path is as the stages left
    it. *)
Theorem main_success_cleanup (e : env) (w : world) :
  (stages e w).1 = Normal tt ->
  (main e w).1 = Normal tt
  /\ (forall k, below (path_normalize TEMP_DIR) k -> fs (main e w).2 !! k = None)
  /\ (forall k, ~ below (path_normalize TEMP_DIR) k ->
                fs (main e w).2 !! k = fs (stages e w).2 !! k).
Proof.
  intros Hok. rewrite main_run.
  destruct (stages e w) as [[[]|err|code] w1]; cbn [fst snd] in *; try discriminate.
  split; [reflexivity|]. unfold cleanup. cbn [fs]. split.
  - intros k Hk. apply map_lookup_filter_None. right. intros n _. cbn [fst].
    apply inside_spec in Hk. rewrite Hk. discriminate.
  - intros k Hk. apply inside_false in Hk.
    destruct (fs w1 !! k) as [n|] eqn:Hlook.
    + apply map_lookup_filter_Some. split; [exact Hlook | exact Hk].
    + apply map_lookup_filter_None. left. exact Hlook.
Qed.

Lemma main_success_cleanup_witness :
  (main (sample_env (Resolved (DataArray sample_listing)) (sample_response true None))
     sample_repo).1 = Normal tt
  /\ (forall k, below (path_normalize TEMP_DIR) k ->
        fs (main (sample_env (Resolved (DataArray sample_listing))
                    (sample_response true None)) sample_repo).2 !! k = None)
  /\ (forall k, ~ below (path_normalize TEMP_DIR) k ->
        fs (main (sample_env (Resolved (DataArray sample_listing))
                    (sample_response true None)) sample_repo).2 !! k
        = fs (stages (sample_env (Resolved (DataArray sample_listing))
                        (sample_response true None)) sample_repo).2 !! k).
Proof.
  apply (main_success_cleanup
           (sample_env (Resolved (DataArray sample_listing)) (sample_response true None))
           sample_repo).
  vm_compute. reflexivity.
Defined.

(** *** Paths of the scratch directory *)

Lemma temp_entry_path (name : jsstring) :
  path_normalize (path_join TEMP_DIR name) = path_normalize TEMP_DIR ++ lit "/" ++ name.
Proof. reflexivity. Qed.

Lemma split_last_slash_some (p q : jsstring) :
  exists d b, split_last_slash (p ++ 47 :: q) = Some (d, b).
Proof.
  induction p as [|c p IH]; cbn [app split_last_slash].
  - destruct (split_last_slash q) as [[d b]|]; eauto.
  - destruct IH as (d & b & ->). eauto.
Qed.

Lemma split_last_slash_below (p q d b : jsstring) :
  split_last_slash (p ++ 47 :: q) = Some (d, b) -> below p d.
Proof.
  revert d. induction p as [|c p IH]; intros d; cbn [app split_last_slash].
  - destruct (split_last_slash q) as [[d' b']|].
    + intros [= <- <-]. right. exists d'. reflexivity.
    + intros [= <- <-]. left. reflexivity.
  - destruct (split_last_slash_some p q) as (d' & b' & Hsplit). rewrite Hsplit.
    intros [= <- <-]. destruct (IH d' Hsplit) as [->|[rest ->]].
    + left. reflexivity.
    + right. exists rest. reflexivity.
Qed.

Lemma apart_temp_entry (name k : jsstring) :
  ~ below (path_normalize TEMP_DIR) k -> apart (path_join TEMP_DIR name) k.
Proof.
  intros Hk. unfold apart. rewrite temp_entry_path. split.
  - intros Heq. apply Hk. right. exists name. symmetry. exact Heq.
  - intros b Hsplit. apply Hk.
    exact (split_last_slash_below _ _ _ _ Hsplit).
Qed.

Lemma untouched_extractServerFiles (k : jsstring) (e : env) :
  ~ below (path_normalize TEMP_DIR) k -> untouched k (extractServerFiles e).
Proof.
  intros Hk. unfold extractServerFiles.
  apply untouched_bind; [apply untouched_console_emit | intros _].
  apply untouched_bind; [apply untouched_readFile | intros archive].
  apply untouched_bind; [apply untouched_await | intros directory].
  apply untouched_bind; [|intros _; apply untouched_console_emit].
  apply (untouched_foldr k (fun entry : jsstring * jsstring =>
                              writeFile (path_join TEMP_DIR entry.1) entry.2)).
  intros entry _. apply untouched_writeFile, apart_temp_entry, Hk.
Qed.

(** The stages before [updateRepoFiles] work at and below the scratch
    directory only. *)
Lemma untouched_mkdir_temp (k : jsstring) :
  ~ below (path_normalize TEMP_DIR) k -> untouched k (mkdir TEMP_DIR).
Proof.
  intros Hk. apply untouched_mkdir. intros Heq. apply Hk. left. symmetry. exact Heq.
Qed.

Lemma untouched_stages (k : jsstring) (e : env) :
  ~ below (path_normalize TEMP_DIR) k ->
  k <> path_normalize LAUNCH_SH_PATH ->
  k <> path_normalize DOCKERFILE_PATH ->
  untouched k (stages e).
Proof.
  intros Hk Hlaunch Hdocker. unfold stages.
  apply untouched_bind; [apply untouched_mkdir_temp, Hk | intros _].
  apply untouched_bind; [apply untouched_findLatestServerFile | intros info].
  apply untouched_bind; [apply untouched_downloadFile, apart_temp_entry, Hk | intros _].
  apply untouched_bind; [apply untouched_extractServerFiles, Hk | intros _].
  apply untouched_updateRepoFiles; assumption.
Qed.

Lemma cleanup_lookup_outside (k : jsstring) (w : world) :
  ~ below (path_normalize TEMP_DIR) k -> fs (cleanup w) !! k = fs w !! k.
Proof.
  intros Hk. apply inside_false in Hk. unfold cleanup. cbn [fs].
  destruct (fs w !! k) as [n|] eqn:Hlook.
  - apply map_lookup_filter_Some. split; [exact Hlook | exact Hk].
  - apply map_lookup_filter_None. left. exact Hlook.
Qed.

(** X12.  Whatever the catalog, the server and the archive answer, and
    however the run ends, [main] changes no path of the file system other
    than the launch script, the build file, and the paths at or below the
    scratch directory. *)
Theorem main_frame (e : env) (w : world) (k : jsstring) :
  ~ below (path_normalize TEMP_DIR) k ->
  k <> path_normalize LAUNCH_SH_PATH ->
  k <> path_normalize DOCKERFILE_PATH ->
  fs (main e w).2 !! k = fs w !! k.
Proof.
  intros Hk Hlaunch Hdocker. rewrite main_run.
  pose proof (untouched_stages k e Hk Hlaunch Hdocker w) as Hstages.
  destruct (stages e w) as [[[]|err|code] w1]; cbn [fst snd fs] in *.
  - rewrite cleanup_lookup_outside by exact Hk. exact Hstages.
  - exact Hstages.
  - exact Hstages.
Qed.

Lemma main_frame_witness :
  fs (main (sample_env (Resolved (DataArray sample_listing)) (sample_response true None))
        (with_fs (insert (lit "README.md") (File (lit "readme"))) sample_repo)).2
  !! lit "README.md"
  = fs (with_fs (insert (lit "README.md") (File (lit "readme"))) sample_repo)
    !! lit "README.md".
Proof.
  apply (main_frame
           (sample_env (Resolved (DataArray sample_listing)) (sample_response true None))
           (with_fs (insert (lit "README.md") (File (lit "readme"))) sample_repo)
           (lit "README.md")).
  - intros [H|[rest H]]; vm_compute in H; discriminate.
  - vm_compute. discriminate.
  - vm_compute. discriminate.
Defined.

Lemma launch_outside_scratch : ~ below (path_normalize TEMP_DIR) (path_normalize LAUNCH_SH_PATH).
Proof. intros [H|[rest H]]; vm_compute in H; discriminate. Qed.

(** The launch script after the stages, when they all returned. *)
Lemma stages_launch (e : env) (w : world) (files : list file) (f : file)
    (launch : jsstring) :
  getModFiles e MODPACK_ID = Resolved (DataArray files) ->
  select_server_file files = Some f ->
  fs w !! path_normalize LAUNCH_SH_PATH = Some (File launch) ->
  (stages e w).1 = Normal tt ->
  fs (stages e w).2 !! path_normalize LAUNCH_SH_PATH
  = Some (File (new_launch launch (version_label (fileName f)))).
Proof.
  intros Hlist Hsel Hlaunch.
  destruct (stages e w) as [o wf] eqn:Hrun. cbn [fst snd]. intros ->.
  unfold stages in Hrun. unfold bind at 1 in Hrun.
  pose proof (untouched_mkdir_temp _ launch_outside_scratch w) as H1.
  destruct (mkdir TEMP_DIR w) as [[[]|err|code] w1]; try discriminate Hrun.
  cbn [snd] in H1.
  unfold bind at 1 in Hrun. rewrite findLatestServerFile_run, Hlist, Hsel in Hrun.
  destruct (getFile e MODPACK_ID (serverPackFileId f)) as [url|reason];
    [|discriminate Hrun].
  cbn [downloadUrl modpackVersion] in Hrun.
  unfold bind at 1 in Hrun.
  pose proof (untouched_downloadFile _ e url (path_join TEMP_DIR SERVER_FILE_NAME)
                (apart_temp_entry SERVER_FILE_NAME _ launch_outside_scratch)
                (after_lookup f w1)) as H3.
  destruct (downloadFile e url (path_join TEMP_DIR SERVER_FILE_NAME) (after_lookup f w1))
    as [[[]|err|code] w3]; try discriminate Hrun.
  cbn [snd after_lookup fs] in H3.
  unfold bind at 1 in Hrun.
  pose proof (untouched_extractServerFiles _ e launch_outside_scratch w3) as H4.
  destruct (extractServerFiles e w3) as [[[]|err|code] w4]; try discriminate Hrun.
  cbn [snd] in H4.
  assert (Hlaunch4 : fs w4 !! path_normalize LAUNCH_SH_PATH = Some (File launch))
    by congruence.
  pose proof (updateRepoFiles_launch (version_label (fileName f)) w4 launch Hlaunch4) as H5.
  rewrite Hrun in H5. exact H5.
Qed.

(** X13.  After a run that returns, the launch script is the launch script
    from before the run, patched with the version label of the selected
    file: its file name without the [.zip] ending.  Neither the download nor
    the extraction nor the clean-up has touched it. *)
Theorem main_patches_launch (e : env) (w : world) (files : list file) (f : file)
    (launch : jsstring) :
  getModFiles e MODPACK_ID = Resolved (DataArray files) ->
  select_server_file files = Some f ->
  fs w !! path_normalize LAUNCH_SH_PATH = Some (File launch) ->
  (main e w).1 = Normal tt ->
  fs (main e w).2 !! path_normalize LAUNCH_SH_PATH
  = Some (File (new_launch launch (version_label (fileName f)))).
Proof.
  intros Hlist Hsel Hlaunch Hmain.
  pose proof (stages_launch e w files f launch Hlist Hsel Hlaunch) as Hstages.
  rewrite main_run in Hmain |- *.
  destruct (stages e w) as [[[]|err|code] w1]; cbn [fst snd] in *; try discriminate Hmain.
  rewrite cleanup_lookup_outside by exact launch_outside_scratch.
  exact (Hstages eq_refl).
Qed.

Lemma main_patches_launch_witness :
  fs (main (sample_env (Resolved (DataArray sample_listing)) (sample_response true None))
        sample_repo).2
  !! path_normalize LAUNCH_SH_PATH
  = Some (File (new_launch (lit "#!/bin/bash" ++ [10] ++ lit "SERVER_VERSION=1.0" ++ [10])
                  (version_label (lit "c.zip")))).
Proof.
  apply (main_patches_launch
           (sample_env (Resolved (DataArray sample_listing)) (sample_response true None))
           sample_repo sample_listing
           (FileRecord (lit "c") (lit "c.zip") 200 (Some [lit "1.21"]) (Some 7%Z))
           (lit "#!/bin/bash" ++ [10] ++ lit "SERVER_VERSION=1.0" ++ [10])).
  - reflexivity.
  - reflexivity.
  - reflexivity.
  - vm_compute. reflexivity.
Defined.

(** ** Files the patterns do not match *)

Lemma replace_without_match (re : RegExp.regexp) (s template : jsstring) :
  (forall pre x post, s = pre ++ x ++ post -> ~ matches re pre x post) ->
  RegExp.replace re s template = s.
Proof.
  intros Hnone. unfold RegExp.replace, RegExp.exec.
  destruct (RegExp.search re [] s) as [[st0 st1]|] eqn:Hsearch; [|reflexivity].
  apply search_sound in Hsearch as (pre & x & Hs & _ & Hd & _).
  rewrite app_nil_r in Hd. destruct (Hnone pre x (RegExp.rest st1) Hs Hd).
Qed.

Lemma matches_SERVER_VERSION_RE (pre x post : jsstring) :
  matches SERVER_VERSION_RE pre x post ->
  starts_line pre /\ Str.startsWith x SERVER_VERSION_PREFIX = true.
Proof.
  unfold matches, SERVER_VERSION_RE.
  cbn [RegExp.multiline RegExp.items den_items den_item].
  intros (x0 & y0 & -> & [-> Hstart] & p & y1 & -> & -> & rest).
  apply at_line_start_spec in Hstart. split; [exact Hstart|].
  cbn [app]. apply startsWith_app.
Qed.

Lemma starts_line_cases (pre : jsstring) :
  starts_line pre ->
  pre = [] \/ exists pre' c, pre = pre' ++ [c] /\ RegExp.LineTerminator c = true.
Proof.
  unfold starts_line. destruct (rev pre) as [|c l] eqn:Hrev.
  - apply (f_equal (@rev N)) in Hrev. rewrite rev_involutive in Hrev. left. exact Hrev.
  - apply (f_equal (@rev N)) in Hrev. rewrite rev_involutive in Hrev. subst pre.
    cbn [rev]. rewrite last_snoc. intros Hc. right. exists (rev l), c.
    split; [reflexivity | exact Hc].
Qed.

Lemma startsWith_first_line (r prefix : jsstring) :
  forallb RegExp.class_dot prefix = true ->
  Str.startsWith (split_lines r).1 prefix = Str.startsWith r prefix.
Proof.
  revert r. induction prefix as [|d prefix IH]; intros r Hprefix.
  - destruct r as [|c r]; [reflexivity | destruct (split_lines (c :: r)).1; reflexivity].
  - cbn [forallb] in Hprefix. apply andb_true_iff in Hprefix as [Hd Hprefix].
    destruct r as [|c r]; [reflexivity|].
    cbn [split_lines]. specialize (IH r Hprefix).
    destruct (split_lines r) as [line more]. cbn [fst] in IH.
    destruct (RegExp.LineTerminator c) eqn:Hc; cbn [fst Str.startsWith].
    + destruct (N.eqb_spec d c) as [->|Hne]; [|reflexivity].
      unfold RegExp.class_dot in Hd. rewrite Hc in Hd. discriminate.
    + rewrite IH. reflexivity.
Qed.

Lemma lines_after_terminator (p r : jsstring) (c : N) (l : jsstring) :
  RegExp.LineTerminator c = true ->
  In l (lines r) -> In l (List.map snd (split_lines (p ++ c :: r)).2).
Proof.
  intros Hc Hl. induction p as [|d p IH]; cbn [app split_lines].
  - unfold lines in Hl. destruct (split_lines r) as [line more].
    rewrite Hc. exact Hl.
  - destruct (split_lines (p ++ c :: r)) as [line more]. cbn [snd] in IH.
    destruct (RegExp.LineTerminator d); cbn [snd List.map]; [right|]; exact IH.
Qed.

(** A text that stands at the start of a line begins a line of the
    content. *)
Lemma match_line_prefix (content pre x post prefix : jsstring) :
  content = pre ++ x ++ post ->
  starts_line pre ->
  forallb RegExp.class_dot prefix = true ->
  Str.startsWith x prefix = true ->
  exists l, In l (lines content) /\ Str.startsWith l prefix = true.
Proof.
  intros -> Hstart Hprefix Hx.
  assert (Hfirst : Str.startsWith (split_lines (x ++ post)).1 prefix = true).
  { rewrite startsWith_first_line by exact Hprefix.
    apply startsWith_spec in Hx as [q ->]. rewrite <- app_assoc. apply startsWith_app. }
  exists (split_lines (x ++ post)).1. split; [|exact Hfirst].
  destruct (starts_line_cases pre Hstart) as [->|(pre' & c & -> & Hc)].
  - left. reflexivity.
  - right. rewrite <- app_assoc. apply lines_after_terminator; [exact Hc|].
    left. reflexivity.
Qed.

Lemma no_line_begins_spec (prefixes : list jsstring) (s l prefix : jsstring) :
  no_line_begins prefixes s = true -> In l (lines s) -> In prefix prefixes ->
  Str.startsWith l prefix = false.
Proof.
  unfold no_line_begins. intros Hall Hl Hp.
  rewrite forallb_forall in Hall. specialize (Hall l Hl).
  rewrite forallb_forall in Hall. specialize (Hall prefix Hp).
  apply negb_true_iff, Hall.
Qed.

(** X14.  A launch script in which no line begins with [SERVER_VERSION=] is
    written back as it is, whatever the version label, a dollar sign in it
    or not. *)
Theorem launch_without_version_line (content version : jsstring) :
  no_line_begins [SERVER_VERSION_PREFIX] content = true ->
  new_launch content version = content.
Proof.
  intros Hnone. unfold new_launch. apply replace_without_match.
  intros pre x post Hdec Hm. apply matches_SERVER_VERSION_RE in Hm as [Hstart Hprefix].
  destruct (match_line_prefix content pre x post SERVER_VERSION_PREFIX Hdec Hstart
              prefix_plain Hprefix) as (l & Hl & Hbegins).
  rewrite (no_line_begins_spec _ _ l SERVER_VERSION_PREFIX Hnone Hl) in Hbegins;
    [discriminate | left; reflexivity].
Qed.

Lemma launch_without_version_line_witness :
  new_launch (lit "#!/bin/bash" ++ [10] ++ lit "echo SERVER_VERSION=1") (lit "2.0$&")
  = lit "#!/bin/bash" ++ [10] ++ lit "echo SERVER_VERSION=1".
Proof.
  apply (launch_without_version_line
           (lit "#!/bin/bash" ++ [10] ++ lit "echo SERVER_VERSION=1") (lit "2.0$&")).
  reflexivity.
Defined.

(** X15.  A build file in which no line begins with [COPY] or [ADD] is
    written back as it is, whatever the name of the server program. *)
Theorem build_file_without_directive (content jar : jsstring) :
  no_line_begins [lit "COPY"; lit "ADD"] content = true ->
  new_dockerfile content jar = content.
Proof.
  intros Hnone. unfold new_dockerfile. apply replace_without_match.
  intros pre x post Hdec Hm. apply matches_COPY_RE in Hm as (Hstart & Hdir & _).
  destruct Hdir as (kw & ws1 & path & ext & ws2 & tail & -> & Hkw & _).
  assert (Hplain : forallb RegExp.class_dot kw = true).
  { destruct Hkw as [<-|[<-|[]]]; reflexivity. }
  destruct (match_line_prefix content pre _ post kw Hdec Hstart Hplain (startsWith_app kw _))
    as (l & Hl & Hbegins).
  rewrite (no_line_begins_spec _ _ l kw Hnone Hl Hkw) in Hbegins. discriminate.
Qed.

Lemma build_file_without_directive_witness :
  new_dockerfile (lit "FROM java" ++ [10] ++ lit "RUN COPY a.jar b") (lit "server.jar")
  = lit "FROM java" ++ [10] ++ lit "RUN COPY a.jar b".
Proof.
  apply (build_file_without_directive
           (lit "FROM java" ++ [10] ++ lit "RUN COPY a.jar b") (lit "server.jar")).
  reflexivity.
Defined.
